(** * kalami: the A/B update core (imagereader.cpp, updater.cpp)

    A shallow embedding of [ImageReader], [UpdateWriter], [UpdateThread] and
    [Updater], and the properties of the update pipeline checked against it.

    Conventions of the embedding.
    - A [size_t], [uint64_t] or [qint64] value is a [Z]; where the C++
      arithmetic is modular the wrap-around is written out ([wrap64]).
      [size_t] is taken to be 64 bits wide (the targets are arm64 boards).
    - File contents, network payloads and mapped memory are [list byte].
    - The file system is an explicit store threaded through every
      operation that touches a [QFile].
    - Qt signals leave a function as a list of emitted events, in order.
    - A [float] is a binary32 value, kept as the rational it denotes, and
      every conversion and operation on it rounds as IEEE 754 does. *)

From Stdlib Require Import ZArith List String Ascii Bool Lia QArith Lqa.
From Stdlib Require Import Qround Qpower.
From Stdlib Require Floats.SpecFloat.
From Stdlib Require Import Init.Byte DecimalString.
Import ListNotations.

Local Open Scope Z_scope.

(* ================================================================== *)
(** * Bytes and little-endian fields *)

Definition byte_val (b : byte) : Z := Z.of_N (Byte.to_N b).

Definition byte_of_Z (z : Z) : byte :=
  match Byte.of_N (Z.to_N (z mod 256)) with
  | Some b => b
  | None => x00
  end.

(** [qFromLittleEndian] / [le32toh] applied to the raw bytes of a field. *)
Fixpoint le_decode (bs : list byte) : Z :=
  match bs with
  | [] => 0
  | b :: rest => byte_val b + 256 * le_decode rest
  end.

(** The inverse direction, used to build concrete headers. *)
Fixpoint le_encode (width : nat) (z : Z) : list byte :=
  match width with
  | O => []
  | S w => byte_of_Z z :: le_encode w (z / 256)
  end.

(** The [width]-byte field at byte offset [off] of a packed struct. *)
Definition field (off width : nat) (raw : list byte) : Z :=
  le_decode (firstn width (skipn off raw)).

Definition wrap64 (z : Z) : Z := z mod 2 ^ 64.

(** A 64-bit unsigned result converted to [qint64]. *)
Definition to_qint64 (z : Z) : Z :=
  let u := wrap64 z in if u <? 2 ^ 63 then u else u - 2 ^ 64.

(* ================================================================== *)
(** * The file system seen through QFile *)

Inductive st_mode := S_IFREG | S_IFBLK | S_IFOTHER.

Record Inode := mkInode {
  i_mode : st_mode;
  i_data : list byte;          (* contents; for a block device, the whole device *)
  i_readable : bool;           (* open(ReadOnly) succeeds *)
  i_writable : bool;           (* open(WriteOnly) succeeds *)
  i_fstat_fails : bool;        (* fstat(2) returns < 0 *)
  i_blkgetsize_fails : bool    (* ioctl(BLKGETSIZE64) returns < 0 *)
}.

Definition FileSystem := string -> option Inode.

Definition fs_put (fs : FileSystem) (path : string) (ino : Inode) : FileSystem :=
  fun p => if String.eqb p path then Some ino else fs p.

Definition regular (data : list byte) : Inode :=
  mkInode S_IFREG data true true false false.

Definition blockdev (data : list byte) : Inode :=
  mkInode S_IFBLK data true true false false.

Definition set_data (ino : Inode) (data : list byte) : Inode :=
  mkInode (i_mode ino) data (i_readable ino) (i_writable ino)
          (i_fstat_fails ino) (i_blkgetsize_fails ino).

(* ================================================================== *)
(** * imagereader.cpp *)

Module ImageReader.

Inductive ImageType := SquashFsType | AndroidBootType | UnsupportedType.

Definition SQUASHFS_MAGIC : Z := 0x73717368.
Definition _ANDROID_BOOTIMG_MAGIC_1 : Z := 0x52444e41.
Definition _ANDROID_BOOTIMG_MAGIC_2 : Z := 0x2144494f.

(** [sizeof(struct squashfsHeader)]: 5 x u32, 6 x u16, 2 x u64, packed. *)
Definition sizeof_squashfsHeader : nat := 48.
(** [sizeof(struct androidBootHeader)]: 11 x u32, packed. *)
Definition sizeof_androidBootHeader : nat := 44.

(** Field accessors of [struct squashfsHeader]. *)
Definition s_magic (hdr : list byte) : Z := field 0 4 hdr.
Definition bytes_used (hdr : list byte) : Z := field 40 8 hdr.

(** Field accessors of [struct androidBootHeader]. *)
Definition magic (hdr : list byte) : Z := field 0 4 hdr.
Definition magic2 (hdr : list byte) : Z := field 4 4 hdr.
Definition kernel_size (hdr : list byte) : Z := field 8 4 hdr.
Definition initrd_size (hdr : list byte) : Z := field 16 4 hdr.
Definition second_size (hdr : list byte) : Z := field 24 4 hdr.
Definition page_size (hdr : list byte) : Z := field 36 4 hdr.
Definition dtb_size (hdr : list byte) : Z := field 40 4 hdr.

(** [static inline size_t ALIGN_TO(size_t l, size_t ali)]:
    [((l + ali - 1) & ~(ali - 1))] in 64-bit unsigned arithmetic. *)
Definition ALIGN_TO (l ali : Z) : Z :=
  Z.land (wrap64 (l + ali - 1)) (wrap64 (Z.lnot (wrap64 (ali - 1)))).

(** The object state: [type], [file] (name and whether it is open),
    [mappedBuffer] and [imageSize].  imagereader.h is not among the
    sources: [imageSize] is taken to be unsigned and 64 bits wide, as the
    [size_t] that [ALIGN_TO] returns and [mmap] takes.  The constructor does
    not initialise it; every read of it in the program follows an [open()]
    that assigned it, and the embedding starts it at 0. *)
Record t := mk {
  type : ImageType;
  fileName : string;
  isOpen : bool;
  mappedBuffer : option (list byte);
  imageSize : Z
}.

Definition new (ty : ImageType) (path : string) : t :=
  mk ty path false None 0.

Definition with_open (r : t) : t :=
  mk (type r) (fileName r) true (mappedBuffer r) (imageSize r).

Definition with_imageSize (r : t) (n : Z) : t :=
  mk (type r) (fileName r) (isOpen r) (mappedBuffer r) n.

(** [file.read((char * ) &hdr, sizeof(hdr))]: the bytes obtained. *)
Definition read_header (n : nat) (ino : Inode) : list byte :=
  firstn n (i_data ino).

(** The tail of [open()], from [qint64 fileSize = 0] on. *)
Definition check_fileSize (ino : Inode) (r : t) : bool * t :=
  match i_mode ino with
  | S_IFREG =>
      let fileSize := Z.of_nat (List.length (i_data ino)) in
      if fileSize <? imageSize r then (false, r) else (true, r)
  | S_IFBLK =>
      let fileSize :=
        if i_blkgetsize_fails ino then 0
        else Z.of_nat (List.length (i_data ino)) in
      if fileSize <? imageSize r then (false, r) else (true, r)
  | S_IFOTHER => (false, r)
  end.

(** [bool ImageReader::open()]. *)
Definition open (fs : FileSystem) (r0 : t) : bool * t :=
  if isOpen r0 then (false, r0) else
  match fs (fileName r0) with
  | None => (false, r0)
  | Some ino =>
    if negb (i_readable ino) then (false, r0) else
    let r := with_open r0 in
    if i_fstat_fails ino then (false, r) else
    match type r with
    | SquashFsType =>
        let hdr := read_header sizeof_squashfsHeader ino in
        if negb (Nat.eqb (List.length hdr) sizeof_squashfsHeader) then (false, r)
        else if negb (s_magic hdr =? SQUASHFS_MAGIC) then (false, r)
        else check_fileSize ino
               (with_imageSize r (ALIGN_TO (bytes_used hdr) 4096))
    | AndroidBootType =>
        let hdr := read_header sizeof_androidBootHeader ino in
        if negb (Nat.eqb (List.length hdr) sizeof_androidBootHeader) then (false, r)
        else if negb (magic hdr =? _ANDROID_BOOTIMG_MAGIC_1)
                || negb (magic2 hdr =? _ANDROID_BOOTIMG_MAGIC_2)
        then (false, r)
        else
          let pagesize := page_size hdr in
          check_fileSize ino
            (with_imageSize r
               (wrap64 (ALIGN_TO 608 pagesize
                        + ALIGN_TO (kernel_size hdr) pagesize
                        + ALIGN_TO (initrd_size hdr) pagesize
                        + ALIGN_TO (second_size hdr) pagesize
                        + ALIGN_TO (dtb_size hdr) pagesize)))
    | UnsupportedType => (false, r)
    end
  end.

(** [void ImageReader::close()]. *)
Definition close (r : t) : t :=
  if negb (isOpen r) then r
  else mk (type r) (fileName r) false None (imageSize r).

(** [const uchar *ImageReader::map()]: the mapping covers the first
    [imageSize] bytes of the file.  [None] is the null pointer.  A failing
    [mmap] returns [MAP_FAILED], which is not null and which the code does
    not test for; the embedding covers the runs in which [mmap] succeeds. *)
Definition map (fs : FileSystem) (r : t) : option (list byte) * t :=
  if negb (isOpen r) then (None, r)
  else
    match mappedBuffer r with
    | Some buf => (Some buf, r)
    | None =>
        let buf :=
          match fs (fileName r) with
          | Some ino => firstn (Z.to_nat (imageSize r)) (i_data ino)
          | None => []
          end in
        (Some buf, mk (type r) (fileName r) (isOpen r) (Some buf) (imageSize r))
    end.

(** [size()], declared in imagereader.h, returns [imageSize]. *)
Definition size (r : t) : Z := imageSize r.

End ImageReader.

(* ================================================================== *)
(** * updater.cpp: UpdateWriter *)

(** The interface [open_vcdiff::VCDiffStreamingDecoder] pushes its output
    to ([open_vcdiff::OutputStringInterface]); [size] is its only query. *)
Class OutputStringInterface (W : Type) := {
  append : W -> list byte -> W;
  clear : W -> W;
  push_back : W -> byte -> W;
  ReserveAdditionalBytes : W -> Z -> W;
  size : W -> Z
}.

Module UpdateWriter.

(** The [QFile] member: its name, whether it is open, and its position.
    The bytes live in the file system. *)
Record t := mk {
  fileName : string;
  isOpen : bool;
  pos : Z
}.

Definition new : t := mk "" false 0.

Definition zeros (n : nat) : list byte := repeat x00 n.

(** [write(2)] of [data] at offset [at_]: a regular file grows as needed
    (a gap is filled with zeros); any other node keeps its length, and only
    the bytes that fit are stored.  Returns the new contents and the number
    of bytes written. *)
Definition pwrite (ino : Inode) (at_ : nat) (data : list byte)
  : list byte * nat :=
  let old := i_data ino in
  match i_mode ino with
  | S_IFREG =>
      (firstn at_ old ++ zeros (at_ - List.length old) ++ data
         ++ skipn (at_ + List.length data) old,
       List.length data)
  | _ =>
      let fit := firstn (List.length old - at_) data in
      (firstn at_ old ++ fit ++ skipn (at_ + List.length fit) old,
       List.length fit)
  end.

(** [ftruncate(2)] to [sz] bytes; it fails on anything but a regular
    file. *)
Definition ftruncate (ino : Inode) (sz : nat) : option (list byte) :=
  match i_mode ino with
  | S_IFREG =>
      Some (firstn sz (i_data ino) ++ zeros (sz - List.length (i_data ino)))
  | _ => None
  end.

(** [QFile::write(s, n)] on the unbuffered file; the result is ignored by
    every caller. *)
Definition file_write (fs : FileSystem) (w : t) (data : list byte)
  : FileSystem * t :=
  if negb (isOpen w) then (fs, w) else
  match fs (fileName w) with
  | None => (fs, w)
  | Some ino =>
      let '(bytes, n) := pwrite ino (Z.to_nat (pos w)) data in
      (fs_put fs (fileName w) (set_data ino bytes),
       mk (fileName w) true (pos w + Z.of_nat n))
  end.

(** [QFile::resize(sz)]: moves the position back when it lies past [sz],
    then sets the length; a negative [sz] is refused by [seek] and by
    [ftruncate].  The result is ignored by the caller. *)
Definition file_resize (fs : FileSystem) (w : t) (sz : Z) : FileSystem * t :=
  if negb (isOpen w) then (fs, w) else
  if sz <? 0 then (fs, w) else
  match fs (fileName w) with
  | None => (fs, w)
  | Some ino =>
      let w' := if sz <? pos w then mk (fileName w) true sz else w in
      match ftruncate ino (Z.to_nat sz) with
      | Some bytes => (fs_put fs (fileName w) (set_data ino bytes), w')
      | None => (fs, w')
      end
  end.

(** [bool UpdateWriter::open(const QString &path)]:
    [file.open(QFileDevice::WriteOnly | QIODevice::Unbuffered)].
    Write-only mode truncates a regular file and creates a missing one. *)
Definition open (fs : FileSystem) (w : t) (path : string)
  : bool * FileSystem * t :=
  if isOpen w then (false, fs, w) else
  match fs path with
  | None => (true, fs_put fs path (regular []), mk path true 0)
  | Some ino =>
      if negb (i_writable ino) then (false, fs, mk path false 0)
      else
        match i_mode ino with
        | S_IFREG => (true, fs_put fs path (set_data ino []), mk path true 0)
        | _ => (true, fs, mk path true 0)
        end
  end.

(** [void UpdateWriter::close()]. *)
Definition close (w : t) : t := mk (fileName w) false 0.

(** [UpdateWriter &UpdateWriter::append(const char *s, size_t n)]. *)
Definition append (fw : FileSystem * t) (s : list byte) : FileSystem * t :=
  file_write (fst fw) (snd fw) s.

(** [void UpdateWriter::clear()]: [file.reset()]. *)
Definition clear (fw : FileSystem * t) : FileSystem * t :=
  (fst fw,
   if isOpen (snd fw) then mk (fileName (snd fw)) true 0 else snd fw).

(** [void UpdateWriter::push_back(char c)]. *)
Definition push_back (fw : FileSystem * t) (c : byte) : FileSystem * t :=
  file_write (fst fw) (snd fw) [c].

(** [void UpdateWriter::ReserveAdditionalBytes(size_t res_arg)]. *)
Definition ReserveAdditionalBytes (fw : FileSystem * t) (res_arg : Z)
  : FileSystem * t :=
  file_resize (fst fw) (snd fw) (to_qint64 (pos (snd fw) + res_arg)).

(** [size_t UpdateWriter::size() const]. *)
Definition size (fw : FileSystem * t) : Z := pos (snd fw).

(** The length of the file the writer is attached to. *)
Definition file_length (fw : FileSystem * t) : Z :=
  match fst fw (fileName (snd fw)) with
  | Some ino => Z.of_nat (List.length (i_data ino))
  | None => 0
  end.

End UpdateWriter.

#[export] Instance UpdateWriter_OutputString
  : OutputStringInterface (FileSystem * UpdateWriter.t) := {
  append := UpdateWriter.append;
  clear := UpdateWriter.clear;
  push_back := UpdateWriter.push_back;
  ReserveAdditionalBytes := UpdateWriter.ReserveAdditionalBytes;
  size := UpdateWriter.size
}.

(* ================================================================== *)
(** * [float] values

    A C [float] is a binary32 number, an infinity or NaN; a number is kept
    as the rational it denotes.  Conversions and operations round to the
    nearest representable number, ties to even, which is what IEEE 754
    arithmetic does in its default mode.  The two zeros are one: no
    comparison tells them apart, and the only zero the program divides by
    is [(float) 0], which is [+0]. *)

Inductive cfloat :=
| FNum (q : Q)
| FInf (negative : bool)
| FNaN.

(** [2^z]. *)
Definition pow2 (z : Z) : Q := Qpower 2 z.

(** The binary exponent of a positive rational: the [e] with
    [2^e <= q < 2^(e+1)] ([ilog2_spec] below). *)
Definition ilog2 (q : Q) : Z :=
  let e := Z.log2 (Qnum q) - Z.log2 (Zpos (Qden q)) in
  if Qle_bool (pow2 e) q then e else e - 1.

(** The nearest integer, ties to even. *)
Definition rne (x : Q) : Z :=
  let f := Qfloor x in
  match Qcompare (x - inject_Z f) (1 # 2) with
  | Lt => f
  | Gt => f + 1
  | Eq => if Z.even f then f else f + 1
  end.

(** A positive rational rounded to the binary format with [prec] bits of
    precision whose smallest subnormal is [2^emin] and whose numbers lie
    below [2^emax]: the nearest multiple of [2^u], ties to even, where [u]
    is the exponent of the unit in the last place at the magnitude of [q];
    an infinity when that reaches [2^emax]. *)
Definition round_pos (prec emin emax : Z) (q : Q) : cfloat :=
  let u := Z.max (ilog2 q + 1 - prec) emin in
  let x := (inject_Z (rne (q * pow2 (- u))) * pow2 u)%Q in
  if Qle_bool (pow2 emax) x then FInf false else FNum (Qred x).

Definition fneg (v : cfloat) : cfloat :=
  match v with
  | FNum q => FNum (Qred (- q))
  | FInf negative => FInf (negb negative)
  | FNaN => FNaN
  end.

Definition round (prec emin emax : Z) (q : Q) : cfloat :=
  let q := Qred q in
  match Qcompare q 0 with
  | Eq => FNum 0
  | Gt => round_pos prec emin emax q
  | Lt => fneg (round_pos prec emin emax (- q))
  end.

(** binary32, the [float] of the targets, and binary64, their [double]. *)
Definition round32 : Q -> cfloat := round 24 (-149) 128.
Definition round64 : Q -> cfloat := round 53 (-1074) 1024.

(** [(float) a] for an integer [a]. *)
Definition float_of_int (a : Z) : cfloat := round32 (inject_Z a).

(** [x / y] on [float]; a zero divisor is [+0]. *)
Definition fdiv (x y : cfloat) : cfloat :=
  match x, y with
  | FNaN, _ | _, FNaN => FNaN
  | FInf _, FInf _ => FNaN
  | FInf s, FNum d => FInf (xorb s (negb (Qle_bool 0 d)))
  | FNum _, FInf _ => FNum 0
  | FNum n, FNum d =>
      if Qeq_bool d 0
      then (if Qeq_bool n 0 then FNaN else FInf (negb (Qle_bool 0 n)))
      else round32 (n / d)
  end.

(** [(float) a / (float) b] for two [qint64]. *)
Definition float_div (a b : Z) : cfloat :=
  fdiv (float_of_int a) (float_of_int b).

(** [v < 0.0f]. *)
Definition flt0 (v : cfloat) : bool :=
  match v with
  | FNum q => negb (Qle_bool 0 q)
  | FInf negative => negative
  | FNaN => false
  end.

(** [v > 1.0f]. *)
Definition fgt1 (v : cfloat) : bool :=
  match v with
  | FNum q => negb (Qle_bool q 1)
  | FInf negative => negb negative
  | FNaN => false
  end.

(** [a + b] on [float]. *)
Definition fadd (a b : cfloat) : cfloat :=
  match a, b with
  | FNaN, _ | _, FNaN => FNaN
  | FNum x, FNum y => round32 (x + y)
  | FInf s, FNum _ | FNum _, FInf s => FInf s
  | FInf s, FInf s' => if Bool.eqb s s' then FInf s else FNaN
  end.

(** [p += c] for a [float] [p] and a [double] constant [c]: [p] is
    promoted, the sum is taken in [double] and converted back. *)
Definition fadd_double (p : cfloat) (c : Q) : cfloat :=
  match p with
  | FNum x =>
      match round64 (x + c) with
      | FNum y => round32 y
      | other => other
      end
  | other => other
  end.

(** [v / 4]: the [int] is converted to [float]. *)
Definition fdiv4 (v : cfloat) : cfloat := fdiv v (float_of_int 4).

(** The value lies in [[lo, hi]]; false of an infinity and of NaN. *)
Definition fbetween (lo hi : Q) (v : cfloat) : Prop :=
  match v with
  | FNum q => (lo <= q)%Q /\ (q <= hi)%Q
  | _ => False
  end.

(** [a <= b] on numbers; false as soon as one side is not a number. *)
Definition fle (a b : cfloat) : Prop :=
  match a, b with
  | FNum x, FNum y => (x <= y)%Q
  | _, _ => False
  end.

Definition fleb (a b : cfloat) : bool :=
  match a, b with
  | FNum x, FNum y => Qle_bool x y
  | _, _ => false
  end.

(** A sequence is non-decreasing: each value is [<=] its successor. *)
Fixpoint nondecreasing (l : list cfloat) : Prop :=
  match l with
  | a :: (b :: _) as rest => fle a b /\ nondecreasing rest
  | _ => True
  end.

Fixpoint nondecreasingb (l : list cfloat) : bool :=
  match l with
  | a :: (b :: _) as rest => fleb a b && nondecreasingb rest
  | _ => true
  end.

(* ================================================================== *)
(** * The network and the libraries the update thread calls *)

(** What a [QNetworkReply] delivers while the local [QEventLoop] runs:
    its signals in order of delivery.  [readyRead] carries whether
    [reply->error()] differs from [NoError] at that moment and what
    [reply->readAll()] returns.  The single-shot 60 s [QTimer] is the end of
    the list: when no signal is left the timer quits the loop.  What
    [reply->abort()] makes the reply emit is part of the sequence like any
    other signal; the call itself changes none of the captured locals. *)
Module QNetworkReply.

Inductive Signal :=
| readyRead (replyError : bool) (data : list byte)
| error
| finished
| downloadProgress (bytesReceived bytesTotal : Z).

End QNetworkReply.

Abbreviation Signal := QNetworkReply.Signal.

Inductive RequestKind := DeltaRequest | FullRequest.

(** The state outside the thread: the file system, the replies the
    network will give to the requests still to come (one signal sequence
    per request, in request order; a request past the end of the list gets
    no signal), and the requests issued so far. *)
Record World := mkWorld {
  fs : FileSystem;
  replies : list (list Signal);
  requests : list (RequestKind * string)
}.

Definition with_fs (w : World) (fs' : FileSystem) : World :=
  mkWorld fs' (replies w) (requests w).

(** [networkAccessManager.get(request)]. *)
Definition net_get (w : World) (kind : RequestKind) (url : string)
  : list Signal * World :=
  (hd [] (replies w),
   mkWorld (fs w) (tl (replies w)) (requests w ++ [(kind, url)])).

(** The libraries behind the thread: [QCryptographicHash] with
    [QCryptographicHash::Sha512] (the digest of all the data added), and
    [open_vcdiff::VCDiffStreamingDecoder], which writes through any
    [OutputStringInterface]. *)
Record EngineLibs := mkEngineLibs {
  sha512 : list byte -> list byte;
  Decoder : Type;
  (* SetMaximumTargetFileSize(max); StartDecoding(dict, size) *)
  StartDecoding : Z -> list byte -> Decoder;
  DecodeChunkToInterface :
    forall (W : Type), OutputStringInterface W ->
      Decoder -> list byte -> W -> bool * Decoder * W;
  FinishDecoding : Decoder -> bool * Decoder
}.

(** [QByteArray::toHex()]: two lower-case hexadecimal digits per byte. *)
Definition hex_digit (n : Z) : ascii :=
  if n <? 10 then ascii_of_N (Z.to_N (48 + n))
  else ascii_of_N (Z.to_N (97 + (n - 10))).

Fixpoint toHex (bs : list byte) : string :=
  match bs with
  | [] => EmptyString
  | b :: rest =>
      String (hex_digit (byte_val b / 16))
        (String (hex_digit (byte_val b mod 16)) (toHex rest))
  end.

(** [struct AvailableUpdate] (updater.h), by the fields updater.cpp uses. *)
Record AvailableUpdate := mkAvailableUpdate {
  version : Z;
  rootfsUrl : string;
  rootfsSha512 : string;
  bootimgUrl : string;
  bootimgSha512 : string;
  rootfsDeltaUrl : string;
  bootimgDeltaUrl : string
}.

(** [memset(&availableUpdate, 0, sizeof(availableUpdate))]. *)
Definition zeroed : AvailableUpdate := mkAvailableUpdate 0 "" "" "" "" "" "".

(** The [Machine] collaborator, by the getters updater.cpp calls.
    [OTHER_MODEL] stands for the enumerators the [switch] in [check()]
    leaves to its [default]. *)
Inductive Model := DT410C_EVALBOARD | NEPOS1 | OTHER_MODEL.

Record Machine := mkMachine {
  getOsVersion : Z;
  getModel : Model;
  getCurrentBootDevice : string;
  getCurrentRootfsDevice : string;
  getAltBootDevice : string;
  getAltRootfsDevice : string
}.

(** [Updater::ImageType]. *)
Inductive ImageType := BootImageType | RootfsImageType.

(** [Updater::getUpdateSeed] and [Updater::getUpdateTarget]. *)
Definition getUpdateSeed (machine : Machine) (type : ImageType) : string :=
  match type with
  | BootImageType => getCurrentBootDevice machine
  | RootfsImageType => getCurrentRootfsDevice machine
  end.

Definition getUpdateTarget (machine : Machine) (type : ImageType) : string :=
  match type with
  | BootImageType => getAltBootDevice machine
  | RootfsImageType => getAltRootfsDevice machine
  end.

(* ================================================================== *)
(** * updater.cpp: UpdateThread *)

(** [QEventLoop::exec()]: the slots run on the signals in order until one
    of them calls [loop.quit()], or until the timer does. *)
Fixpoint QEventLoop_exec {S E : Type}
    (slot : Signal -> S -> S * bool * list E)
    (signals : list Signal) (s : S) : S * list E :=
  match signals with
  | [] => (s, [])
  | sig :: rest =>
      let '(s', quit, out) := slot sig s in
      if quit then (s', out)
      else let '(s'', out') := QEventLoop_exec slot rest s' in
           (s'', out ++ out')
  end.

Module UpdateThread.

Inductive State := DownloadBootimgState | DownloadRootfsState.

(** The signals of the thread. *)
Inductive Emitted :=
| progress (v : cfloat)
| failed
| succeeded.

(** [void UpdateThread::emitProgress(bool isDownload, float v)]. *)
Definition emitProgress (state : State) (isDownload : bool) (v : cfloat)
  : list Emitted :=
  if flt0 v || fgt1 v then []
  else
    let p := FNum 0 in
    let p := match state with
             | DownloadBootimgState => p
             | DownloadRootfsState => fadd_double p (1 # 2)
             end in
    let p := if negb isDownload then fadd_double p (1 # 4) else p in
    let p := fadd p (fdiv4 v) in
    [progress p].

Section WithLibs.

Variable L : EngineLibs.

(** The locals the lambdas of [downloadDeltaImage] capture by reference. *)
Record DeltaLocals := mkDeltaLocals {
  d_ret : bool;
  d_error : bool;
  d_decoder : Decoder L;
  d_output : FileSystem * UpdateWriter.t
}.

(** The four lambdas connected in [downloadDeltaImage].  Each returns the
    locals, whether it called [loop.quit()], and what it emitted. *)
Definition delta_slot (state : State) (sig : Signal) (d : DeltaLocals)
  : DeltaLocals * bool * list Emitted :=
  match sig with
  | QNetworkReply.readyRead replyError data =>
      if replyError then
        (mkDeltaLocals (d_ret d) true (d_decoder d) (d_output d), false, [])
      else
        let '(ok, dec, out) :=
          DecodeChunkToInterface L _ _ (d_decoder d) data (d_output d) in
        if negb ok then (mkDeltaLocals (d_ret d) true dec out, true, [])
        else (mkDeltaLocals (d_ret d) (d_error d) dec out, false, [])
  | QNetworkReply.error =>
      (mkDeltaLocals (d_ret d) true (d_decoder d) (d_output d), true, [])
  | QNetworkReply.finished =>
      let dec := if negb (d_error d) then snd (FinishDecoding L (d_decoder d))
                 else d_decoder d in
      (mkDeltaLocals true (d_error d) dec (d_output d), true, [])
  | QNetworkReply.downloadProgress bytesReceived bytesTotal =>
      (d, false, emitProgress state true (float_div bytesReceived bytesTotal))
  end.

(** [bool UpdateThread::downloadDeltaImage(deltaUrl, dict, outputPath)].
    The dictionary handed to the decoder is the mapping as it is when
    [StartDecoding] is called. *)
Definition downloadDeltaImage (state : State) (w : World)
    (deltaUrl : string) (dict : ImageReader.t) (outputPath : string)
  : bool * World * ImageReader.t * list Emitted :=
  let '(reply, w) := net_get w DeltaRequest deltaUrl in
  let '(opened, fs1, output) :=
    UpdateWriter.open (fs w) UpdateWriter.new outputPath in
  if negb opened then (false, with_fs w fs1, dict, [])
  else
    let '(buf, dict) := ImageReader.map fs1 dict in
    match buf with
    | None => (false, with_fs w fs1, dict, [])
    | Some buf =>
        let decoder :=
          StartDecoding L (512 * 1024 * 1024)
            (firstn (Z.to_nat (ImageReader.size dict)) buf) in
        let '(d, out) :=
          QEventLoop_exec (delta_slot state) reply
            (mkDeltaLocals false false decoder (fs1, output)) in
        (d_ret d && negb (d_error d), with_fs w (fst (d_output d)), dict, out)
    end.

(** The locals the lambdas of [downloadFullImage] capture. *)
Record FullLocals := mkFullLocals {
  f_ret : bool;
  f_output : FileSystem * UpdateWriter.t
}.

Definition full_slot (state : State) (sig : Signal) (f : FullLocals)
  : FullLocals * bool * list Emitted :=
  match sig with
  | QNetworkReply.readyRead replyError data =>
      if replyError then (f, false, [])
      else (mkFullLocals (f_ret f) (UpdateWriter.append (f_output f) data),
            false, [])
  | QNetworkReply.error => (f, true, [])
  | QNetworkReply.finished => (mkFullLocals true (f_output f), true, [])
  | QNetworkReply.downloadProgress bytesReceived bytesTotal =>
      (f, false, emitProgress state true (float_div bytesReceived bytesTotal))
  end.

(** [bool UpdateThread::downloadFullImage(url, outputPath)]. *)
Definition downloadFullImage (state : State) (w : World)
    (url : string) (outputPath : string)
  : bool * World * list Emitted :=
  let '(reply, w) := net_get w FullRequest url in
  let '(opened, fs1, output) :=
    UpdateWriter.open (fs w) UpdateWriter.new outputPath in
  if negb opened then (false, with_fs w fs1, [])
  else
    let '(f, out) :=
      QEventLoop_exec (full_slot state) reply
        (mkFullLocals false (fs1, output)) in
    (f_ret f, with_fs w (fst (f_output f)), out).

(** The [while (pos < image.size())] loop of [verifyImage]: the data added
    to the hash so far, and the progress emitted.  It runs on a count of
    iterations that [verifyImage] sets high enough for the loop to end by
    its own test ([hash_loop_complete] below). *)
Fixpoint hash_loop (n : nat) (state : State) (image_size : Z)
    (pos : Z) (buf : list byte) (hash : list byte)
  : list byte * list Emitted :=
  match n with
  | O => (hash, [])
  | S n' =>
      if pos <? image_size then
        let l := Z.min (1024 * 1024) (image_size - pos) in
        let hash := (hash ++ firstn (Z.to_nat l) buf)%list in
        let pos := pos + l in
        let buf := skipn (Z.to_nat l) buf in
        let out := emitProgress state false (float_div pos image_size) in
        let '(hash', out') := hash_loop n' state image_size pos buf hash in
        (hash', out ++ out')
      else (hash, [])
  end.

Definition hash_loop_bound (image_size : Z) : nat :=
  S (Z.to_nat (image_size / (1024 * 1024))).

(** [bool UpdateThread::verifyImage(type, path, sha512)]. *)
Definition verifyImage (state : State) (fs : FileSystem)
    (type : ImageReader.ImageType) (path : string) (sha512_hex : string)
  : bool * list Emitted :=
  let image := ImageReader.new type path in
  let '(opened, image) := ImageReader.open fs image in
  if negb opened then (false, [])
  else
    let '(buf, image) := ImageReader.map fs image in
    match buf with
    | None => (false, [])
    | Some buf =>
        let '(hash, out) :=
          hash_loop (hash_loop_bound (ImageReader.size image)) state
            (ImageReader.size image) 0 buf [] in
        (String.eqb (toHex (sha512 L hash)) sha512_hex, out)
    end.

(** [bool UpdateThread::downloadAndVerify(type, dictionaryPath, outputPath,
    fullImageUrl, deltaImageUrl, sha512)].  [dict.close()] releases the
    mapping of a reader that is not used again and leaves no trace here. *)
Definition downloadAndVerify (state : State) (w : World)
    (type : ImageReader.ImageType) (dictionaryPath outputPath : string)
    (fullImageUrl deltaImageUrl : string) (sha512_hex : string)
  : bool * World * list Emitted :=
  let dict := ImageReader.new type dictionaryPath in
  let '(dict_opened, dict) := ImageReader.open (fs w) dict in
  let '(go_on, w1, out1) :=
    if dict_opened then
      let '(ok, w1, _, out) :=
        downloadDeltaImage state w deltaImageUrl dict outputPath in
      (ok, w1, out)
    else (true, w, []) in
  if negb go_on then (false, w1, out1)
  else
    let '(ok2, out2) := verifyImage state (fs w1) type outputPath sha512_hex in
    if ok2 then (true, w1, out1 ++ out2)
    else
      let '(ok3, w3, out3) :=
        downloadFullImage state w1 fullImageUrl outputPath in
      if negb ok3 then (false, w3, out1 ++ out2 ++ out3)
      else
        let '(ok4, out4) :=
          verifyImage state (fs w3) type outputPath sha512_hex in
        (ok4, w3, out1 ++ out2 ++ out3 ++ out4).

(** [void UpdateThread::run()]. *)
Definition run (machine : Machine) (update : AvailableUpdate) (w : World)
  : World * list Emitted :=
  let '(ret, w1, out1) :=
    downloadAndVerify DownloadBootimgState w ImageReader.AndroidBootType
      (getUpdateSeed machine BootImageType)
      (getUpdateTarget machine BootImageType)
      (bootimgUrl update) (bootimgDeltaUrl update) (bootimgSha512 update) in
  if negb ret then (w1, out1 ++ [failed])
  else
    let '(ret, w2, out2) :=
      downloadAndVerify DownloadRootfsState w1 ImageReader.SquashFsType
        (getUpdateSeed machine RootfsImageType)
        (getUpdateTarget machine RootfsImageType)
        (rootfsUrl update) (rootfsDeltaUrl update) (rootfsSha512 update) in
    if negb ret then (w2, out1 ++ out2 ++ [failed])
    else (w2, out1 ++ out2 ++ [succeeded]).

End WithLibs.

End UpdateThread.

(* ================================================================== *)
(** * SHA-512 (FIPS 180-4)

    The function [QCryptographicHash::Sha512] computes, written out so that
    the properties can be evaluated on concrete images.  [sha512_test_vectors]
    below checks it on the standard test vectors. *)

Module SHA512.

Definition w64 (z : Z) : Z := Z.land z 0xFFFFFFFFFFFFFFFF.
Definition add (x y : Z) : Z := w64 (x + y).
Definition rotr (n x : Z) : Z := Z.lor (Z.shiftr x n) (w64 (Z.shiftl x (64 - n))).
Definition shr (n x : Z) : Z := Z.shiftr x n.
Definition xor3 (a b c : Z) : Z := Z.lxor (Z.lxor a b) c.

Definition Ch (x y z : Z) : Z := Z.lxor (Z.land x y) (Z.land (w64 (Z.lnot x)) z).
Definition Maj (x y z : Z) : Z := xor3 (Z.land x y) (Z.land x z) (Z.land y z).
Definition Sigma0 (x : Z) : Z := xor3 (rotr 28 x) (rotr 34 x) (rotr 39 x).
Definition Sigma1 (x : Z) : Z := xor3 (rotr 14 x) (rotr 18 x) (rotr 41 x).
Definition sigma0 (x : Z) : Z := xor3 (rotr 1 x) (rotr 8 x) (shr 7 x).
Definition sigma1 (x : Z) : Z := xor3 (rotr 19 x) (rotr 61 x) (shr 6 x).

(** The greatest [x < 2^k] with [p x], for a downward-closed [p]. *)
Fixpoint greatest (k : nat) (p : Z -> bool) (acc : Z) : Z :=
  match k with
  | O => acc
  | S k' =>
      let c := acc + 2 ^ Z.of_nat k' in
      greatest k' p (if p c then c else acc)
  end.

Definition icbrt (n : Z) : Z := greatest 70 (fun x => x * x * x <=? n) 0.

Definition is_prime (n : Z) : bool :=
  (2 <=? n) &&
  forallb (fun d => negb (n mod Z.of_nat d =? 0)) (seq 2 (Z.to_nat n - 2)).

Definition primes80 : list Z :=
  Eval vm_compute in
    firstn 80 (filter is_prime (List.map Z.of_nat (seq 2 420))).

(** Round constants: the first 64 bits of the fractional parts of the cube
    roots of the first eighty primes. *)
Definition K : list Z :=
  Eval vm_compute in List.map (fun p => w64 (icbrt (p * 2 ^ 192))) primes80.

(** Initial hash value: the fractional parts of the square roots of the
    first eight primes. *)
Definition H0 : list Z :=
  Eval vm_compute in
    List.map (fun p => w64 (Z.sqrt (p * 2 ^ 128))) (firstn 8 primes80).

Fixpoint be_decode (acc : Z) (bs : list byte) : Z :=
  match bs with
  | [] => acc
  | b :: rest => be_decode (acc * 256 + byte_val b) rest
  end.

Fixpoint be_encode (width : nat) (z : Z) : list byte :=
  match width with
  | O => []
  | S w => byte_of_Z (Z.shiftr z (8 * Z.of_nat w)) :: be_encode w z
  end.

Definition pad (msg : list byte) : list byte :=
  let len := Z.of_nat (List.length msg) in
  msg ++ [byte_of_Z 128]
      ++ repeat x00 (Z.to_nat ((111 - len) mod 128))
      ++ be_encode 16 (8 * len).

Fixpoint words (n : nat) (bs : list byte) : list Z :=
  match n with
  | O => []
  | S n' => be_decode 0 (firstn 8 bs) :: words n' (skipn 8 bs)
  end.

(** The message schedule: [window] holds W[t-16 .. t-1]. *)
Fixpoint schedule (n : nat) (window : list Z) : list Z :=
  match n with
  | O => []
  | S n' =>
      let w := add (add (sigma1 (nth 14 window 0)) (nth 9 window 0))
                   (add (sigma0 (nth 1 window 0)) (nth 0 window 0)) in
      w :: schedule n' (tl window ++ [w])
  end.

Definition round (s : list Z) (kw : Z * Z) : list Z :=
  match s with
  | [a; b; c; d; e; f; g; h] =>
      let T1 := add (add (add h (Sigma1 e)) (add (Ch e f g) (fst kw))) (snd kw) in
      let T2 := add (Sigma0 a) (Maj a b c) in
      [add T1 T2; a; b; c; add d T1; e; f; g]
  | _ => s
  end.

Definition compress (H : list Z) (block : list byte) : list Z :=
  let M := words 16 block in
  let W := M ++ schedule 64 M in
  let s := fold_left round (combine K W) H in
  List.map (fun p => add (fst p) (snd p)) (combine H s).

Fixpoint blocks (n : nat) (H : list Z) (bs : list byte) : list Z :=
  match n with
  | O => H
  | S n' => blocks n' (compress H (firstn 128 bs)) (skipn 128 bs)
  end.

Definition digest (msg : list byte) : list byte :=
  let p := pad msg in
  flat_map (be_encode 8) (blocks (List.length p / 128) H0 p).

End SHA512.

(* ================================================================== *)
(** * updater.cpp: Updater *)

(** [QJsonDocument::fromJson(content, &jsonError)]: the parse error, if
    any, with its [errorString()], and [doc.object()] seen through
    [json[key].toString()]. *)
Record QJsonDocument := mkQJsonDocument {
  jsonError : option string;
  object : string -> string
}.

(** The libraries behind the controller: the JSON parser,
    [QString::toULong], [QString::number], and the [/usr/bin/gpg] process.
    [gpg arguments fs] is [None] when [waitForFinished()] fails and the exit
    code otherwise. *)
Record ControllerLibs := mkControllerLibs {
  fromJson : list byte -> QJsonDocument;
  toULong : string -> Z;
  number : Z -> string;
  gpg : list string -> FileSystem -> option Z
}.

Module Updater.

Inductive State :=
| StateUndefined
| StateDownloadJson
| StateDownloadSignature
| StateVerifySignature.

(** What the controller does to the outside: its signals, and the call of
    [machine->setAltBootConfig()]. *)
Inductive Effect :=
| checkFailed (reason : string)
| updateAvailable (version : string)
| alreadyUpToDate
| updateSucceeded
| updateFailed
| updateProgress (v : cfloat)
| setAltBootConfig.

Record t := mk {
  machine : Machine;
  state : State;
  availableUpdate : AvailableUpdate;
  pendingReply : option string      (* the URL of the request in flight *)
}.

(** [Updater::Updater]: the constructor leaves [availableUpdate] to its
    default construction (updater.h is not among the sources); the
    embedding starts it zeroed, which is "no update pending". *)
Definition new (machine : Machine) : t :=
  mk machine StateUndefined zeroed None.

Definition with_state (u : t) (s : State) : t :=
  mk (machine u) s (availableUpdate u) (pendingReply u).

Definition with_availableUpdate (u : t) (a : AvailableUpdate) : t :=
  mk (machine u) (state u) a (pendingReply u).

(** [QFile file(path); file.open(QFileDevice::WriteOnly); file.write(content);
    file.close()]: [None] when the file cannot be opened. *)
Definition write_file (fs : FileSystem) (path : string) (content : list byte)
  : option FileSystem :=
  let '(opened, fs1, file) := UpdateWriter.open fs UpdateWriter.new path in
  if negb opened then None
  else Some (fst (UpdateWriter.file_write fs1 file content)).

Section WithLibs.

Variable C : ControllerLibs.

(** [bool Updater::verifySignature(contentFile, signatureFile)]. *)
Definition verifySignature (fs : FileSystem)
    (contentFile signatureFile : string) : bool :=
  let arguments := ["--quiet"; "--verify"; signatureFile; contentFile]%string in
  match gpg C arguments fs with
  | None => false
  | Some exitCode => exitCode =? 0
  end.

(** [void Updater::downloadFinished()], on the [content] of the reply that
    finished. *)
Definition downloadFinished (u : t) (fs : FileSystem) (content : list byte)
  : t * FileSystem * list Effect :=
  match state u with
  | StateDownloadJson =>
      let doc := fromJson C content in
      match write_file fs "/tmp/update.json" content with
      | None => (u, fs, [])
      | Some fs1 =>
          match jsonError doc with
          | Some errorString =>
              (u, fs1,
               [checkFailed
                  ("Unable to parse Json content from update server:"
                     ++ errorString)%string])
          | None =>
              let version := number C (getOsVersion (machine u)) in
              let json := object doc in
              let a :=
                (mkAvailableUpdate
                   (toULong C (json "build_id"))
                   (json "rootfs")
                   (json "rootfs_sha512")
                   (json "bootimg")
                   (json "bootimg_sha512")
                   (json "rootfs_deltas" ++ version ++ ".vcdiff")
                   (json "bootimg_deltas" ++ version ++ ".vcdiff"))%string in
              (mk (machine u) StateDownloadSignature a
                  (Some (json "signature"%string)),
               fs1, [])
          end
      end
  | StateDownloadSignature =>
      match write_file fs "/tmp/update.json.sig" content with
      | None => (u, fs, [])
      | Some fs1 =>
          let u := with_state u StateVerifySignature in
          if negb (verifySignature fs1 "/tmp/update.json"
                     "/tmp/update.json.sig")
          then (with_availableUpdate u zeroed, fs1, [])
          else if version (availableUpdate u) >? getOsVersion (machine u)
          then (u, fs1,
                [updateAvailable (number C (version (availableUpdate u)))])
          else (u, fs1, [alreadyUpToDate])
      end
  | _ => (u, fs, [])
  end.

(** [void Updater::check(const QString &updateChannel)], as far as the
    controller's own state goes: the request headers are left out. *)
Definition check (u : t) (updateChannel : string) : t :=
  let model :=
    match getModel (machine u) with
    | DT410C_EVALBOARD | NEPOS1 => "nepos1"
    | OTHER_MODEL => "unknown"
    end%string in
  let url := ("https://os.nepos.io/updates/" ++ model ++ "/"
                ++ updateChannel ++ ".json")%string in
  mk (machine u) StateDownloadJson (availableUpdate u) (Some url).

(** One whole check: [check()], then [downloadFinished()] when the manifest
    reply finishes, then, if that started the signature download,
    [downloadFinished()] again when the signature reply finishes. *)
Definition run_check (u : t) (fs : FileSystem) (updateChannel : string)
    (manifest_reply signature_reply : list byte)
  : t * FileSystem * list Effect :=
  let u := check u updateChannel in
  let '(u, fs, out1) := downloadFinished u fs manifest_reply in
  match state u with
  | StateDownloadSignature =>
      let '(u, fs, out2) := downloadFinished u fs signature_reply in
      (u, fs, out1 ++ out2)
  | _ => (u, fs, out1)
  end.

End WithLibs.

(** The three lambdas [install()] connects to the thread's signals. *)
Definition connected (e : UpdateThread.Emitted) : list Effect :=
  match e with
  | UpdateThread.succeeded => [setAltBootConfig; updateSucceeded]
  | UpdateThread.failed => [updateFailed]
  | UpdateThread.progress v => [updateProgress v]
  end.

(** [void Updater::install()], the thread it starts run to its end. *)
Definition install (L : EngineLibs) (u : t) (w : World)
  : World * list Effect :=
  if version (availableUpdate u) =? 0 then (w, [updateFailed])
  else
    let '(w', out) := UpdateThread.run L (machine u) (availableUpdate u) w in
    (w', flat_map connected out).

End Updater.

(* ================================================================== *)
(** * The specification's arithmetic *)

(** "Rounded up to the next multiple of [p]": the least multiple of [p]
    that is not below [x] ([roundup_least] below). *)
Definition roundup (x p : Z) : Z := ((x + p - 1) / p) * p.

(* ================================================================== *)
(** * Notions the statements use *)

(** The progress [verifyImage] emits for an image of [image_size] bytes. *)
Definition verify_progress (state : UpdateThread.State) (image_size : Z)
  : list UpdateThread.Emitted :=
  snd (UpdateThread.hash_loop (UpdateThread.hash_loop_bound image_size)
         state image_size 0 [] []).

(** The size of the header [open()] reads for each image type. *)
Definition sizeof_header (ty : ImageReader.ImageType) : nat :=
  match ty with
  | ImageReader.SquashFsType => ImageReader.sizeof_squashfsHeader
  | ImageReader.AndroidBootType => ImageReader.sizeof_androidBootHeader
  | ImageReader.UnsupportedType => 0
  end.

(** Two nodes that [fstat], [open] and [ioctl] treat alike. *)
Definition same_attributes (a b : Inode) : Prop :=
  i_mode a = i_mode b /\ i_readable a = i_readable b
  /\ i_fstat_fails a = i_fstat_fails b
  /\ i_blkgetsize_fails a = i_blkgetsize_fails b.

(** The characters [QByteArray::toHex] produces. *)
Definition is_lower_hex (c : ascii) : bool :=
  let n := Z.of_N (N_of_ascii c) in
  ((48 <=? n) && (n <=? 57)) || ((97 <=? n) && (n <=? 102)).

Fixpoint lower_hex (s : string) : bool :=
  match s with
  | EmptyString => true
  | String c rest => is_lower_hex c && lower_hex rest
  end.

(** The same hexadecimal string in upper case. *)
Definition upper_char (c : ascii) : ascii :=
  let n := Z.of_N (N_of_ascii c) in
  if (97 <=? n) && (n <=? 122) then ascii_of_N (Z.to_N (n - 32)) else c.

Fixpoint to_upper (s : string) : string :=
  match s with
  | EmptyString => EmptyString
  | String c rest => String (upper_char c) (to_upper rest)
  end.

Definition lower_char (c : ascii) : ascii :=
  let n := Z.of_N (N_of_ascii c) in
  if (65 <=? n) && (n <=? 90) then ascii_of_N (Z.to_N (n + 32)) else c.

Fixpoint to_lower (s : string) : string :=
  match s with
  | EmptyString => EmptyString
  | String c rest => String (lower_char c) (to_lower rest)
  end.

(** The [progress] values among the signals of the thread, in order. *)
Definition values (out : list UpdateThread.Emitted) : list cfloat :=
  flat_map (fun e => match e with
                     | UpdateThread.progress v => [v]
                     | _ => []
                     end) out.

Definition is_progress (e : UpdateThread.Emitted) : Prop :=
  match e with
  | UpdateThread.progress _ => True
  | _ => False
  end.

(** The two calls of [downloadAndVerify] in [run()], as [run()] makes
    them: the boot image first, the rootfs from the world the first call
    leaves. *)
Definition boot_phase (L : EngineLibs) (machine : Machine)
    (update : AvailableUpdate) (w : World)
  : bool * World * list UpdateThread.Emitted :=
  UpdateThread.downloadAndVerify L UpdateThread.DownloadBootimgState w
    ImageReader.AndroidBootType
    (getUpdateSeed machine BootImageType)
    (getUpdateTarget machine BootImageType)
    (bootimgUrl update) (bootimgDeltaUrl update) (bootimgSha512 update).

Definition rootfs_phase (L : EngineLibs) (machine : Machine)
    (update : AvailableUpdate) (w : World)
  : bool * World * list UpdateThread.Emitted :=
  UpdateThread.downloadAndVerify L UpdateThread.DownloadRootfsState
    (snd (fst (boot_phase L machine update w)))
    ImageReader.SquashFsType
    (getUpdateSeed machine RootfsImageType)
    (getUpdateTarget machine RootfsImageType)
    (rootfsUrl update) (rootfsDeltaUrl update) (rootfsSha512 update).

(** The overall value [emitProgress] computes from a sub-phase value. *)
Definition scale (state : UpdateThread.State) (isDownload : bool)
    (v : cfloat) : cfloat :=
  let p := FNum 0 in
  let p := match state with
           | UpdateThread.DownloadBootimgState => p
           | UpdateThread.DownloadRootfsState => fadd_double p (1 # 2)
           end in
  let p := if negb isDownload then fadd_double p (1 # 4) else p in
  fadd p (fdiv4 v).

(** Where the quarter of a sub-phase starts. *)
Definition quarter (state : UpdateThread.State) (isDownload : bool) : Q :=
  (match state with
   | UpdateThread.DownloadBootimgState => 0
   | UpdateThread.DownloadRootfsState => 1 # 2
   end) + (if isDownload then 0 else 1 # 4).

(** The fractions a reply reports through [downloadProgress] that pass the
    test of [emitProgress]. *)
Definition reported (reply : list Signal) : list cfloat :=
  flat_map (fun sig =>
              match sig with
              | QNetworkReply.downloadProgress bytesReceived bytesTotal =>
                  let v := float_div bytesReceived bytesTotal in
                  if flt0 v || fgt1 v then [] else [v]
              | _ => []
              end) reply.

(** What a slot of either download loop emits on a signal. *)
Definition download_signal (state : UpdateThread.State) (sig : Signal)
  : list UpdateThread.Emitted :=
  match sig with
  | QNetworkReply.downloadProgress bytesReceived bytesTotal =>
      UpdateThread.emitProgress state true (float_div bytesReceived bytesTotal)
  | _ => []
  end.

(** The values [pos] takes at the end of each iteration of the loop of
    [verifyImage]. *)
Fixpoint chunk_ends (n : nat) (image_size pos : Z) : list Z :=
  match n with
  | O => []
  | S n' =>
      if pos <? image_size then
        let pos' := pos + Z.min (1024 * 1024) (image_size - pos) in
        pos' :: chunk_ends n' image_size pos'
      else []
  end.

(** The [updateProgress] values of a run, in order. *)
Definition progress_values (out : list Updater.Effect) : list cfloat :=
  flat_map (fun e => match e with
                     | Updater.updateProgress v => [v]
                     | _ => []
                     end) out.

(** The full-image downloads among the requests. *)
Definition full_requests (reqs : list (RequestKind * string))
  : list (RequestKind * string) :=
  filter (fun r => match fst r with FullRequest => true | _ => false end) reqs.

(** The magic test [open()] applies to the header of each image type. *)
Definition magic_ok (ty : ImageReader.ImageType) (data : list byte) : Prop :=
  match ty with
  | ImageReader.SquashFsType =>
      ImageReader.s_magic (firstn ImageReader.sizeof_squashfsHeader data)
      = ImageReader.SQUASHFS_MAGIC
  | ImageReader.AndroidBootType =>
      ImageReader.magic (firstn ImageReader.sizeof_androidBootHeader data)
      = ImageReader._ANDROID_BOOTIMG_MAGIC_1
      /\ ImageReader.magic2 (firstn ImageReader.sizeof_androidBootHeader data)
         = ImageReader._ANDROID_BOOTIMG_MAGIC_2
  | ImageReader.UnsupportedType => False
  end.

(** The [fileSize] that [open()] compares [imageSize] with; [None] for a
    node that is neither a regular file nor a block device. *)
Definition fileSize (ino : Inode) : option Z :=
  match i_mode ino with
  | S_IFREG => Some (Z.of_nat (List.length (i_data ino)))
  | S_IFBLK => Some (if i_blkgetsize_fails ino then 0
                     else Z.of_nat (List.length (i_data ino)))
  | S_IFOTHER => None
  end.

(** The writer is attached to an existing node and its position lies
    within it. *)
Definition within_file (fw : FileSystem * UpdateWriter.t) : Prop :=
  exists ino,
    fst fw (UpdateWriter.fileName (snd fw)) = Some ino
    /\ 0 <= UpdateWriter.pos (snd fw) <= Z.of_nat (List.length (i_data ino)).

(** The contents of the node at [path]; empty when there is none. *)
Definition contents (fs : FileSystem) (path : string) : list byte :=
  match fs path with
  | Some ino => i_data ino
  | None => []
  end.

(** The order of [float] values with the infinities at its two ends; NaN
    compares with nothing. *)
Definition fle_ext (a b : cfloat) : Prop :=
  match a, b with
  | FNaN, _ | _, FNaN => False
  | FInf true, _ => True
  | _, FInf false => True
  | FNum x, FNum y => (x <= y)%Q
  | _, _ => False
  end.

(** The exponent of the unit in the last place at the magnitude of [q],
    and the multiple of that unit that [round_pos] picks. *)
Definition grid (prec emin : Z) (q : Q) : Z :=
  Z.max (ilog2 q + 1 - prec) emin.

Definition grid_value (prec emin : Z) (q : Q) : Q :=
  (inject_Z (rne (q * pow2 (- grid prec emin q))) * pow2 (grid prec emin q))%Q.

(** The Standard Library's specification of IEEE 754 ([SpecFloat]) at
    binary32, 24 bits of precision and [emax] 128, to compare [round32]
    with: the value of one of its floats, [(float) a], and the quotient
    and the sum of two floats. *)
Definition of_spec_float (f : SpecFloat.spec_float) : cfloat :=
  match f with
  | SpecFloat.S754_zero _ => FNum 0
  | SpecFloat.S754_infinity s => FInf s
  | SpecFloat.S754_nan => FNaN
  | SpecFloat.S754_finite s m e =>
      FNum (Qred ((if s then -1 else 1) * inject_Z (Zpos m) * pow2 e))
  end.

Definition spec_float_of_int (a : Z) : SpecFloat.spec_float :=
  SpecFloat.binary_normalize 24 128 a 0 false.

Definition spec_float_div (a b : Z) : cfloat :=
  of_spec_float
    (SpecFloat.SFdiv 24 128 (spec_float_of_int a) (spec_float_of_int b)).

(** [base + ((float) a / (float) b) / 4], with [base] a number of
    quarters. *)
Definition spec_float_scale (quarters a b : Z) : cfloat :=
  of_spec_float
    (SpecFloat.SFadd 24 128
       (SpecFloat.binary_normalize 24 128 quarters (-2) false)
       (SpecFloat.SFdiv 24 128
          (SpecFloat.SFdiv 24 128 (spec_float_of_int a) (spec_float_of_int b))
          (spec_float_of_int 4))).

Definition cfloat_eqb (a b : cfloat) : bool :=
  match a, b with
  | FNum x, FNum y => Qeq_bool x y
  | FInf s, FInf s' => Bool.eqb s s'
  | FNaN, FNaN => true
  | _, _ => false
  end.

(** The byte counts the [downloadProgress] signals of a reply carry are
    [qint64] values. *)
Definition qint64_counts (reply : list Signal) : Prop :=
  forall bytesReceived bytesTotal,
    In (QNetworkReply.downloadProgress bytesReceived bytesTotal) reply ->
    - 2 ^ 63 <= bytesReceived < 2 ^ 63 /\ - 2 ^ 63 <= bytesTotal < 2 ^ 63.

(** What one [downloadAndVerify] emits before it turns to the full image:
    the progress of the delta attempt and of the first verification. *)
Definition before_fallback (L : EngineLibs) (state : UpdateThread.State)
    (w : World) (ty : ImageReader.ImageType)
    (dictionaryPath outputPath deltaImageUrl sha : string)
  : list UpdateThread.Emitted :=
  let dict := ImageReader.open (fs w) (ImageReader.new ty dictionaryPath) in
  let delta :=
    UpdateThread.downloadDeltaImage L state w deltaImageUrl (snd dict)
      outputPath in
  let w1 := if fst dict then snd (fst (fst delta)) else w in
  ((if fst dict then snd delta else [])
     ++ snd (UpdateThread.verifyImage L state (fs w1) ty outputPath sha))%list.

Definition boot_before_fallback (L : EngineLibs) (machine : Machine)
    (update : AvailableUpdate) (w : World) : list UpdateThread.Emitted :=
  before_fallback L UpdateThread.DownloadBootimgState w
    ImageReader.AndroidBootType
    (getUpdateSeed machine BootImageType)
    (getUpdateTarget machine BootImageType)
    (bootimgDeltaUrl update) (bootimgSha512 update).

Definition rootfs_before_fallback (L : EngineLibs) (machine : Machine)
    (update : AvailableUpdate) (w : World) : list UpdateThread.Emitted :=
  before_fallback L UpdateThread.DownloadRootfsState
    (snd (fst (boot_phase L machine update w)))
    ImageReader.SquashFsType
    (getUpdateSeed machine RootfsImageType)
    (getUpdateTarget machine RootfsImageType)
    (rootfsDeltaUrl update) (rootfsSha512 update).

(** Between the worlds [before] and [after] a full-image request was
    issued. *)
Definition fell_back (before after : World) : Prop :=
  full_requests (requests after) <> full_requests (requests before).

(** How a [downloadAndVerify] that returns true came to its target: it
    took it as it found it, issuing no request and writing nothing; or the
    delta transfer ended well; or the full-image download did. *)
Definition acceptance (L : EngineLibs) (state : UpdateThread.State)
    (w : World) (ty : ImageReader.ImageType)
    (dictionaryPath outputPath fullImageUrl deltaImageUrl sha : string)
  : Prop :=
  let dict := ImageReader.open (fs w) (ImageReader.new ty dictionaryPath) in
  let delta :=
    UpdateThread.downloadDeltaImage L state w deltaImageUrl (snd dict)
      outputPath in
  let w1 := if fst dict then snd (fst (fst delta)) else w in
  (fst dict = false
   /\ snd (fst (UpdateThread.downloadAndVerify L state w ty dictionaryPath
                  outputPath fullImageUrl deltaImageUrl sha)) = w)
  \/ (fst dict = true /\ fst (fst (fst delta)) = true)
  \/ fst (fst (UpdateThread.downloadFullImage state w1 fullImageUrl
                 outputPath)) = true.

Definition boot_acceptance (L : EngineLibs) (machine : Machine)
    (update : AvailableUpdate) (w : World) : Prop :=
  acceptance L UpdateThread.DownloadBootimgState w
    ImageReader.AndroidBootType
    (getUpdateSeed machine BootImageType)
    (getUpdateTarget machine BootImageType)
    (bootimgUrl update) (bootimgDeltaUrl update) (bootimgSha512 update).

Definition rootfs_acceptance (L : EngineLibs) (machine : Machine)
    (update : AvailableUpdate) (w : World) : Prop :=
  acceptance L UpdateThread.DownloadRootfsState
    (snd (fst (boot_phase L machine update w)))
    ImageReader.SquashFsType
    (getUpdateSeed machine RootfsImageType)
    (getUpdateTarget machine RootfsImageType)
    (rootfsUrl update) (rootfsDeltaUrl update) (rootfsSha512 update).

(** The signals a download loop gets to handle: those up to and including
    the first [error] or [finished], on which its slot calls
    [loop.quit()]; all of them when neither comes before the timer. *)
Fixpoint until_quit (reply : list Signal) : list Signal :=
  match reply with
  | [] => []
  | QNetworkReply.error :: _ => [QNetworkReply.error]
  | QNetworkReply.finished :: _ => [QNetworkReply.finished]
  | sig :: rest => sig :: until_quit rest
  end.

(** The data of the [readyRead] signals that come with no reply error. *)
Definition payload (signals : list Signal) : list (list byte) :=
  flat_map (fun sig => match sig with
                       | QNetworkReply.readyRead false data => [data]
                       | _ => []
                       end) signals.

Definition is_finished (sig : Signal) : bool :=
  match sig with
  | QNetworkReply.finished => true
  | _ => false
  end.

(** [finished] is delivered before any [error] and before the timer. *)
Definition finishes_cleanly (reply : list Signal) : Prop :=
  exists before after,
    reply = (before ++ QNetworkReply.finished :: after)%list
    /\ ~ In QNetworkReply.error before.

(** The libraries with another [FinishDecoding]. *)
Definition with_FinishDecoding (L : EngineLibs)
    (finish : Decoder L -> bool * Decoder L) : EngineLibs :=
  mkEngineLibs (sha512 L) (Decoder L) (StartDecoding L)
    (DecodeChunkToInterface L) finish.

(* ================================================================== *)
(** * Concrete images, devices and libraries *)

Module Fixtures.

Import ImageReader.

(** A SquashFS superblock with the given [s_magic] and [bytes_used]. *)
Definition squashfs_header (s_magic bytes_used : Z) : list byte :=
  le_encode 4 s_magic ++ repeat x00 36 ++ le_encode 8 bytes_used.

(** An Android boot image header. *)
Definition android_header (kernel_size initrd_size second_size
                           page_size dtb_size : Z) : list byte :=
  le_encode 4 _ANDROID_BOOTIMG_MAGIC_1 ++ le_encode 4 _ANDROID_BOOTIMG_MAGIC_2
    ++ le_encode 4 kernel_size ++ le_encode 4 0
    ++ le_encode 4 initrd_size ++ le_encode 4 0
    ++ le_encode 4 second_size ++ le_encode 4 0
    ++ le_encode 4 0 ++ le_encode 4 page_size
    ++ le_encode 4 dtb_size.

(** A file system holding one node. *)
Definition single (path : string) (ino : Inode) : FileSystem :=
  fs_put (fun _ => None) path ino.

(** A rootfs partition: a block device of 8192 bytes that starts with a
    superblock announcing [bytes_used]. *)
Definition rootfs_device (s_magic bytes_used : Z) : Inode :=
  blockdev (squashfs_header s_magic bytes_used ++ repeat x00 (2 * 4096 - 48)).

(** A boot partition: a block device of 8192 bytes that starts with an
    Android boot image header. *)
Definition boot_device (kernel_size initrd_size second_size
                        page_size dtb_size : Z) : Inode :=
  blockdev (android_header kernel_size initrd_size second_size
              page_size dtb_size ++ repeat x00 (2 * 4096 - 44)).

(** An [UpdateWriter] just opened on [path]. *)
Definition opened_writer (fs : FileSystem) (path : string)
  : FileSystem * UpdateWriter.t :=
  let '(_, fs1, w) := UpdateWriter.open fs UpdateWriter.new path in (fs1, w).

(** A stand-in for the VCDIFF decoder, which is not part of the
    repository: a chunk that starts with 0xff is a format error, any other
    chunk is target data. *)
Definition stand_in_decode (W : Type) (I : OutputStringInterface W)
    (d : unit) (chunk : list byte) (w : W) : bool * unit * W :=
  match chunk with
  | "255"%byte :: _ => (false, d, w)
  | _ => (true, d, append w chunk)
  end.

(** The thread's libraries: SHA-512 itself and the stand-in decoder. *)
Definition libs : EngineLibs :=
  mkEngineLibs SHA512.digest unit (fun _ _ => tt) stand_in_decode
    (fun d => (true, d)).

(** A 2048-byte boot image (page size 2048, no payload) and a 4096-byte
    rootfs image ([bytes_used] 100), filled with [tag]. *)
Definition boot_image (tag : byte) : list byte :=
  android_header 0 0 0 2048 0 ++ repeat tag (2048 - 44).

Definition rootfs_image (tag : byte) : list byte :=
  squashfs_header SQUASHFS_MAGIC 100 ++ repeat tag (4096 - 48).

(** SHA-512 of [boot_image "B"] and of [rootfs_image "B"]
    ([fixture_digests] below). *)
Definition boot_B_sha512 : string :=
  "d15d556aaef4f14d5c5238483b7e32e27a7e19f8fb290cdb0b1f3cdb523d5c752ba4f583f0c8d7103f734cd8a597caf9f1cd6413f91e45902bbd9390b3bb54ea".

Definition rootfs_B_sha512 : string :=
  "999f2ae61b2c544264be428c517c7c828355299528b787c1c6139dc06ae2013e946fc3a64e297948b4ec2f1dc59e7a7fe14bbd31b7daf2c461dd3fa9a211107f".

(** The device: slot A (partitions 4 and 6) is active and runs version 41,
    slot B (partitions 5 and 7) is the target. *)
Definition machine : Machine :=
  mkMachine 41 NEPOS1 "/dev/mmcblk0p4" "/dev/mmcblk0p6"
            "/dev/mmcblk0p5" "/dev/mmcblk0p7".

(** Version 42, whose images are the ["B"] images. *)
Definition update42 : AvailableUpdate :=
  mkAvailableUpdate 42
    "https://os.nepos.io/images/rootfs-42.img" rootfs_B_sha512
    "https://os.nepos.io/images/boot-42.img" boot_B_sha512
    "https://os.nepos.io/deltas/rootfs/41.vcdiff"
    "https://os.nepos.io/deltas/boot/41.vcdiff".

(** Both slots hold the ["A"] images of version 41. *)
Definition disk : FileSystem :=
  fs_put (fs_put (fs_put (fs_put (fun _ => None)
    "/dev/mmcblk0p4" (blockdev (boot_image "A")))
    "/dev/mmcblk0p5" (blockdev (boot_image "A")))
    "/dev/mmcblk0p6" (blockdev (rootfs_image "A")))
    "/dev/mmcblk0p7" (blockdev (rootfs_image "A")).

(** The controller after a check that found version 42. *)
Definition pending42 : Updater.t :=
  Updater.mk machine Updater.StateVerifySignature update42 None.

(** A reply that delivers [payload] in one chunk, with progress before
    and after. *)
Definition delivers (payload : list byte) : list Signal :=
  let total := Z.of_nat (List.length payload) in
  [QNetworkReply.downloadProgress (total / 2) total;
   QNetworkReply.readyRead false payload;
   QNetworkReply.downloadProgress total total;
   QNetworkReply.finished].

(** The server answers both delta requests with the images of version
    42 (which the stand-in decoder writes out as they come). *)
Definition deltas_served : World :=
  mkWorld disk [delivers (boot_image "B"); delivers (rootfs_image "B")] [].

(** The boot delta transfer ends without data and without error, so the
    target still holds version 41; the full boot image is then served; the
    rootfs delta request meets a transport error. *)
Definition empty_delta_then_full : World :=
  mkWorld disk
    [[QNetworkReply.downloadProgress 1 1; QNetworkReply.finished];
     delivers (boot_image "B");
     [QNetworkReply.error]] [].

(** The slot in use cannot be read (its devices are missing) and the other
    slot already holds the images of version 42. *)
Definition slot_B_holds_42 : FileSystem :=
  fs_put (fs_put (fun _ => None)
    "/dev/mmcblk0p5" (blockdev (boot_image "B")))
    "/dev/mmcblk0p7" (blockdev (rootfs_image "B")).

(** The slot in use cannot be read and the partitions of the other slot
    are blank; the server delivers both full images. *)
Definition full_images_served : World :=
  mkWorld
    (fs_put (fs_put (fun _ => None)
       "/dev/mmcblk0p5" (blockdev (repeat x00 (2 * 4096))))
       "/dev/mmcblk0p7" (blockdev (repeat x00 (2 * 4096))))
    [delivers (boot_image "B"); delivers (rootfs_image "B")] [].

(** Pairs of byte counts to try the arithmetic on: counts past 2^24, which
    are rounded on conversion, quotients that are not dyadic, signs,
    zeros, and the ends of the [qint64] range. *)
Definition count_samples : list (Z * Z) :=
  [(16777217, 16777216); (16777219, 16777216); (1, 3); (2, 3); (-7, 3);
   (7, -3); (0, 5); (5, 0); (-5, 0); (0, 0); (1, 2 ^ 63 - 1);
   (2 ^ 63 - 1, 1); (- 2 ^ 63, 3); (123456789, 987654321);
   (987654321, 123456789); (33554431, 33554432); (33554433, 33554432);
   (1, 10); (1048576, 3145728); (1000001, 3000017); (2999999, 3000017);
   (9007199254740993, 9007199254740992);
   (4611686018427387905, 9223372036854775807)].

(** ** The controller's side *)

Definition bytes_of_string (s : string) : list byte :=
  List.map byte_of_ascii (list_ascii_of_string s).

Fixpoint bytes_eqb (a b : list byte) : bool :=
  match a, b with
  | [], [] => true
  | x :: a', y :: b' => Byte.eqb x y && bytes_eqb a' b'
  | _, _ => false
  end.

Definition quote : string := String (ascii_of_nat 34) EmptyString.

(** The text of a JSON object with string members. *)
Fixpoint render_members (members : list (string * string)) : string :=
  match members with
  | [] => EmptyString
  | [(k, v)] => quote ++ k ++ quote ++ ": " ++ quote ++ v ++ quote
  | (k, v) :: rest =>
      quote ++ k ++ quote ++ ": " ++ quote ++ v ++ quote ++ ", "
        ++ render_members rest
  end%string.

Definition render_json (members : list (string * string)) : list byte :=
  bytes_of_string ("{" ++ render_members members ++ "}")%string.

Fixpoint member (members : list (string * string)) (key : string) : string :=
  match members with
  | [] => EmptyString
  | (k, v) :: rest => if String.eqb k key then v else member rest key
  end.

(** The manifest of version 42. *)
Definition manifest42_members : list (string * string) :=
  [("build_id", "42");
   ("rootfs", "https://os.nepos.io/images/rootfs-42.img");
   ("rootfs_sha512", rootfs_B_sha512);
   ("bootimg", "https://os.nepos.io/images/boot-42.img");
   ("bootimg_sha512", boot_B_sha512);
   ("rootfs_deltas", "https://os.nepos.io/deltas/rootfs/");
   ("bootimg_deltas", "https://os.nepos.io/deltas/boot/");
   ("signature", "https://os.nepos.io/updates/nepos1/stable.json.sig")]%string.

Definition manifest42 : list byte := render_json manifest42_members.

(** A stand-in for [QJsonDocument::fromJson] that knows one document: it
    parses the manifest of version 42 and reports an error on anything
    else. *)
Definition stand_in_fromJson (content : list byte) : QJsonDocument :=
  if bytes_eqb content manifest42
  then mkQJsonDocument None (member manifest42_members)
  else mkQJsonDocument (Some "illegal value"%string) (fun _ => EmptyString).

(** [QString::toULong] on decimal digits; 0 on anything else. *)
Fixpoint digits (s : string) (acc : Z) : option Z :=
  match s with
  | EmptyString => Some acc
  | String c rest =>
      let n := Z.of_N (N_of_ascii c) in
      if (48 <=? n) && (n <=? 57) then digits rest (10 * acc + (n - 48))
      else None
  end.

Definition stand_in_toULong (s : string) : Z :=
  match s with
  | EmptyString => 0
  | _ => match digits s 0 with
         | Some z => if z <? 2 ^ 64 then z else 0
         | None => 0
         end
  end.

Definition stand_in_number (z : Z) : string :=
  NilZero.string_of_uint (N.to_uint (Z.to_N z)).

(** A stand-in for [/usr/bin/gpg --quiet --verify sig content]: the
    signature it accepts for a content is the SHA-512 of the content; exit
    code 1 is a bad signature, 2 a missing file. *)
Definition stand_in_gpg (arguments : list string) (fs : FileSystem)
  : option Z :=
  match arguments with
  | [_; _; signatureFile; contentFile] =>
      match fs signatureFile, fs contentFile with
      | Some sig, Some content =>
          if bytes_eqb (i_data sig) (SHA512.digest (i_data content))
          then Some 0 else Some 1
      | _, _ => Some 2
      end
  | _ => Some 2
  end.

Definition controller_libs : ControllerLibs :=
  mkControllerLibs stand_in_fromJson stand_in_toULong stand_in_number
    stand_in_gpg.

Definition good_signature : list byte := SHA512.digest manifest42.
Definition bad_signature : list byte := bytes_of_string "not a signature".

(** An empty [/tmp]. *)
Definition tmpfs : FileSystem := fun _ => None.

(** A [/tmp] in which [path] exists and cannot be opened for writing. *)
Definition tmpfs_locked (path : string) : FileSystem :=
  fs_put tmpfs path (mkInode S_IFREG [] true false false false).

End Fixtures.

(* ================================================================== *)
(** * Properties *)

(** ** Little-endian fields are in range *)

Lemma byte_val_range (b : byte) : 0 <= byte_val b < 256.
Proof.
  unfold byte_val. pose proof (Byte.to_N_bounded b). lia.
Qed.

Lemma le_decode_range (bs : list byte) :
  0 <= le_decode bs < 256 ^ Z.of_nat (List.length bs).
Proof.
  induction bs as [|b rest IH]; cbn [le_decode List.length].
  - simpl. lia.
  - rewrite Nat2Z.inj_succ, Z.pow_succ_r by lia.
    pose proof (byte_val_range b). nia.
Qed.

Lemma field_range (off width : nat) (raw : list byte) :
  0 <= field off width raw < 256 ^ Z.of_nat width.
Proof.
  unfold field.
  pose proof (le_decode_range (firstn width (skipn off raw))) as H.
  pose proof (firstn_le_length width (skipn off raw)) as Hl.
  assert (256 ^ Z.of_nat (List.length (firstn width (skipn off raw)))
          <= 256 ^ Z.of_nat width)
    by (apply Z.pow_le_mono_r; lia).
  lia.
Qed.

(** ** [roundup] is the next multiple *)

Lemma roundup_least (x p : Z) :
  0 < p ->
  (p | roundup x p) /\ x <= roundup x p < x + p /\
  (forall m, (p | m) -> x <= m -> roundup x p <= m).
Proof.
  intros Hp. unfold roundup.
  pose proof (Z.div_mod (x + p - 1) p ltac:(lia)) as Hdm.
  pose proof (Z.mod_pos_bound (x + p - 1) p Hp) as Hb.
  split; [exists ((x + p - 1) / p); lia|].
  split; [nia|].
  intros m [k ->] Hx.
  assert ((x + p - 1) / p < k + 1); [|nia].
  apply Z.div_lt_upper_bound; nia.
Qed.

Lemma roundup_multiple (x p : Z) :
  0 < p -> x mod p = 0 -> roundup x p = x.
Proof.
  intros Hp Hm. unfold roundup.
  apply Z.mod_divide in Hm; [|lia]. destruct Hm as [k ->].
  replace (k * p + p - 1) with ((p - 1) + k * p) by lia.
  rewrite Z.div_add by lia. rewrite Z.div_small by lia. lia.
Qed.

(** ** [ALIGN_TO] on a power of two *)

Lemma wrap64_small (z : Z) : 0 <= z < 2 ^ 64 -> wrap64 z = z.
Proof. intros; unfold wrap64; apply Z.mod_small; assumption. Qed.

Lemma ALIGN_TO_pow2 (l k : Z) :
  0 <= k < 64 -> 0 <= l -> l + 2 ^ k - 1 < 2 ^ 64 ->
  ImageReader.ALIGN_TO l (2 ^ k) = roundup l (2 ^ k).
Proof.
  intros Hk Hl Hfit. unfold ImageReader.ALIGN_TO, roundup.
  assert (Hpk : 0 < 2 ^ k) by (apply Z.pow_pos_nonneg; lia).
  assert (Hlt : 2 ^ k < 2 ^ 64) by (apply Z.pow_lt_mono_r; lia).
  rewrite (wrap64_small (l + 2 ^ k - 1)) by lia.
  rewrite (wrap64_small (2 ^ k - 1)) by lia.
  replace (2 ^ k - 1) with (Z.ones k)
    by (rewrite Z.ones_equiv; lia).
  unfold wrap64 at 1. rewrite <- Z.land_ones by lia.
  rewrite (Z.land_comm (Z.lnot _)), Z.land_assoc.
  rewrite (Z.land_ones (l + 2 ^ k - 1) 64) by lia.
  rewrite Z.mod_small by lia.
  rewrite <- Z.ldiff_land, Z.ldiff_ones_r by lia.
  rewrite Z.shiftr_div_pow2, Z.shiftl_mul_pow2 by lia.
  reflexivity.
Qed.

Lemma ALIGN_TO_zero (ali : Z) : ImageReader.ALIGN_TO 0 ali = 0.
Proof.
  unfold ImageReader.ALIGN_TO. replace (0 + ali - 1) with (ali - 1) by lia.
  unfold wrap64 at 2. rewrite <- Z.land_ones by lia.
  rewrite Z.land_assoc.
  rewrite Z.land_lnot_diag. apply Z.land_0_l.
Qed.

(** ** ImageReader::open *)

Lemma check_fileSize_snd (ino : Inode) (r : ImageReader.t) :
  snd (ImageReader.check_fileSize ino r) = r.
Proof.
  unfold ImageReader.check_fileSize.
  destruct (i_mode ino); cbn; repeat destruct (_ <? _); reflexivity.
Qed.

Lemma read_header_length (n : nat) (ino : Inode) :
  (n <= List.length (i_data ino))%nat ->
  List.length (ImageReader.read_header n ino) = n.
Proof.
  intros H. unfold ImageReader.read_header. rewrite length_firstn. lia.
Qed.

(** What [open()] leaves in [imageSize] for a SquashFS node whose header
    can be read and carries the magic. *)
Lemma open_squashfs_imageSize (fs : FileSystem) (path : string) (ino : Inode) :
  fs path = Some ino -> i_readable ino = true -> i_fstat_fails ino = false ->
  (ImageReader.sizeof_squashfsHeader <= List.length (i_data ino))%nat ->
  let hdr := ImageReader.read_header ImageReader.sizeof_squashfsHeader ino in
  ImageReader.s_magic hdr = ImageReader.SQUASHFS_MAGIC ->
  ImageReader.imageSize
    (snd (ImageReader.open fs (ImageReader.new ImageReader.SquashFsType path)))
  = ImageReader.ALIGN_TO (ImageReader.bytes_used hdr) 4096.
Proof.
  intros Hfs Hr Hst Hlen hdr Hmagic.
  unfold ImageReader.open. cbn [ImageReader.new ImageReader.isOpen ImageReader.fileName].
  rewrite Hfs, Hr. cbn [negb]. rewrite Hst.
  cbn [ImageReader.with_open ImageReader.type].
  rewrite read_header_length by assumption.
  rewrite Nat.eqb_refl. cbn [negb].
  fold hdr. rewrite Hmagic, Z.eqb_refl. cbn [negb].
  change (ImageReader.type (ImageReader.new ImageReader.SquashFsType path))
    with ImageReader.SquashFsType. cbv iota.
  rewrite check_fileSize_snd. reflexivity.
Qed.

Lemma open_squashfs_wrong_magic (fs : FileSystem) (path : string) (ino : Inode) :
  fs path = Some ino ->
  ImageReader.s_magic (ImageReader.read_header ImageReader.sizeof_squashfsHeader ino)
    <> ImageReader.SQUASHFS_MAGIC ->
  fst (ImageReader.open fs (ImageReader.new ImageReader.SquashFsType path)) = false.
Proof.
  intros Hfs Hmagic.
  unfold ImageReader.open. cbn [ImageReader.new ImageReader.isOpen ImageReader.fileName].
  rewrite Hfs.
  destruct (i_readable ino); [|reflexivity]. cbn [negb].
  destruct (i_fstat_fails ino); [reflexivity|].
  change (ImageReader.type
            (ImageReader.with_open
               (ImageReader.new ImageReader.SquashFsType path)))
    with ImageReader.SquashFsType. cbv iota.
  destruct (Nat.eqb _ _); [|reflexivity]. cbn [negb].
  apply Z.eqb_neq in Hmagic. rewrite Hmagic. reflexivity.
Qed.

(** Past [2^64 - 4096] the sum [l + 4095] wraps and nothing is left. *)
Lemma ALIGN_TO_4096_wraps (l : Z) :
  2 ^ 64 - 4096 < l < 2 ^ 64 -> ImageReader.ALIGN_TO l 4096 = 0.
Proof.
  intros Hl. unfold ImageReader.ALIGN_TO.
  replace (wrap64 (l + 4096 - 1)) with (l + 4095 - 2 ^ 64).
  2:{ unfold wrap64. symmetry.
      replace (l + 4096 - 1) with ((l + 4095 - 2 ^ 64) + 1 * 2 ^ 64) by lia.
      rewrite Z.mod_add by lia. apply Z.mod_small. lia. }
  change (wrap64 (4096 - 1)) with (Z.ones 12).
  unfold wrap64. rewrite <- Z.land_ones by lia.
  rewrite (Z.land_comm (Z.lnot _)), Z.land_assoc.
  rewrite (Z.land_ones (l + 4095 - 2 ^ 64) 64) by lia.
  rewrite Z.mod_small by lia.
  rewrite <- Z.ldiff_land, Z.ldiff_ones_r by lia.
  rewrite Z.shiftr_div_pow2 by lia.
  rewrite Z.div_small by (change (2 ^ 12) with 4096; lia).
  apply Z.shiftl_0_l.
Qed.

(** C8 (as amended).  For a SquashFS node whose superblock can be read and
    whose [s_magic] is 0x73717368, [ImageReader::open] sets [imageSize] to
    [bytes_used] rounded up to the next multiple of 4096 as long as
    [bytes_used <= 2^64 - 4096]; then a [bytes_used] that is a multiple of
    4096 is kept as it is.  For a larger [bytes_used] the 64-bit sum wraps
    and [imageSize] is 0.  When the magic differs, [open] fails. *)
Theorem C8_squashfs_image_size
    (fs : FileSystem) (path : string) (ino : Inode) :
  fs path = Some ino -> i_readable ino = true -> i_fstat_fails ino = false ->
  (ImageReader.sizeof_squashfsHeader <= List.length (i_data ino))%nat ->
  let hdr := ImageReader.read_header ImageReader.sizeof_squashfsHeader ino in
  let result :=
    ImageReader.open fs (ImageReader.new ImageReader.SquashFsType path) in
  (ImageReader.s_magic hdr = ImageReader.SQUASHFS_MAGIC ->
   (ImageReader.bytes_used hdr <= 2 ^ 64 - 4096 ->
      ImageReader.imageSize (snd result)
        = roundup (ImageReader.bytes_used hdr) 4096
      /\ (ImageReader.bytes_used hdr mod 4096 = 0 ->
          ImageReader.imageSize (snd result) = ImageReader.bytes_used hdr))
   /\ (2 ^ 64 - 4096 < ImageReader.bytes_used hdr ->
       ImageReader.imageSize (snd result) = 0))
  /\ (ImageReader.s_magic hdr <> ImageReader.SQUASHFS_MAGIC ->
      fst result = false).
Proof.
  intros Hfs Hr Hst Hlen hdr result.
  pose proof (field_range 40 8 hdr) as Hrange.
  change (256 ^ Z.of_nat 8) with (2 ^ 64) in Hrange.
  fold (ImageReader.bytes_used hdr) in Hrange.
  split.
  - intros Hmagic.
    pose proof (open_squashfs_imageSize fs path ino Hfs Hr Hst Hlen Hmagic) as Hsz.
    fold hdr in Hsz. fold result in Hsz.
    split.
    + intros Hfit.
      assert (Heq : ImageReader.imageSize (snd result)
                    = roundup (ImageReader.bytes_used hdr) 4096).
      { rewrite Hsz. change 4096 with (2 ^ 12).
        apply ALIGN_TO_pow2; change (2 ^ 12) with 4096; lia. }
      split; [exact Heq|].
      intros Hmul. rewrite Heq. apply roundup_multiple; [lia|exact Hmul].
    + intros Hbig. rewrite Hsz. apply ALIGN_TO_4096_wraps. lia.
  - intros Hmagic. apply (open_squashfs_wrong_magic fs path ino Hfs Hmagic).
Qed.

(** C8 on four 8192-byte devices: [bytes_used] 5000, 8192 and [2^64 - 1],
    and a wrong magic. *)
Lemma C8_squashfs_image_size_witness :
  let open_at ino :=
    ImageReader.open (Fixtures.single "/dev/mmcblk0p6" ino)
      (ImageReader.new ImageReader.SquashFsType "/dev/mmcblk0p6") in
  ImageReader.imageSize
    (snd (open_at (Fixtures.rootfs_device ImageReader.SQUASHFS_MAGIC 5000)))
    = roundup 5000 4096
  /\ ImageReader.imageSize
       (snd (open_at (Fixtures.rootfs_device ImageReader.SQUASHFS_MAGIC 8192)))
     = 8192
  /\ ImageReader.imageSize
       (snd (open_at (Fixtures.rootfs_device ImageReader.SQUASHFS_MAGIC
                        (2 ^ 64 - 1))))
     = 0
  /\ fst (open_at (Fixtures.rootfs_device 0x12345678 5000)) = false.
Proof.
  intros open_at.
  assert (Hlen : forall m b,
             (ImageReader.sizeof_squashfsHeader
              <= List.length (i_data (Fixtures.rootfs_device m b)))%nat).
  { intros m b. apply Nat.leb_le. destruct m, b; vm_compute; reflexivity. }
  split; [|split; [|split]].
  - refine (proj1 (proj1 (proj1
      (C8_squashfs_image_size _ "/dev/mmcblk0p6"
         (Fixtures.rootfs_device ImageReader.SQUASHFS_MAGIC 5000)
         eq_refl eq_refl eq_refl (Hlen _ _)) _) _)).
    + vm_compute; reflexivity.
    + vm_compute; discriminate.
  - refine (proj2 (proj1 (proj1
      (C8_squashfs_image_size _ "/dev/mmcblk0p6"
         (Fixtures.rootfs_device ImageReader.SQUASHFS_MAGIC 8192)
         eq_refl eq_refl eq_refl (Hlen _ _)) _) _) _).
    + vm_compute; reflexivity.
    + vm_compute; discriminate.
    + vm_compute; reflexivity.
  - refine (proj2 (proj1
      (C8_squashfs_image_size _ "/dev/mmcblk0p6"
         (Fixtures.rootfs_device ImageReader.SQUASHFS_MAGIC (2 ^ 64 - 1))
         eq_refl eq_refl eq_refl (Hlen _ _)) _) _).
    + vm_compute; reflexivity.
    + vm_compute; reflexivity.
  - refine (proj2
      (C8_squashfs_image_size _ "/dev/mmcblk0p6"
         (Fixtures.rootfs_device 0x12345678 5000)
         eq_refl eq_refl eq_refl (Hlen _ _)) _).
    vm_compute; discriminate.
Defined.

(** C8 as stated fails where the rounding does not fit 64 bits: with
    [bytes_used = 2^64 - 1] the magic is right, [open] succeeds, and
    [imageSize] is 0, not [bytes_used] rounded up. *)
Lemma C8_counterexample :
  let ino := Fixtures.rootfs_device ImageReader.SQUASHFS_MAGIC (2 ^ 64 - 1) in
  let hdr := ImageReader.read_header ImageReader.sizeof_squashfsHeader ino in
  let result :=
    ImageReader.open (Fixtures.single "/dev/mmcblk0p6" ino)
      (ImageReader.new ImageReader.SquashFsType "/dev/mmcblk0p6") in
  ImageReader.s_magic hdr = 0x73717368
  /\ ImageReader.bytes_used hdr = 2 ^ 64 - 1
  /\ fst result = true
  /\ ImageReader.imageSize (snd result) = 0
  /\ ImageReader.imageSize (snd result)
     <> roundup (ImageReader.bytes_used hdr) 4096.
Proof.
  vm_compute. repeat split; discriminate.
Qed.

(** What [open()] leaves in [imageSize] for an Android boot image whose
    header can be read and carries both magics. *)
Lemma open_android_imageSize (fs : FileSystem) (path : string) (ino : Inode) :
  fs path = Some ino -> i_readable ino = true -> i_fstat_fails ino = false ->
  (ImageReader.sizeof_androidBootHeader <= List.length (i_data ino))%nat ->
  let hdr := ImageReader.read_header ImageReader.sizeof_androidBootHeader ino in
  ImageReader.magic hdr = ImageReader._ANDROID_BOOTIMG_MAGIC_1 ->
  ImageReader.magic2 hdr = ImageReader._ANDROID_BOOTIMG_MAGIC_2 ->
  ImageReader.imageSize
    (snd (ImageReader.open fs
            (ImageReader.new ImageReader.AndroidBootType path)))
  = wrap64 (ImageReader.ALIGN_TO 608 (ImageReader.page_size hdr)
            + ImageReader.ALIGN_TO (ImageReader.kernel_size hdr)
                (ImageReader.page_size hdr)
            + ImageReader.ALIGN_TO (ImageReader.initrd_size hdr)
                (ImageReader.page_size hdr)
            + ImageReader.ALIGN_TO (ImageReader.second_size hdr)
                (ImageReader.page_size hdr)
            + ImageReader.ALIGN_TO (ImageReader.dtb_size hdr)
                (ImageReader.page_size hdr)).
Proof.
  intros Hfs Hr Hst Hlen hdr Hm1 Hm2.
  unfold ImageReader.open.
  cbn [ImageReader.new ImageReader.isOpen ImageReader.fileName].
  rewrite Hfs, Hr. cbn [negb]. rewrite Hst.
  change (ImageReader.type
            (ImageReader.with_open
               (ImageReader.new ImageReader.AndroidBootType path)))
    with ImageReader.AndroidBootType. cbv iota.
  rewrite read_header_length by assumption.
  rewrite Nat.eqb_refl. cbn [negb].
  fold hdr. rewrite Hm1, Hm2, !Z.eqb_refl. cbn [negb orb].
  rewrite check_fileSize_snd. reflexivity.
Qed.

Lemma roundup_bounds (x p : Z) :
  0 < p -> 0 <= x -> 0 <= roundup x p < x + p.
Proof.
  intros Hp Hx. destruct (roundup_least x p Hp) as (_ & Hb & _). lia.
Qed.

(** C9 (as amended).  For an Android boot image whose header can be read,
    with both magics valid and a [page_size] P that is a power of two,
    [ImageReader::open] sets [imageSize] to
    [roundup(608, P) + roundup(kernel_size, P) + roundup(initrd_size, P)
     + roundup(second_size, P) + roundup(dtb_size, P)];
    in particular to [roundup(608, P)] when the four sizes are 0. *)
Theorem C9_android_image_size
    (fs : FileSystem) (path : string) (ino : Inode) (k : Z) :
  fs path = Some ino -> i_readable ino = true -> i_fstat_fails ino = false ->
  (ImageReader.sizeof_androidBootHeader <= List.length (i_data ino))%nat ->
  let hdr := ImageReader.read_header ImageReader.sizeof_androidBootHeader ino in
  let result :=
    ImageReader.open fs (ImageReader.new ImageReader.AndroidBootType path) in
  let P := ImageReader.page_size hdr in
  ImageReader.magic hdr = ImageReader._ANDROID_BOOTIMG_MAGIC_1 ->
  ImageReader.magic2 hdr = ImageReader._ANDROID_BOOTIMG_MAGIC_2 ->
  0 <= k -> P = 2 ^ k ->
  ImageReader.imageSize (snd result)
    = roundup 608 P + roundup (ImageReader.kernel_size hdr) P
      + roundup (ImageReader.initrd_size hdr) P
      + roundup (ImageReader.second_size hdr) P
      + roundup (ImageReader.dtb_size hdr) P
  /\ (ImageReader.kernel_size hdr = 0 -> ImageReader.initrd_size hdr = 0 ->
      ImageReader.second_size hdr = 0 -> ImageReader.dtb_size hdr = 0 ->
      ImageReader.imageSize (snd result) = roundup 608 P).
Proof.
  intros Hfs Hr Hst Hlen hdr result P Hm1 Hm2 Hk HP.
  pose proof (open_android_imageSize fs path ino Hfs Hr Hst Hlen Hm1 Hm2) as Hsz.
  fold hdr in Hsz. fold result in Hsz. fold P in Hsz.
  pose proof (field_range 36 4 hdr) as HPr. fold (ImageReader.page_size hdr) in HPr.
  pose proof (field_range 8 4 hdr) as Hks. fold (ImageReader.kernel_size hdr) in Hks.
  pose proof (field_range 16 4 hdr) as His. fold (ImageReader.initrd_size hdr) in His.
  pose proof (field_range 24 4 hdr) as Hss. fold (ImageReader.second_size hdr) in Hss.
  pose proof (field_range 40 4 hdr) as Hds. fold (ImageReader.dtb_size hdr) in Hds.
  fold P in HPr.
  change (256 ^ Z.of_nat 4) with (2 ^ 32) in *.
  assert (Hk64 : k < 32).
  { destruct (Z.lt_ge_cases k 32) as [|Hge]; [assumption|].
    pose proof (Z.pow_le_mono_r 2 32 k ltac:(lia) Hge). lia. }
  assert (HPpos : 0 < P) by (rewrite HP; apply Z.pow_pos_nonneg; lia).
  assert (Hal : forall l, 0 <= l < 2 ^ 32 ->
                  ImageReader.ALIGN_TO l P = roundup l P).
  { intros l Hl. rewrite HP. apply ALIGN_TO_pow2; lia. }
  assert (Hsum : ImageReader.imageSize (snd result)
                 = roundup 608 P + roundup (ImageReader.kernel_size hdr) P
                   + roundup (ImageReader.initrd_size hdr) P
                   + roundup (ImageReader.second_size hdr) P
                   + roundup (ImageReader.dtb_size hdr) P).
  { rewrite Hsz, !Hal by (change (2 ^ 32) with 4294967296 in *; lia).
    apply wrap64_small.
    pose proof (roundup_bounds 608 P HPpos ltac:(lia)).
    pose proof (roundup_bounds (ImageReader.kernel_size hdr) P HPpos ltac:(lia)).
    pose proof (roundup_bounds (ImageReader.initrd_size hdr) P HPpos ltac:(lia)).
    pose proof (roundup_bounds (ImageReader.second_size hdr) P HPpos ltac:(lia)).
    pose proof (roundup_bounds (ImageReader.dtb_size hdr) P HPpos ltac:(lia)).
    change (2 ^ 32) with 4294967296 in *.
    change (2 ^ 64) with 18446744073709551616. lia. }
  split; [exact Hsum|].
  intros H1 H2 H3 H4. rewrite Hsum, H1, H2, H3, H4.
  rewrite (roundup_multiple 0 P HPpos) by (apply Z.mod_0_l; lia). lia.
Qed.

(** C9 on two boot devices, with page sizes 2048 and 4096. *)
Lemma C9_android_image_size_witness :
  let open_at ino :=
    ImageReader.open (Fixtures.single "/dev/mmcblk0p4" ino)
      (ImageReader.new ImageReader.AndroidBootType "/dev/mmcblk0p4") in
  ImageReader.imageSize
    (snd (open_at (Fixtures.boot_device 3000 100 0 2048 1)))
    = roundup 608 2048 + roundup 3000 2048 + roundup 100 2048
      + roundup 0 2048 + roundup 1 2048
  /\ ImageReader.imageSize (snd (open_at (Fixtures.boot_device 0 0 0 4096 0)))
     = roundup 608 4096.
Proof.
  intros open_at.
  assert (Hlen : forall a b c d e,
             (ImageReader.sizeof_androidBootHeader
              <= List.length (i_data (Fixtures.boot_device a b c d e)))%nat).
  { intros a b c d e. apply Nat.leb_le.
    destruct a, b, c, d, e; vm_compute; reflexivity. }
  split.
  - refine (proj1
      (C9_android_image_size _ "/dev/mmcblk0p4"
         (Fixtures.boot_device 3000 100 0 2048 1) 11
         eq_refl eq_refl eq_refl (Hlen _ _ _ _ _) _ _ _ _));
      vm_compute; solve [reflexivity | discriminate].
  - refine (proj2
      (C9_android_image_size _ "/dev/mmcblk0p4"
         (Fixtures.boot_device 0 0 0 4096 0) 12
         eq_refl eq_refl eq_refl (Hlen _ _ _ _ _) _ _ _ _) _ _ _ _);
      vm_compute; solve [reflexivity | discriminate].
Defined.

(** C9 as stated fails for a page size that is not a power of two:
    [ALIGN_TO] masks bits and does not round up to a multiple.  With
    [page_size = 1000] and the four sizes 0, both magics are valid, [open]
    succeeds, and [imageSize] is 1024 where [roundup(608, 1000)] is 1000. *)
Lemma C9_counterexample :
  let ino := Fixtures.boot_device 0 0 0 1000 0 in
  let hdr := ImageReader.read_header ImageReader.sizeof_androidBootHeader ino in
  let result :=
    ImageReader.open (Fixtures.single "/dev/mmcblk0p4" ino)
      (ImageReader.new ImageReader.AndroidBootType "/dev/mmcblk0p4") in
  let P := ImageReader.page_size hdr in
  ImageReader.magic hdr = 0x52444e41 /\ ImageReader.magic2 hdr = 0x2144494f
  /\ P = 1000
  /\ ImageReader.kernel_size hdr = 0 /\ ImageReader.initrd_size hdr = 0
  /\ ImageReader.second_size hdr = 0 /\ ImageReader.dtb_size hdr = 0
  /\ fst result = true
  /\ ImageReader.imageSize (snd result) = 1024
  /\ roundup 608 P = 1000
  /\ ImageReader.imageSize (snd result)
     <> roundup 608 P + roundup (ImageReader.kernel_size hdr) P
        + roundup (ImageReader.initrd_size hdr) P
        + roundup (ImageReader.second_size hdr) P
        + roundup (ImageReader.dtb_size hdr) P.
Proof.
  vm_compute. repeat split; discriminate.
Qed.

(** ** UpdateWriter::ReserveAdditionalBytes *)

Lemma fs_put_same (fs : FileSystem) (path : string) (ino : Inode) :
  fs_put fs path ino path = Some ino.
Proof. unfold fs_put. rewrite String.eqb_refl. reflexivity. Qed.

Lemma to_qint64_small (z : Z) : 0 <= z < 2 ^ 63 -> to_qint64 z = z.
Proof.
  intros Hz. unfold to_qint64.
  rewrite wrap64_small by (change (2 ^ 64) with (2 * 2 ^ 63); lia).
  destruct (Z.ltb_spec z (2 ^ 63)); [reflexivity|lia].
Qed.

Lemma length_zeros (n : nat) : List.length (UpdateWriter.zeros n) = n.
Proof. apply repeat_length. Qed.

(** The state after [ReserveAdditionalBytes] on an open writer. *)
Lemma reserve_unfold (fs : FileSystem) (w : UpdateWriter.t) (ino : Inode)
    (n : Z) :
  UpdateWriter.isOpen w = true -> fs (UpdateWriter.fileName w) = Some ino ->
  0 <= UpdateWriter.pos w -> 0 <= n -> UpdateWriter.pos w + n < 2 ^ 63 ->
  UpdateWriter.ReserveAdditionalBytes (fs, w) n
  = match UpdateWriter.ftruncate ino (Z.to_nat (UpdateWriter.pos w + n)) with
    | Some bytes =>
        (fs_put fs (UpdateWriter.fileName w) (set_data ino bytes), w)
    | None => (fs, w)
    end.
Proof.
  intros Hopen Hfs Hpos Hn Hfit.
  unfold UpdateWriter.ReserveAdditionalBytes, UpdateWriter.file_resize.
  cbn [fst snd]. rewrite Hopen. cbn [negb].
  rewrite to_qint64_small by lia.
  destruct (Z.ltb_spec (UpdateWriter.pos w + n) 0); [lia|].
  rewrite Hfs.
  destruct (Z.ltb_spec (UpdateWriter.pos w + n) (UpdateWriter.pos w)); [lia|].
  reflexivity.
Qed.

(** C10 (as amended).  For an open [UpdateWriter] and a reservation that
    fits a [qint64], [ReserveAdditionalBytes(n)] leaves the writer, and so
    its position and [size()], unchanged.  On a regular file it sets the
    length to the position plus [n], and an [append] that follows puts its
    bytes at that same position, after the unchanged bytes before it; on any
    other node, a block device in particular, it changes nothing at all. *)
Theorem C10_reserve_keeps_position
    (fs : FileSystem) (w : UpdateWriter.t) (ino : Inode) (n : Z) :
  UpdateWriter.isOpen w = true -> fs (UpdateWriter.fileName w) = Some ino ->
  0 <= UpdateWriter.pos w -> 0 <= n -> UpdateWriter.pos w + n < 2 ^ 63 ->
  let fw' := ReserveAdditionalBytes (fs, w) n in
  snd fw' = w
  /\ size fw' = size (fs, w)
  /\ (i_mode ino = S_IFREG ->
      UpdateWriter.file_length fw' = UpdateWriter.pos w + n
      /\ forall s : list byte,
           let fw'' := append fw' s in
           size fw'' = UpdateWriter.pos w + Z.of_nat (List.length s)
           /\ exists ino'',
                fst fw'' (UpdateWriter.fileName w) = Some ino''
                /\ firstn (List.length s)
                     (skipn (Z.to_nat (UpdateWriter.pos w)) (i_data ino'')) = s
                /\ (UpdateWriter.pos w <= UpdateWriter.file_length (fs, w) ->
                    firstn (Z.to_nat (UpdateWriter.pos w)) (i_data ino'')
                    = firstn (Z.to_nat (UpdateWriter.pos w)) (i_data ino)))
  /\ (i_mode ino <> S_IFREG -> fw' = (fs, w)).
Proof.
  intros Hopen Hfs Hpos Hn Hfit fw'.
  pose proof (reserve_unfold fs w ino n Hopen Hfs Hpos Hn Hfit) as Hres.
  change (UpdateWriter.ReserveAdditionalBytes (fs, w) n) with fw' in Hres.
  assert (Hsnd : snd fw' = w).
  { rewrite Hres. destruct (UpdateWriter.ftruncate _ _); reflexivity. }
  split; [exact Hsnd|]. split.
  { cbn [size UpdateWriter_OutputString]. unfold UpdateWriter.size.
    rewrite Hsnd. reflexivity. }
  split.
  - intros Hreg.
    unfold UpdateWriter.ftruncate in Hres. rewrite Hreg in Hres.
    set (p := Z.to_nat (UpdateWriter.pos w)) in *.
    set (sz := Z.to_nat (UpdateWriter.pos w + n)) in *.
    set (data1 := (firstn sz (i_data ino)
                   ++ UpdateWriter.zeros (sz - List.length (i_data ino)))%list)
      in *.
    assert (Hlen1 : List.length data1 = sz).
    { unfold data1. rewrite length_app, length_firstn, length_zeros. lia. }
    split.
    + unfold UpdateWriter.file_length. rewrite Hres. cbn [fst snd].
      rewrite fs_put_same. cbn [i_data set_data]. rewrite Hlen1.
      unfold sz. lia.
    + intros s fw''.
      assert (Hfw'' :
        fw'' = (fs_put (fst fw') (UpdateWriter.fileName w)
                  (set_data (set_data ino data1)
                     (firstn p data1 ++ UpdateWriter.zeros (p - sz) ++ s
                        ++ skipn (p + List.length s) data1)%list),
                UpdateWriter.mk (UpdateWriter.fileName w) true
                  (UpdateWriter.pos w + Z.of_nat (List.length s)))).
      { unfold fw''. cbn [append UpdateWriter_OutputString].
        unfold UpdateWriter.append, UpdateWriter.file_write.
        rewrite Hsnd, Hopen. cbn [negb].
        rewrite Hres. cbn [fst]. rewrite fs_put_same.
        unfold UpdateWriter.pwrite. cbn [i_mode set_data i_data].
        rewrite Hreg. fold p. rewrite Hlen1. reflexivity. }
      rewrite Hfw''. cbn [size UpdateWriter_OutputString].
      unfold UpdateWriter.size. cbn [snd fst UpdateWriter.pos].
      split; [reflexivity|].
      eexists. split; [apply fs_put_same|].
      cbn [i_data set_data].
      assert (Hp : (p <= sz)%nat) by (unfold p, sz; lia).
      replace (p - sz)%nat with 0%nat by lia. cbn [UpdateWriter.zeros repeat app].
      assert (Hfp : List.length (firstn p data1) = p)
        by (rewrite length_firstn; lia).
      split.
      * rewrite skipn_app, Hfp, Nat.sub_diag.
        rewrite (skipn_all2 (firstn p data1)) by lia.
        cbn [skipn app]. rewrite firstn_app, Nat.sub_diag.
        cbn [firstn]. rewrite app_nil_r. apply firstn_all.
      * intros Hinv. unfold UpdateWriter.file_length in Hinv.
        cbn [fst snd] in Hinv. rewrite Hfs in Hinv.
        rewrite firstn_app, Hfp, Nat.sub_diag. cbn [firstn].
        rewrite app_nil_r, firstn_firstn, Nat.min_id.
        unfold data1. rewrite firstn_app, firstn_firstn.
        replace (Nat.min p sz) with p by lia.
        replace (p - List.length (firstn sz (i_data ino)))%nat with 0%nat.
        -- cbn [firstn]. apply app_nil_r.
        -- rewrite length_firstn. unfold p, sz in *. lia.
  - intros Hnreg. rewrite Hres. unfold UpdateWriter.ftruncate.
    destruct (i_mode ino); [contradiction Hnreg; reflexivity| |]; reflexivity.
Qed.

(** C10 on a regular file after three bytes were appended, and on a block
    device. *)
Lemma C10_reserve_keeps_position_witness :
  let fw :=
    append (Fixtures.opened_writer
              (Fixtures.single "/tmp/rootfs.img" (regular ["x"%byte]))
              "/tmp/rootfs.img")
           ["a"; "b"; "c"]%byte in
  let fw' := ReserveAdditionalBytes fw 5 in
  snd fw' = snd fw
  /\ size fw' = 3
  /\ UpdateWriter.file_length fw' = 3 + 5
  /\ size (append fw' ["d"%byte]) = 3 + 1
  /\ (let blk := Fixtures.opened_writer
                   (Fixtures.single "/dev/mmcblk0p4"
                      (Fixtures.boot_device 0 0 0 2048 0))
                   "/dev/mmcblk0p4" in
      ReserveAdditionalBytes blk 100 = blk).
Proof.
  intros fw fw'.
  pose proof (C10_reserve_keeps_position (fst fw) (snd fw)
                (regular ["a"; "b"; "c"]%byte) 5
                eq_refl eq_refl ltac:(vm_compute; discriminate)
                ltac:(lia) ltac:(vm_compute; reflexivity))
    as (H1 & H2 & H3 & _).
  destruct (H3 eq_refl) as [H4 H5].
  destruct (H5 ["d"%byte]) as [H6 _].
  split; [exact H1|]. split; [exact H2|]. split; [exact H4|].
  split; [exact H6|].
  intros blk.
  refine (proj2 (proj2 (proj2
    (C10_reserve_keeps_position (fst blk) (snd blk)
       (Fixtures.boot_device 0 0 0 2048 0) 100
       eq_refl eq_refl ltac:(vm_compute; discriminate)
       ltac:(lia) ltac:(vm_compute; reflexivity)))) _).
  discriminate.
Defined.

(** C10 as stated fails on the targets the updater writes to: on a block
    device the length is fixed, and after [ReserveAdditionalBytes(100)] at
    position 0 the 8192-byte device is still 8192 bytes long, not 100. *)
Lemma C10_counterexample :
  let fw := Fixtures.opened_writer
              (Fixtures.single "/dev/mmcblk0p4"
                 (Fixtures.boot_device 0 0 0 2048 0))
              "/dev/mmcblk0p4" in
  let fw' := ReserveAdditionalBytes fw 100 in
  UpdateWriter.isOpen (snd fw) = true
  /\ size fw = 0
  /\ UpdateWriter.file_length fw' = 8192
  /\ UpdateWriter.file_length fw' <> size fw + 100.
Proof.
  vm_compute. repeat split; discriminate.
Qed.

(** ** UpdateThread::verifyImage *)

Lemma ALIGN_TO_nonneg (l ali : Z) : 0 <= ImageReader.ALIGN_TO l ali.
Proof.
  unfold ImageReader.ALIGN_TO. apply Z.land_nonneg. left.
  unfold wrap64. apply Z.mod_pos_bound. lia.
Qed.

Lemma check_fileSize_true (ino : Inode) (r r' : ImageReader.t) :
  ImageReader.check_fileSize ino r = (true, r') ->
  r' = r /\ ImageReader.imageSize r <= Z.of_nat (List.length (i_data ino)).
Proof.
  unfold ImageReader.check_fileSize.
  destruct (i_mode ino); [| |discriminate].
  - destruct (Z.ltb_spec (Z.of_nat (List.length (i_data ino)))
                (ImageReader.imageSize r)); [discriminate|].
    intros [= <-]. split; [reflexivity|lia].
  - destruct (i_blkgetsize_fails ino).
    + destruct (Z.ltb_spec 0 (ImageReader.imageSize r)); [discriminate|].
      intros [= <-]. split; [reflexivity|lia].
    + destruct (Z.ltb_spec (Z.of_nat (List.length (i_data ino)))
                  (ImageReader.imageSize r)); [discriminate|].
      intros [= <-]. split; [reflexivity|lia].
Qed.

(** A successful [open()] leaves an open, unmapped reader whose
    [imageSize] does not exceed the length of the node. *)
Lemma open_true (fs : FileSystem) (ty : ImageReader.ImageType)
    (path : string) (r : ImageReader.t) :
  ImageReader.open fs (ImageReader.new ty path) = (true, r) ->
  exists ino,
    fs path = Some ino
    /\ ImageReader.isOpen r = true
    /\ ImageReader.mappedBuffer r = None
    /\ ImageReader.fileName r = path
    /\ 0 <= ImageReader.imageSize r <= Z.of_nat (List.length (i_data ino)).
Proof.
  unfold ImageReader.open.
  cbn [ImageReader.new ImageReader.isOpen ImageReader.fileName].
  destruct (fs path) as [ino|]; [|discriminate].
  destruct (i_readable ino); [|discriminate]. cbn [negb].
  destruct (i_fstat_fails ino); [discriminate|].
  intros H. exists ino. split; [reflexivity|].
  destruct ty;
    cbn [ImageReader.type ImageReader.with_open ImageReader.new] in H;
    [| |discriminate].
  - destruct (Nat.eqb _ _); [|discriminate]. cbn [negb] in H.
    destruct (_ =? _); [|discriminate]. cbn [negb] in H.
    apply check_fileSize_true in H. destruct H as [-> Hle].
    cbn [ImageReader.with_imageSize ImageReader.imageSize ImageReader.isOpen
         ImageReader.mappedBuffer ImageReader.fileName] in *.
    repeat split; try reflexivity; try assumption.
    apply ALIGN_TO_nonneg.
  - destruct (Nat.eqb _ _); [|discriminate]. cbn [negb] in H.
    destruct (_ || _); [discriminate|].
    apply check_fileSize_true in H. destruct H as [-> Hle].
    cbn [ImageReader.with_imageSize ImageReader.imageSize ImageReader.isOpen
         ImageReader.mappedBuffer ImageReader.fileName] in *.
    repeat split; try reflexivity; try assumption.
    unfold wrap64. apply Z.mod_pos_bound. lia.
Qed.

Lemma firstn_add_skipn {A : Type} (a b : nat) (l : list A) :
  (firstn a l ++ firstn b (skipn a l))%list = firstn (a + b) l.
Proof.
  revert l. induction a as [|a IH]; intros l; [reflexivity|].
  destruct l as [|x l]; cbn [firstn skipn Nat.add app].
  - rewrite firstn_nil. reflexivity.
  - rewrite IH. reflexivity.
Qed.

(** The loop of [verifyImage] ends by its own test within the iterations it
    is given, having added exactly the bytes from [pos] to [image_size]. *)
Lemma hash_loop_complete (L : EngineLibs) (n : nat)
    (state : UpdateThread.State) (image_size : Z) :
  forall (pos : Z) (buf hash : list byte),
    0 <= pos <= image_size ->
    image_size - pos <= Z.of_nat n * (1024 * 1024) ->
    fst (UpdateThread.hash_loop n state image_size pos buf hash)
    = (hash ++ firstn (Z.to_nat (image_size - pos)) buf)%list.
Proof.
  induction n as [|n IH]; intros pos buf hash Hpos Hn.
  - cbn [UpdateThread.hash_loop fst].
    replace (image_size - pos) with 0 by lia.
    cbn [Z.to_nat firstn]. rewrite app_nil_r. reflexivity.
  - cbn [UpdateThread.hash_loop].
    destruct (Z.ltb_spec pos image_size) as [Hlt|Hge].
    + set (l := Z.min (1024 * 1024) (image_size - pos)).
      assert (Hl : 0 < l <= image_size - pos) by (unfold l; lia).
      specialize (IH (pos + l) (skipn (Z.to_nat l) buf)
                    (hash ++ firstn (Z.to_nat l) buf)%list
                    ltac:(lia) ltac:(unfold l in *; lia)).
      destruct (UpdateThread.hash_loop n state image_size (pos + l) _ _)
        as [hash' out'].
      cbn [fst] in *. rewrite IH, <- app_assoc, firstn_add_skipn.
      f_equal. f_equal. lia.
    + cbn [fst]. replace (image_size - pos) with 0 by lia.
      cbn [Z.to_nat firstn]. rewrite app_nil_r. reflexivity.
Qed.

Lemma hash_loop_bound_enough (image_size : Z) :
  0 <= image_size ->
  image_size
  <= Z.of_nat (UpdateThread.hash_loop_bound image_size) * (1024 * 1024).
Proof.
  intros H. unfold UpdateThread.hash_loop_bound.
  rewrite Nat2Z.inj_succ, Z2Nat.id by (apply Z.div_pos; lia).
  pose proof (Z.div_mod image_size (1024 * 1024) ltac:(lia)).
  pose proof (Z.mod_pos_bound image_size (1024 * 1024) ltac:(lia)).
  lia.
Qed.

(** The progress the loop emits depends on the sizes only. *)
Lemma hash_loop_progress_indep (n : nat) (state : UpdateThread.State)
    (image_size : Z) :
  forall (pos : Z) (buf hash buf' hash' : list byte),
    snd (UpdateThread.hash_loop n state image_size pos buf hash)
    = snd (UpdateThread.hash_loop n state image_size pos buf' hash').
Proof.
  induction n as [|n IH]; intros pos buf hash buf' hash'; [reflexivity|].
  cbn [UpdateThread.hash_loop].
  destruct (pos <? image_size); [|reflexivity].
  set (l := Z.min (1024 * 1024) (image_size - pos)).
  specialize (IH (pos + l) (skipn (Z.to_nat l) buf)
                (hash ++ firstn (Z.to_nat l) buf)%list
                (skipn (Z.to_nat l) buf')
                (hash' ++ firstn (Z.to_nat l) buf')%list).
  destruct (UpdateThread.hash_loop n state image_size (pos + l)
              (skipn (Z.to_nat l) buf) _) as [h1 o1].
  destruct (UpdateThread.hash_loop n state image_size (pos + l)
              (skipn (Z.to_nat l) buf') _) as [h2 o2].
  cbn [snd] in *. rewrite IH. reflexivity.
Qed.

(** [verifyImage] in closed form: when the image opens, the outcome is the
    exact comparison of the expected string with the lower-case hexadecimal
    SHA-512 of the first [imageSize] bytes of the node. *)
Lemma verifyImage_spec (L : EngineLibs) (state : UpdateThread.State)
    (fs : FileSystem) (ty : ImageReader.ImageType) (path : string)
    (expected : string) :
  UpdateThread.verifyImage L state fs ty path expected
  = match ImageReader.open fs (ImageReader.new ty path), fs path with
    | (true, r), Some ino =>
        (String.eqb
           (toHex (sha512 L (firstn (Z.to_nat (ImageReader.imageSize r))
                               (i_data ino))))
           expected,
         verify_progress state (ImageReader.imageSize r))
    | _, _ => (false, [])
    end.
Proof.
  unfold UpdateThread.verifyImage.
  destruct (ImageReader.open fs (ImageReader.new ty path)) as [[|] r] eqn:Ho;
    [|destruct (fs path); reflexivity].
  cbn [negb].
  destruct (open_true fs ty path r Ho) as (ino & Hfs & Hop & Hmap & Hname & Hsz).
  rewrite Hfs.
  unfold ImageReader.map. rewrite Hop, Hmap, Hname, Hfs. cbn [negb].
  unfold ImageReader.size. cbn [ImageReader.imageSize].
  set (n := ImageReader.imageSize r) in *.
  set (buf := firstn (Z.to_nat n) (i_data ino)).
  pose proof (hash_loop_complete L (UpdateThread.hash_loop_bound n) state n
                0 buf [] ltac:(lia)
                ltac:(pose proof (hash_loop_bound_enough n); lia)) as Hh.
  pose proof (hash_loop_progress_indep (UpdateThread.hash_loop_bound n) state n
                0 buf [] [] []) as Hp.
  fold (verify_progress state n) in Hp.
  destruct (UpdateThread.hash_loop (UpdateThread.hash_loop_bound n) state n 0 buf [])
    as [hash out].
  cbn [fst snd] in Hh, Hp. subst hash out.
  cbn [app]. rewrite Z.sub_0_r. unfold buf.
  rewrite firstn_firstn, Nat.min_id. reflexivity.
Qed.

(** ** The comparison of the digest *)

Lemma hex_digit_lower (n : Z) :
  0 <= n < 16 -> is_lower_hex (hex_digit n) = true.
Proof.
  intros Hn. unfold is_lower_hex, hex_digit.
  destruct (Z.ltb_spec n 10).
  - rewrite N_ascii_embedding by lia. rewrite Z2N.id by lia.
    apply orb_true_iff. left. apply andb_true_iff.
    split; apply Z.leb_le; lia.
  - rewrite N_ascii_embedding by lia. rewrite Z2N.id by lia.
    apply orb_true_iff. right. apply andb_true_iff.
    split; apply Z.leb_le; lia.
Qed.

(** [toHex] produces lower-case hexadecimal digits only. *)
Lemma toHex_lower (bs : list byte) : lower_hex (toHex bs) = true.
Proof.
  induction bs as [|b rest IH]; [reflexivity|].
  cbn [toHex lower_hex]. pose proof (byte_val_range b) as Hb.
  rewrite !hex_digit_lower, IH; [reflexivity| |].
  - apply Z.mod_pos_bound. lia.
  - split; [apply Z.div_pos; lia|apply Z.div_lt_upper_bound; lia].
Qed.

(** C4 (as amended).  Image hash verification compares the manifest's
    string for exact, case-sensitive equality with the lower-case
    hexadecimal SHA-512 digest: verification succeeds exactly when the image
    opens and the expected string is, character for character, the
    lower-case digest of its first [imageSize] bytes.  An expected string
    that is not all lower-case hexadecimal, such as an upper-case or
    mixed-case digest, never verifies. *)
Theorem C4_digest_compared_exactly
    (L : EngineLibs) (state : UpdateThread.State) (fs : FileSystem)
    (ty : ImageReader.ImageType) (path : string) (expected : string) :
  (fst (UpdateThread.verifyImage L state fs ty path expected) = true <->
   exists r ino,
     ImageReader.open fs (ImageReader.new ty path) = (true, r)
     /\ fs path = Some ino
     /\ expected
        = toHex (sha512 L (firstn (Z.to_nat (ImageReader.imageSize r))
                             (i_data ino))))
  /\ (lower_hex expected = false ->
      fst (UpdateThread.verifyImage L state fs ty path expected) = false).
Proof.
  assert (Hiff :
    fst (UpdateThread.verifyImage L state fs ty path expected) = true <->
    exists r ino,
      ImageReader.open fs (ImageReader.new ty path) = (true, r)
      /\ fs path = Some ino
      /\ expected
         = toHex (sha512 L (firstn (Z.to_nat (ImageReader.imageSize r))
                              (i_data ino)))).
  { rewrite verifyImage_spec.
    destruct (ImageReader.open fs (ImageReader.new ty path)) as [[|] r] eqn:Ho.
    - destruct (open_true fs ty path r Ho) as (ino & Hfs & _).
      rewrite Hfs. cbn [fst]. rewrite String.eqb_eq. split.
      + intros <-. exists r, ino. auto.
      + intros (r' & ino' & [= <-] & [= <-] & ->). reflexivity.
    - split.
      + destruct (fs path); cbn [fst]; discriminate.
      + intros (r' & ino' & [=] & _). }
  split; [exact Hiff|].
  intros Hlow. apply not_true_is_false. intros Hv.
  apply Hiff in Hv. destruct Hv as (r & ino & _ & _ & ->).
  rewrite toHex_lower in Hlow. discriminate.
Qed.

(** C4 as stated fails: the ["B"] boot image verifies against its digest
    in lower case and does not verify against the same digest in upper
    case. *)
Lemma C4_counterexample :
  let fs := Fixtures.single "/dev/mmcblk0p5"
              (blockdev (Fixtures.boot_image "B")) in
  let verify expected :=
    fst (UpdateThread.verifyImage Fixtures.libs
           UpdateThread.DownloadBootimgState fs
           ImageReader.AndroidBootType "/dev/mmcblk0p5" expected) in
  let upper := to_upper Fixtures.boot_B_sha512 in
  to_lower upper = Fixtures.boot_B_sha512
  /\ verify Fixtures.boot_B_sha512 = true
  /\ verify upper = false.
Proof.
  vm_compute. repeat split.
Qed.

(** ** What the verification depends on *)

Lemma check_fileSize_congr (ino1 ino2 : Inode) (ra rb : ImageReader.t) :
  i_mode ino1 = i_mode ino2 ->
  i_blkgetsize_fails ino1 = i_blkgetsize_fails ino2 ->
  ImageReader.imageSize rb = ImageReader.imageSize ra ->
  fst (ImageReader.check_fileSize ino1 ra) = true ->
  ImageReader.imageSize ra <= Z.of_nat (List.length (i_data ino2)) ->
  ImageReader.check_fileSize ino2 rb = (true, rb).
Proof.
  unfold ImageReader.check_fileSize. intros <- <- -> H Hle.
  destruct (i_mode ino1).
  - destruct (Z.ltb_spec (Z.of_nat (List.length (i_data ino2)))
                (ImageReader.imageSize ra)); [lia|reflexivity].
  - destruct (i_blkgetsize_fails ino1).
    + destruct (0 <? ImageReader.imageSize ra); [discriminate|reflexivity].
    + destruct (Z.ltb_spec (Z.of_nat (List.length (i_data ino2)))
                  (ImageReader.imageSize ra)); [lia|reflexivity].
  - discriminate.
Qed.

(** [open()] reads the node through its attributes, its header and its
    length only: a second node with the same attributes and the same header
    that is long enough opens with the same [imageSize]. *)
Lemma open_same_header (fs1 fs2 : FileSystem) (ty : ImageReader.ImageType)
    (path1 path2 : string) (ino1 ino2 : Inode) (r1 : ImageReader.t) :
  fs1 path1 = Some ino1 -> fs2 path2 = Some ino2 ->
  same_attributes ino1 ino2 ->
  ImageReader.open fs1 (ImageReader.new ty path1) = (true, r1) ->
  firstn (sizeof_header ty) (i_data ino1)
    = firstn (sizeof_header ty) (i_data ino2) ->
  ImageReader.imageSize r1 <= Z.of_nat (List.length (i_data ino2)) ->
  exists r2,
    ImageReader.open fs2 (ImageReader.new ty path2) = (true, r2)
    /\ ImageReader.imageSize r2 = ImageReader.imageSize r1.
Proof.
  intros Hfs1 Hfs2 (Hmode & Hread & Hstat & Hblk) Ho Hhdr Hlen.
  revert Ho. unfold ImageReader.open.
  cbn [ImageReader.new ImageReader.isOpen ImageReader.fileName].
  rewrite Hfs1, Hfs2, <- Hread, <- Hstat.
  destruct (i_readable ino1); [|discriminate]. cbn [negb].
  destruct (i_fstat_fails ino1); [discriminate|].
  destruct ty;
    cbn [ImageReader.type ImageReader.with_open ImageReader.new sizeof_header]
      in *;
    [| |discriminate];
    unfold ImageReader.read_header; rewrite <- Hhdr.
  - destruct (Nat.eqb _ _); [|discriminate]. cbn [negb].
    destruct (_ =? _); [|discriminate]. cbn [negb].
    intros Ho. eexists. split.
    + pose proof (check_fileSize_true _ _ _ Ho) as [-> _].
      match type of Ho with
      | ImageReader.check_fileSize _ ?ra = _ =>
          match goal with
          | |- ImageReader.check_fileSize _ ?rb = _ =>
              apply (check_fileSize_congr ino1 ino2 ra rb Hmode Hblk eq_refl);
                [rewrite Ho; reflexivity|exact Hlen]
          end
      end.
    + apply check_fileSize_true in Ho. destruct Ho as [-> _]. reflexivity.
  - destruct (Nat.eqb _ _); [|discriminate]. cbn [negb].
    destruct (_ || _); [discriminate|].
    intros Ho. eexists. split.
    + pose proof (check_fileSize_true _ _ _ Ho) as [-> _].
      match type of Ho with
      | ImageReader.check_fileSize _ ?ra = _ =>
          match goal with
          | |- ImageReader.check_fileSize _ ?rb = _ =>
              apply (check_fileSize_congr ino1 ino2 ra rb Hmode Hblk eq_refl);
                [rewrite Ho; reflexivity|exact Hlen]
          end
      end.
    + apply check_fileSize_true in Ho. destruct Ho as [-> _]. reflexivity.
Qed.

Lemma open_true_header (fs : FileSystem) (ty : ImageReader.ImageType)
    (path : string) (r : ImageReader.t) (ino : Inode) :
  fs path = Some ino ->
  ImageReader.open fs (ImageReader.new ty path) = (true, r) ->
  (sizeof_header ty <= List.length (i_data ino))%nat.
Proof.
  intros Hfs. unfold ImageReader.open.
  cbn [ImageReader.new ImageReader.isOpen ImageReader.fileName].
  rewrite Hfs.
  destruct (i_readable ino); [|discriminate]. cbn [negb].
  destruct (i_fstat_fails ino); [discriminate|].
  destruct ty;
    cbn [ImageReader.type ImageReader.with_open ImageReader.new sizeof_header];
    [| |discriminate]; unfold ImageReader.read_header;
    match goal with
    | |- context [Nat.eqb ?a ?b] =>
        destruct (Nat.eqb_spec a b) as [E|]; [|discriminate]
    end;
    intros _; rewrite length_firstn in E; lia.
Qed.

(** Verification reads an image through its attributes, its header and
    its first [imageSize] bytes. *)
Lemma verifyImage_depends_on_prefix
    (L : EngineLibs) (state : UpdateThread.State) (fs1 fs2 : FileSystem)
    (ty : ImageReader.ImageType) (path1 path2 : string)
    (ino1 ino2 : Inode) (r1 : ImageReader.t) (expected : string) :
  fs1 path1 = Some ino1 -> fs2 path2 = Some ino2 ->
  same_attributes ino1 ino2 ->
  ImageReader.open fs1 (ImageReader.new ty path1) = (true, r1) ->
  let image_size := Z.to_nat (ImageReader.imageSize r1) in
  firstn (sizeof_header ty) (i_data ino1)
    = firstn (sizeof_header ty) (i_data ino2) ->
  firstn image_size (i_data ino1) = firstn image_size (i_data ino2) ->
  UpdateThread.verifyImage L state fs2 ty path2 expected
    = UpdateThread.verifyImage L state fs1 ty path1 expected
  /\ fst (UpdateThread.verifyImage L state fs1 ty path1 expected)
     = String.eqb (toHex (sha512 L (firstn image_size (i_data ino1))))
         expected.
Proof.
  intros Hfs1 Hfs2 Hattr Ho image_size Hhdr Hdata.
  destruct (open_true fs1 ty path1 r1 Ho) as (ino & Hfs & _ & _ & _ & Hsz).
  rewrite Hfs1 in Hfs. injection Hfs as <-.
  assert (Hlen2 : ImageReader.imageSize r1
                  <= Z.of_nat (List.length (i_data ino2))).
  { apply (f_equal (@List.length byte)) in Hdata.
    rewrite !length_firstn in Hdata. unfold image_size in Hdata. lia. }
  destruct (open_same_header fs1 fs2 ty path1 path2 ino1 ino2 r1
              Hfs1 Hfs2 Hattr Ho Hhdr Hlen2) as (r2 & Ho2 & Hsz2).
  rewrite !verifyImage_spec, Ho, Ho2, Hfs1, Hfs2, Hsz2.
  fold image_size. rewrite <- Hdata. split; reflexivity.
Qed.

(** C7.  Image verification computes SHA-512 over exactly the first
    [imageSize] bytes of the mapped image.  For two image files with the
    same header, and so the same header-derived [imageSize], whose first
    [imageSize] bytes are equal, verification gives the same outcome (and
    emits the same progress), whatever bytes follow: the outcome is the
    comparison of the expected string with the digest of those first
    [imageSize] bytes. *)
Theorem C7_hash_covers_image_size
    (L : EngineLibs) (state : UpdateThread.State) (fs1 fs2 : FileSystem)
    (ty : ImageReader.ImageType) (path1 path2 : string)
    (ino1 ino2 : Inode) (r1 : ImageReader.t) (expected : string) :
  fs1 path1 = Some ino1 -> fs2 path2 = Some ino2 ->
  same_attributes ino1 ino2 ->
  ImageReader.open fs1 (ImageReader.new ty path1) = (true, r1) ->
  let image_size := Z.to_nat (ImageReader.imageSize r1) in
  firstn (sizeof_header ty) (i_data ino1)
    = firstn (sizeof_header ty) (i_data ino2) ->
  firstn image_size (i_data ino1) = firstn image_size (i_data ino2) ->
  UpdateThread.verifyImage L state fs2 ty path2 expected
    = UpdateThread.verifyImage L state fs1 ty path1 expected
  /\ fst (UpdateThread.verifyImage L state fs1 ty path1 expected)
     = String.eqb (toHex (sha512 L (firstn image_size (i_data ino1))))
         expected.
Proof.
  exact (verifyImage_depends_on_prefix L state fs1 fs2 ty path1 path2
           ino1 ino2 r1 expected).
Qed.

(** C7 on the ["B"] boot image followed by 100 bytes of one kind and by
    300 bytes of another. *)
Lemma C7_hash_covers_image_size_witness :
  let verify data :=
    UpdateThread.verifyImage Fixtures.libs UpdateThread.DownloadBootimgState
      (Fixtures.single "/dev/mmcblk0p5" (blockdev data))
      ImageReader.AndroidBootType "/dev/mmcblk0p5" Fixtures.boot_B_sha512 in
  verify (Fixtures.boot_image "B" ++ repeat "y"%byte 300)%list
    = verify (Fixtures.boot_image "B" ++ repeat "x"%byte 100)%list
  /\ fst (verify (Fixtures.boot_image "B" ++ repeat "x"%byte 100)%list) = true.
Proof.
  intros verify.
  pose proof (C7_hash_covers_image_size Fixtures.libs
                UpdateThread.DownloadBootimgState
                (Fixtures.single "/dev/mmcblk0p5"
                   (blockdev (Fixtures.boot_image "B" ++ repeat "x"%byte 100)))
                (Fixtures.single "/dev/mmcblk0p5"
                   (blockdev (Fixtures.boot_image "B" ++ repeat "y"%byte 300)))
                ImageReader.AndroidBootType "/dev/mmcblk0p5" "/dev/mmcblk0p5"
                _ _
                (ImageReader.mk ImageReader.AndroidBootType "/dev/mmcblk0p5"
                   true None 2048)
                Fixtures.boot_B_sha512
                eq_refl eq_refl
                (conj eq_refl (conj eq_refl (conj eq_refl eq_refl)))
                ltac:(vm_compute; reflexivity)
                ltac:(vm_compute; reflexivity)
                ltac:(vm_compute; reflexivity)) as [H1 H2].
  split; [exact H1|].
  unfold verify. rewrite H2. vm_compute. reflexivity.
Defined.

(** Bytes appended to an image that opens do not change the outcome. *)
Lemma verify_ignores_appended_bytes
    (L : EngineLibs) (state : UpdateThread.State) (fs : FileSystem)
    (ty : ImageReader.ImageType) (path : string) (ino : Inode)
    (r : ImageReader.t) (expected : string) (extra : list byte) :
  fs path = Some ino ->
  ImageReader.open fs (ImageReader.new ty path) = (true, r) ->
  UpdateThread.verifyImage L state
    (fs_put fs path (set_data ino (i_data ino ++ extra))) ty path expected
  = UpdateThread.verifyImage L state fs ty path expected.
Proof.
  intros Hfs Ho.
  destruct (open_true fs ty path r Ho) as (ino' & Hfs' & _ & _ & _ & Hsz).
  rewrite Hfs in Hfs'. injection Hfs' as <-.
  pose proof (open_true_header fs ty path r ino Hfs Ho) as Hh.
  refine (proj1 (verifyImage_depends_on_prefix L state fs _ ty path path ino
                   (set_data ino (i_data ino ++ extra)) r expected
                   Hfs (fs_put_same _ _ _)
                   (conj eq_refl (conj eq_refl (conj eq_refl eq_refl)))
                   Ho _ _)); cbn [i_data set_data].
  - rewrite firstn_app. replace (_ - _)%nat with 0%nat by lia.
    cbn [firstn]. rewrite app_nil_r. reflexivity.
  - rewrite firstn_app. replace (_ - _)%nat with 0%nat by lia.
    cbn [firstn]. rewrite app_nil_r. reflexivity.
Qed.

(** When the image is at least as long as its header, equal first
    [imageSize] bytes are enough: the header is among them. *)
Lemma verify_same_first_bytes
    (L : EngineLibs) (state : UpdateThread.State) (fs1 fs2 : FileSystem)
    (ty : ImageReader.ImageType) (path1 path2 : string)
    (ino1 ino2 : Inode) (r1 : ImageReader.t) (expected : string) :
  fs1 path1 = Some ino1 -> fs2 path2 = Some ino2 ->
  same_attributes ino1 ino2 ->
  ImageReader.open fs1 (ImageReader.new ty path1) = (true, r1) ->
  let image_size := Z.to_nat (ImageReader.imageSize r1) in
  (sizeof_header ty <= image_size)%nat ->
  firstn image_size (i_data ino1) = firstn image_size (i_data ino2) ->
  UpdateThread.verifyImage L state fs2 ty path2 expected
  = UpdateThread.verifyImage L state fs1 ty path1 expected.
Proof.
  intros Hfs1 Hfs2 Hattr Ho image_size Hh Hdata.
  refine (proj1 (verifyImage_depends_on_prefix L state fs1 fs2 ty path1 path2
                   ino1 ino2 r1 expected Hfs1 Hfs2 Hattr Ho _ Hdata)).
  replace (sizeof_header ty) with (Nat.min (sizeof_header ty) image_size)
    by lia.
  rewrite <- !firstn_firstn. rewrite Hdata. reflexivity.
Qed.

(** ** What the thread emits *)

Lemma emitProgress_is_progress (state : UpdateThread.State) (isDownload : bool)
    (v : cfloat) :
  Forall is_progress (UpdateThread.emitProgress state isDownload v).
Proof.
  unfold UpdateThread.emitProgress.
  destruct (flt0 v || fgt1 v); repeat constructor.
Qed.

Lemma QEventLoop_exec_Forall {S E : Type} (P : E -> Prop)
    (slot : Signal -> S -> S * bool * list E) :
  (forall sig s, Forall P (snd (slot sig s))) ->
  forall signals s, Forall P (snd (QEventLoop_exec slot signals s)).
Proof.
  intros Hslot. induction signals as [|sig rest IH]; intros s.
  - constructor.
  - cbn [QEventLoop_exec]. specialize (Hslot sig s).
    destruct (slot sig s) as [[s' quit] out]. cbn [snd] in Hslot.
    destruct quit; [exact Hslot|].
    specialize (IH s'). destruct (QEventLoop_exec slot rest s') as [s'' out'].
    cbn [snd] in *. apply Forall_app. split; assumption.
Qed.

Lemma delta_slot_is_progress (L : EngineLibs) (state : UpdateThread.State)
    (sig : Signal) (d : UpdateThread.DeltaLocals L) :
  Forall is_progress (snd (UpdateThread.delta_slot L state sig d)).
Proof.
  destruct sig as [replyError data| | |r t]; cbn [UpdateThread.delta_slot].
  - destruct replyError; [constructor|].
    destruct (DecodeChunkToInterface L _ _ _ _ _) as [[ok dec] out].
    destruct ok; constructor.
  - constructor.
  - constructor.
  - apply emitProgress_is_progress.
Qed.

Lemma full_slot_is_progress (state : UpdateThread.State)
    (sig : Signal) (f : UpdateThread.FullLocals) :
  Forall is_progress (snd (UpdateThread.full_slot state sig f)).
Proof.
  destruct sig as [replyError data| | |r t]; cbn [UpdateThread.full_slot].
  - destruct replyError; constructor.
  - constructor.
  - constructor.
  - apply emitProgress_is_progress.
Qed.

Lemma downloadDeltaImage_is_progress (L : EngineLibs)
    (state : UpdateThread.State) (w : World) (deltaUrl : string)
    (dict : ImageReader.t) (outputPath : string) :
  Forall is_progress
    (snd (UpdateThread.downloadDeltaImage L state w deltaUrl dict outputPath)).
Proof.
  unfold UpdateThread.downloadDeltaImage. cbn [net_get].
  destruct (UpdateWriter.open _ _ _) as [[opened fs1] output].
  destruct opened; cbn [negb]; [|constructor].
  destruct (ImageReader.map fs1 dict) as [[buf|] dict']; [|constructor].
  match goal with
  | |- context [QEventLoop_exec ?slot ?sigs ?s] =>
      pose proof (QEventLoop_exec_Forall is_progress slot
                    (delta_slot_is_progress L state) sigs s) as H;
      destruct (QEventLoop_exec slot sigs s) as [d out]
  end.
  exact H.
Qed.

Lemma downloadFullImage_is_progress (L : EngineLibs)
    (state : UpdateThread.State) (w : World) (url outputPath : string) :
  Forall is_progress
    (snd (UpdateThread.downloadFullImage state w url outputPath)).
Proof.
  unfold UpdateThread.downloadFullImage. cbn [net_get].
  destruct (UpdateWriter.open _ _ _) as [[opened fs1] output].
  destruct opened; cbn [negb]; [|constructor].
  match goal with
  | |- context [QEventLoop_exec ?slot ?sigs ?s] =>
      pose proof (QEventLoop_exec_Forall is_progress slot
                    (full_slot_is_progress state) sigs s) as H;
      destruct (QEventLoop_exec slot sigs s) as [d out]
  end.
  exact H.
Qed.

Lemma hash_loop_is_progress (n : nat) (state : UpdateThread.State)
    (image_size : Z) :
  forall pos buf hash,
    Forall is_progress
      (snd (UpdateThread.hash_loop n state image_size pos buf hash)).
Proof.
  induction n as [|n IH]; intros pos buf hash; [constructor|].
  cbn [UpdateThread.hash_loop].
  destruct (pos <? image_size); [|constructor].
  match goal with
  | |- context [UpdateThread.hash_loop n state image_size ?p ?b ?h] =>
      specialize (IH p b h);
      destruct (UpdateThread.hash_loop n state image_size p b h) as [h' o']
  end.
  cbn [snd] in *. apply Forall_app. split; [|exact IH].
  apply emitProgress_is_progress.
Qed.

Lemma verifyImage_is_progress (L : EngineLibs) (state : UpdateThread.State)
    (fs : FileSystem) (ty : ImageReader.ImageType) (path expected : string) :
  Forall is_progress
    (snd (UpdateThread.verifyImage L state fs ty path expected)).
Proof.
  rewrite verifyImage_spec.
  destruct (ImageReader.open _ _) as [[|] r]; destruct (fs path);
    cbn [snd]; try constructor.
  apply hash_loop_is_progress.
Qed.

(** ** UpdateThread::downloadAndVerify, path by path *)

Section DownloadAndVerify.

Variable L : EngineLibs.
Variable state : UpdateThread.State.
Variable w : World.
Variable ty : ImageReader.ImageType.
Variables dictionaryPath outputPath fullImageUrl deltaImageUrl sha : string.

Let dict := ImageReader.open (fs w) (ImageReader.new ty dictionaryPath).
Let delta :=
  UpdateThread.downloadDeltaImage L state w deltaImageUrl (snd dict) outputPath.
Let w1 := if fst dict then snd (fst (fst delta)) else w.
Let out1 := if fst dict then snd delta else [].
Let verify1 := UpdateThread.verifyImage L state (fs w1) ty outputPath sha.
Let full := UpdateThread.downloadFullImage state w1 fullImageUrl outputPath.
Let w3 := snd (fst full).
Let verify2 := UpdateThread.verifyImage L state (fs w3) ty outputPath sha.

Lemma downloadAndVerify_paths :
  UpdateThread.downloadAndVerify L state w ty dictionaryPath outputPath
    fullImageUrl deltaImageUrl sha
  = if fst dict && negb (fst (fst (fst delta))) then (false, w1, out1)
    else if fst verify1 then (true, w1, out1 ++ snd verify1)
    else if negb (fst (fst full))
         then (false, w3, out1 ++ snd verify1 ++ snd full)
         else (fst verify2, w3,
               out1 ++ snd verify1 ++ snd full ++ snd verify2).
Proof.
  unfold UpdateThread.downloadAndVerify.
  subst verify2 w3 full verify1 out1 w1 delta dict.
  destruct (ImageReader.open (fs w) (ImageReader.new ty dictionaryPath))
    as [dict_opened dict'].
  cbn [fst snd]. destruct dict_opened; cbn [andb].
  - destruct (UpdateThread.downloadDeltaImage L state w deltaImageUrl dict'
                outputPath) as [[[ok wd] dictd] outd].
    cbn [fst snd]. destruct ok; cbn [negb]; [|reflexivity].
    destruct (UpdateThread.verifyImage L state (fs wd) ty outputPath sha)
      as [ok2 out2].
    cbn [fst snd]. destruct ok2; [reflexivity|].
    destruct (UpdateThread.downloadFullImage state wd fullImageUrl outputPath)
      as [[ok3 wf] out3].
    cbn [fst snd]. destruct ok3; cbn [negb]; [|reflexivity].
    destruct (UpdateThread.verifyImage L state (fs wf) ty outputPath sha)
      as [ok4 out4].
    reflexivity.
  - cbn [negb].
    destruct (UpdateThread.verifyImage L state (fs w) ty outputPath sha)
      as [ok2 out2].
    cbn [fst snd]. destruct ok2; [reflexivity|].
    destruct (UpdateThread.downloadFullImage state w fullImageUrl outputPath)
      as [[ok3 wf] out3].
    cbn [fst snd]. destruct ok3; cbn [negb]; [|reflexivity].
    destruct (UpdateThread.verifyImage L state (fs wf) ty outputPath sha)
      as [ok4 out4].
    reflexivity.
Qed.

Lemma downloadAndVerify_is_progress :
  Forall is_progress
    (snd (UpdateThread.downloadAndVerify L state w ty dictionaryPath
            outputPath fullImageUrl deltaImageUrl sha)).
Proof.
  rewrite downloadAndVerify_paths.
  assert (H1 : Forall is_progress out1).
  { subst out1. destruct (fst dict); [|constructor].
    apply downloadDeltaImage_is_progress. }
  pose proof (verifyImage_is_progress L state (fs w1) ty outputPath sha) as H2.
  pose proof (downloadFullImage_is_progress L state w1 fullImageUrl outputPath)
    as H3.
  pose proof (verifyImage_is_progress L state (fs w3) ty outputPath sha) as H4.
  fold verify1 in H2. fold full in H3. fold verify2 in H4.
  destruct (fst dict && negb (fst (fst (fst delta)))); [exact H1|].
  destruct (fst verify1); cbn [snd];
    [apply Forall_app; split; assumption|].
  destruct (negb (fst (fst full))); cbn [snd];
    repeat (apply Forall_app; split); assumption.
Qed.

(** A kind is accepted only on an output that verifies: when
    [downloadAndVerify] returns true, [verifyImage] holds of the output in
    the file system it leaves. *)
Lemma downloadAndVerify_true_verified :
  let result :=
    UpdateThread.downloadAndVerify L state w ty dictionaryPath outputPath
      fullImageUrl deltaImageUrl sha in
  fst (fst result) = true ->
  fst (UpdateThread.verifyImage L state (fs (snd (fst result))) ty
         outputPath sha) = true.
Proof.
  intros result. subst result. rewrite downloadAndVerify_paths.
  destruct (fst dict && negb (fst (fst (fst delta)))); [discriminate|].
  destruct (fst verify1) eqn:Hv1; cbn [fst snd]; [intros _; exact Hv1|].
  destruct (negb (fst (fst full))); cbn [fst snd]; [discriminate|].
  intros Hv2. exact Hv2.
Qed.

(** A kind is accepted as it was found, or after a transfer that ended
    well. *)
Lemma downloadAndVerify_true_acceptance :
  fst (fst (UpdateThread.downloadAndVerify L state w ty dictionaryPath
              outputPath fullImageUrl deltaImageUrl sha)) = true ->
  acceptance L state w ty dictionaryPath outputPath fullImageUrl
    deltaImageUrl sha.
Proof.
  unfold acceptance. cbn zeta. rewrite downloadAndVerify_paths.
  subst verify2 w3 full verify1 out1 w1 delta dict.
  destruct (ImageReader.open (fs w) (ImageReader.new ty dictionaryPath))
    as [dict_opened dict'].
  cbn [fst snd]. destruct dict_opened; cbn [andb].
  - destruct (fst (fst (fst (UpdateThread.downloadDeltaImage L state w
                               deltaImageUrl dict' outputPath))));
      cbn [negb fst]; [|discriminate].
    intros _. right. left. split; reflexivity.
  - destruct (fst (UpdateThread.verifyImage L state (fs w) ty outputPath sha));
      cbn [fst snd].
    + intros _. left. split; reflexivity.
    + destruct (fst (fst (UpdateThread.downloadFullImage state w fullImageUrl
                            outputPath))) eqn:Hfull;
        cbn [negb fst]; [|discriminate].
      intros _. right. right. reflexivity.
Qed.

(** When the dictionary opens and the delta attempt fails, the call
    returns false at once: the only request it has issued is the delta
    request. *)
Lemma downloadAndVerify_delta_failed :
  fst dict = true -> fst (fst (fst delta)) = false ->
  let result :=
    UpdateThread.downloadAndVerify L state w ty dictionaryPath outputPath
      fullImageUrl deltaImageUrl sha in
  fst (fst result) = false
  /\ requests (snd (fst result))
     = (requests w ++ [(DeltaRequest, deltaImageUrl)])%list.
Proof.
  intros Hd Hf result. subst result. rewrite downloadAndVerify_paths.
  rewrite Hd, Hf. cbn [andb negb fst snd]. split; [reflexivity|].
  subst w1. rewrite Hd. subst delta.
  unfold UpdateThread.downloadDeltaImage. cbn [net_get].
  destruct (UpdateWriter.open _ _ _) as [[opened fs1] output].
  destruct opened; cbn [negb]; [|reflexivity].
  destruct (ImageReader.map fs1 (snd dict)) as [[buf|] dict']; [|reflexivity].
  destruct (QEventLoop_exec _ _ _) as [d out]. reflexivity.
Qed.

End DownloadAndVerify.

(** ** UpdateThread::run and Updater::install *)

Lemma run_paths (L : EngineLibs) (machine : Machine) (update : AvailableUpdate)
    (w : World) :
  let boot := boot_phase L machine update w in
  let rootfs := rootfs_phase L machine update w in
  UpdateThread.run L machine update w
  = if negb (fst (fst boot))
    then (snd (fst boot), snd boot ++ [UpdateThread.failed])
    else if negb (fst (fst rootfs))
    then (snd (fst rootfs), snd boot ++ snd rootfs ++ [UpdateThread.failed])
    else (snd (fst rootfs),
          snd boot ++ snd rootfs ++ [UpdateThread.succeeded]).
Proof.
  intros boot rootfs. subst rootfs boot.
  unfold UpdateThread.run, rootfs_phase, boot_phase.
  destruct (UpdateThread.downloadAndVerify L UpdateThread.DownloadBootimgState
              w _ _ _ _ _ _) as [[ret w1] out1].
  cbn [fst snd]. destruct ret; cbn [negb]; [|reflexivity].
  destruct (UpdateThread.downloadAndVerify L UpdateThread.DownloadRootfsState
              w1 _ _ _ _ _ _) as [[ret w2] out2].
  cbn [fst snd]. destruct ret; reflexivity.
Qed.

Lemma connected_progress (out : list UpdateThread.Emitted) :
  Forall is_progress out ->
  flat_map Updater.connected out = List.map Updater.updateProgress (values out).
Proof.
  induction 1 as [|e rest He _ IH]; [reflexivity|].
  destruct e; try contradiction.
  cbn [flat_map Updater.connected values app List.map].
  unfold values in IH. rewrite IH. reflexivity.
Qed.

Lemma In_map_updateProgress (e : Updater.Effect) (vs : list cfloat) :
  In e (List.map Updater.updateProgress vs) -> exists v, e = Updater.updateProgress v.
Proof.
  intros H. apply in_map_iff in H. destruct H as (v & <- & _). eauto.
Qed.

(** C2 (as amended).  [machine->setAltBootConfig()] is invoked exactly on
    the success path.  It is called, once and right before
    [updateSucceeded], when and only when an update is pending and
    [downloadAndVerify] accepted both kinds, which it does only on a target
    that [verifyImage] has just hash-verified; a run that emits
    [updateFailed] never calls it, and every run that does not call it
    emits [updateFailed].  An accepted image need not have been written by
    the run: a kind is accepted after a delta transfer or a full-image
    download that ended well, or, when its dictionary cannot be opened and
    the target verifies already, as it was found, with no request and no
    write. *)
Theorem C2_commit_exactly_on_success
    (L : EngineLibs) (u : Updater.t) (w : World) :
  let machine := Updater.machine u in
  let update := Updater.availableUpdate u in
  let out := snd (Updater.install L u w) in
  let boot := boot_phase L machine update w in
  let rootfs := rootfs_phase L machine update w in
  let accepted :=
    version update <> 0
    /\ fst (fst boot) = true /\ fst (fst rootfs) = true in
  (In Updater.setAltBootConfig out <-> accepted)
  /\ (In Updater.updateSucceeded out <-> accepted)
  /\ (accepted ->
      fst (UpdateThread.verifyImage L UpdateThread.DownloadBootimgState
             (fs (snd (fst boot))) ImageReader.AndroidBootType
             (getUpdateTarget machine BootImageType) (bootimgSha512 update))
        = true
      /\ fst (UpdateThread.verifyImage L UpdateThread.DownloadRootfsState
                (fs (snd (fst rootfs))) ImageReader.SquashFsType
                (getUpdateTarget machine RootfsImageType)
                (rootfsSha512 update))
         = true
      /\ boot_acceptance L machine update w
      /\ rootfs_acceptance L machine update w
      /\ exists vs,
           out = (List.map Updater.updateProgress vs
                    ++ [Updater.setAltBootConfig; Updater.updateSucceeded])%list)
  /\ (In Updater.updateFailed out -> ~ In Updater.setAltBootConfig out)
  /\ (~ In Updater.setAltBootConfig out -> In Updater.updateFailed out).
Proof.
  intros machine update out boot rootfs accepted.
  pose proof (downloadAndVerify_is_progress L UpdateThread.DownloadBootimgState
                w ImageReader.AndroidBootType
                (getUpdateSeed machine BootImageType)
                (getUpdateTarget machine BootImageType)
                (bootimgUrl update) (bootimgDeltaUrl update)
                (bootimgSha512 update)) as Hp1.
  pose proof (downloadAndVerify_is_progress L UpdateThread.DownloadRootfsState
                (snd (fst boot)) ImageReader.SquashFsType
                (getUpdateSeed machine RootfsImageType)
                (getUpdateTarget machine RootfsImageType)
                (rootfsUrl update) (rootfsDeltaUrl update)
                (rootfsSha512 update)) as Hp2.
  fold (boot_phase L machine update w) in Hp1. fold boot in Hp1.
  fold (rootfs_phase L machine update w) in Hp2. fold rootfs in Hp2.
  (* the three shapes of a run *)
  assert (Hshape :
    (out = [Updater.updateFailed] /\ version update = 0)
    \/ (exists vs, out = (List.map Updater.updateProgress vs
                           ++ [Updater.updateFailed])%list
                   /\ version update <> 0
                   /\ (fst (fst boot) = false \/ fst (fst rootfs) = false))
    \/ (exists vs, out = (List.map Updater.updateProgress vs
                           ++ [Updater.setAltBootConfig;
                               Updater.updateSucceeded])%list
                   /\ accepted)).
  { subst out. unfold Updater.install. fold update machine.
    destruct (Z.eqb_spec (version update) 0) as [Hz|Hnz]; [left; auto|].
    right. rewrite run_paths. fold boot rootfs.
    destruct (fst (fst boot)) eqn:Hb; cbn [negb].
    - destruct (fst (fst rootfs)) eqn:Hr; cbn [negb snd].
      + right. exists (values (snd boot ++ snd rootfs)).
        rewrite app_assoc, flat_map_app, connected_progress
          by (apply Forall_app; split; assumption).
        split; [reflexivity|]. subst accepted. auto.
      + left. exists (values (snd boot ++ snd rootfs)).
        rewrite app_assoc, flat_map_app, connected_progress
          by (apply Forall_app; split; assumption).
        split; [reflexivity|]. auto.
    - left. exists (values (snd boot)). cbn [snd].
      rewrite flat_map_app, connected_progress by assumption.
      split; [reflexivity|]. auto. }
  assert (Hnot : forall vs e,
            (forall v, e <> Updater.updateProgress v) ->
            e <> Updater.updateFailed ->
            ~ In e (List.map Updater.updateProgress vs
                      ++ [Updater.updateFailed])%list).
  { intros vs e Hne Hnf Hin. apply in_app_or in Hin. destruct Hin as [Hin|Hin].
    - apply In_map_updateProgress in Hin. destruct Hin as [v ->].
      exact (Hne v eq_refl).
    - destruct Hin as [<-|[]]. exact (Hnf eq_refl). }
  destruct Hshape as [[Hout Hz]|[(vs & Hout & Hnz & Hfail)|(vs & Hout & Hacc)]].
  - (* no update pending *)
    assert (Hna : ~ accepted) by (intros (Hv & _); exact (Hv Hz)).
    rewrite Hout. cbn [In].
    split; [|split; [|split; [|split]]].
    + split; [intros [H|[]]; discriminate H|tauto].
    + split; [intros [H|[]]; discriminate H|tauto].
    + tauto.
    + intros _ [H|[]]; discriminate H.
    + intros _. left. reflexivity.
  - (* a kind failed *)
    assert (Hna : ~ accepted).
    { intros (_ & Hb & Hr). destruct Hfail; congruence. }
    rewrite Hout.
    assert (Hc : ~ In Updater.setAltBootConfig
                   (List.map Updater.updateProgress vs
                      ++ [Updater.updateFailed])%list)
      by (apply Hnot; [intros v|]; discriminate).
    assert (Hs : ~ In Updater.updateSucceeded
                   (List.map Updater.updateProgress vs
                      ++ [Updater.updateFailed])%list)
      by (apply Hnot; [intros v|]; discriminate).
    split; [|split; [|split; [|split]]]; try tauto.
    intros _. apply in_or_app. right. left. reflexivity.
  - (* both kinds accepted *)
    assert (Hc : In Updater.setAltBootConfig out)
      by (rewrite Hout; apply in_or_app; right; left; reflexivity).
    assert (Hs : In Updater.updateSucceeded out)
      by (rewrite Hout; apply in_or_app; right; right; left; reflexivity).
    assert (Hf : ~ In Updater.updateFailed out).
    { rewrite Hout. intros Hin. apply in_app_or in Hin.
      destruct Hin as [Hin|[Hin|[Hin|[]]]]; try discriminate Hin.
      apply In_map_updateProgress in Hin. destruct Hin as [v Hv].
      discriminate Hv. }
    split; [|split; [|split; [|split]]]; try tauto.
    intros _. split; [|split; [|split; [|split]]].
    + destruct Hacc as (_ & Hb & _).
      apply (downloadAndVerify_true_verified L UpdateThread.DownloadBootimgState
               w ImageReader.AndroidBootType
               (getUpdateSeed machine BootImageType)
               (getUpdateTarget machine BootImageType)
               (bootimgUrl update) (bootimgDeltaUrl update)
               (bootimgSha512 update) Hb).
    + destruct Hacc as (_ & _ & Hr).
      apply (downloadAndVerify_true_verified L UpdateThread.DownloadRootfsState
               (snd (fst boot)) ImageReader.SquashFsType
               (getUpdateSeed machine RootfsImageType)
               (getUpdateTarget machine RootfsImageType)
               (rootfsUrl update) (rootfsDeltaUrl update)
               (rootfsSha512 update) Hr).
    + destruct Hacc as (_ & Hb & _).
      apply (downloadAndVerify_true_acceptance L
               UpdateThread.DownloadBootimgState
               w ImageReader.AndroidBootType
               (getUpdateSeed machine BootImageType)
               (getUpdateTarget machine BootImageType)
               (bootimgUrl update) (bootimgDeltaUrl update)
               (bootimgSha512 update) Hb).
    + destruct Hacc as (_ & _ & Hr).
      apply (downloadAndVerify_true_acceptance L
               UpdateThread.DownloadRootfsState
               (snd (fst boot)) ImageReader.SquashFsType
               (getUpdateSeed machine RootfsImageType)
               (getUpdateTarget machine RootfsImageType)
               (rootfsUrl update) (rootfsDeltaUrl update)
               (rootfsSha512 update) Hr).
    + exists vs. exact Hout.
Qed.

(** C2 as stated fails on "written".  The devices of the slot in use are
    missing and the other slot holds the images of version 42 already:
    the run issues no request and writes nothing (it leaves the world as it
    found it), and it commits. *)
Lemma C2_counterexample :
  let w := mkWorld Fixtures.slot_B_holds_42
             [Fixtures.delivers (Fixtures.boot_image "B");
              Fixtures.delivers (Fixtures.rootfs_image "B")] [] in
  let result := Updater.install Fixtures.libs Fixtures.pending42 w in
  fst result = w
  /\ requests (fst result) = []
  /\ snd result
     = [Updater.updateProgress (FNum (1 # 2));
        Updater.updateProgress (FNum 1);
        Updater.setAltBootConfig; Updater.updateSucceeded].
Proof. vm_compute. repeat split. Qed.

(** ** A failed delta attempt *)

Lemma delta_slot_error_sticky (L : EngineLibs) (state : UpdateThread.State)
    (sig : Signal) (d : UpdateThread.DeltaLocals L) :
  UpdateThread.d_error L d = true ->
  UpdateThread.d_error L (fst (fst (UpdateThread.delta_slot L state sig d)))
  = true.
Proof.
  intros Hd. destruct sig as [replyError data| | |r t];
    cbn [UpdateThread.delta_slot].
  - destruct replyError; [reflexivity|].
    destruct (DecodeChunkToInterface L _ _ _ _ _) as [[ok dec] out].
    destruct ok; cbn; [exact Hd|reflexivity].
  - reflexivity.
  - exact Hd.
  - exact Hd.
Qed.

Lemma delta_loop_error_sticky (L : EngineLibs) (state : UpdateThread.State)
    (signals : list Signal) :
  forall d : UpdateThread.DeltaLocals L,
    UpdateThread.d_error L d = true ->
    UpdateThread.d_error L
      (fst (QEventLoop_exec (UpdateThread.delta_slot L state) signals d))
    = true.
Proof.
  induction signals as [|sig rest IH]; intros d Hd; [exact Hd|].
  cbn [QEventLoop_exec].
  pose proof (delta_slot_error_sticky L state sig d Hd) as Hs.
  destruct (UpdateThread.delta_slot L state sig d) as [[d' quit] out].
  cbn [fst] in Hs. destruct quit; [exact Hs|].
  specialize (IH d' Hs).
  destruct (QEventLoop_exec (UpdateThread.delta_slot L state) rest d')
    as [d'' out'].
  exact IH.
Qed.

(** A transport error that arrives before the reply has finished leaves
    [error] set when the loop ends. *)
Lemma delta_loop_transport_error (L : EngineLibs) (state : UpdateThread.State)
    (pre rest : list Signal) :
  ~ In QNetworkReply.finished pre ->
  forall d : UpdateThread.DeltaLocals L,
    UpdateThread.d_error L
      (fst (QEventLoop_exec (UpdateThread.delta_slot L state)
              (pre ++ QNetworkReply.error :: rest) d))
    = true.
Proof.
  induction pre as [|sig pre IH]; intros Hnf d.
  - reflexivity.
  - cbn [app QEventLoop_exec].
    assert (Hnf' : ~ In QNetworkReply.finished pre)
      by (intros H; apply Hnf; right; exact H).
    destruct sig as [replyError data| | |r t].
    + cbn [UpdateThread.delta_slot]. destruct replyError.
      * specialize (IH Hnf'
          (UpdateThread.mkDeltaLocals L (UpdateThread.d_ret L d) true
             (UpdateThread.d_decoder L d) (UpdateThread.d_output L d))).
        destruct (QEventLoop_exec _ _ _) as [d'' out']. exact IH.
      * destruct (DecodeChunkToInterface L _ _ _ _ _) as [[ok dec] out].
        destruct ok; cbn [negb]; [|reflexivity].
        specialize (IH Hnf'
          (UpdateThread.mkDeltaLocals L (UpdateThread.d_ret L d)
             (UpdateThread.d_error L d) dec out)).
        destruct (QEventLoop_exec _ _ _) as [d'' out']. exact IH.
    + reflexivity.
    + exfalso. apply Hnf. left. reflexivity.
    + cbn [UpdateThread.delta_slot]. specialize (IH Hnf' d).
      destruct (QEventLoop_exec _ _ _) as [d'' out']. exact IH.
Qed.

(** The delta attempt fails on such a reply, and with it the kind: no
    full-image request follows. *)
Lemma transport_error_abandons_kind (L : EngineLibs)
    (state : UpdateThread.State) (w : World) (ty : ImageReader.ImageType)
    (dictionaryPath outputPath fullImageUrl deltaImageUrl sha : string)
    (pre rest : list Signal) :
  fst (ImageReader.open (fs w) (ImageReader.new ty dictionaryPath)) = true ->
  hd [] (replies w) = (pre ++ QNetworkReply.error :: rest)%list ->
  ~ In QNetworkReply.finished pre ->
  let result :=
    UpdateThread.downloadAndVerify L state w ty dictionaryPath outputPath
      fullImageUrl deltaImageUrl sha in
  fst (fst result) = false
  /\ requests (snd (fst result))
     = (requests w ++ [(DeltaRequest, deltaImageUrl)])%list.
Proof.
  intros Hd Hreply Hnf.
  apply downloadAndVerify_delta_failed; [exact Hd|].
  unfold UpdateThread.downloadDeltaImage. cbn [net_get]. rewrite Hreply.
  destruct (UpdateWriter.open _ _ _) as [[opened fs1] output].
  destruct opened; cbn [negb]; [|reflexivity].
  destruct (ImageReader.map fs1 _) as [[buf|] dict']; [|reflexivity].
  match goal with
  | |- context [QEventLoop_exec ?slot ?sigs ?s] =>
      pose proof (delta_loop_transport_error L state pre rest Hnf s) as He;
      destruct (QEventLoop_exec slot sigs s) as [d out]
  end.
  cbn [fst] in *. rewrite He. apply andb_false_r.
Qed.

(** C1, on the code.  Both slots hold version 41 and the server offers the
    images of version 42.  When the boot delta reply is a transport error,
    or a chunk the decoder rejects, the run issues the delta request and no
    other, and ends in [updateFailed], although the full image on offer,
    downloaded to the same target, verifies. *)
Theorem C1_delta_failure_abandons_kind :
  let run boot_delta_reply :=
    Updater.install Fixtures.libs Fixtures.pending42
      (mkWorld Fixtures.disk
         [boot_delta_reply; Fixtures.delivers (Fixtures.boot_image "B")] []) in
  let transport_error := [QNetworkReply.error] in
  let decoder_error := [QNetworkReply.readyRead false ["255"%byte]] in
  let fallback :=
    UpdateThread.downloadFullImage UpdateThread.DownloadBootimgState
      (mkWorld Fixtures.disk [Fixtures.delivers (Fixtures.boot_image "B")] [])
      (bootimgUrl Fixtures.update42) "/dev/mmcblk0p5" in
  requests (fst (run transport_error))
    = [(DeltaRequest, "https://os.nepos.io/deltas/boot/41.vcdiff"%string)]
  /\ snd (run transport_error) = [Updater.updateFailed]
  /\ requests (fst (run decoder_error))
     = [(DeltaRequest, "https://os.nepos.io/deltas/boot/41.vcdiff"%string)]
  /\ snd (run decoder_error) = [Updater.updateFailed]
  /\ fst (fst fallback) = true
  /\ fst (UpdateThread.verifyImage Fixtures.libs
            UpdateThread.DownloadBootimgState (fs (snd (fst fallback)))
            ImageReader.AndroidBootType "/dev/mmcblk0p5"
            Fixtures.boot_B_sha512)
     = true.
Proof.
  vm_compute. repeat split.
Qed.

(** ** Updater::downloadFinished *)

(** The branch of [downloadFinished] taken on an invalid signature: the
    record is zeroed and nothing is emitted. *)
Lemma invalid_signature_is_silent (C : ControllerLibs) (u : Updater.t)
    (fs fs1 : FileSystem) (content : list byte) :
  Updater.state u = Updater.StateDownloadSignature ->
  Updater.write_file fs "/tmp/update.json.sig" content = Some fs1 ->
  Updater.verifySignature C fs1 "/tmp/update.json" "/tmp/update.json.sig"
    = false ->
  Updater.downloadFinished C u fs content
  = (Updater.with_availableUpdate
       (Updater.with_state u Updater.StateVerifySignature) zeroed,
     fs1, []).
Proof.
  intros Hst Hw Hv. unfold Updater.downloadFinished.
  rewrite Hst, Hw, Hv. reflexivity.
Qed.

(** The branch taken on a JSON parse error: [checkFailed] is emitted and
    the record is left as it was. *)
Lemma parse_error_keeps_record (C : ControllerLibs) (u : Updater.t)
    (fs fs1 : FileSystem) (content : list byte) (errorString : string) :
  Updater.state u = Updater.StateDownloadJson ->
  Updater.write_file fs "/tmp/update.json" content = Some fs1 ->
  jsonError (fromJson C content) = Some errorString ->
  Updater.downloadFinished C u fs content
  = (u, fs1,
     [Updater.checkFailed
        ("Unable to parse Json content from update server:" ++ errorString)]).
Proof.
  intros Hst Hw He. unfold Updater.downloadFinished.
  rewrite Hst, Hw, He. reflexivity.
Qed.

(** The branches taken when a temporary file cannot be opened: nothing is
    emitted and the record is left as it was. *)
Lemma unwritable_file_is_silent (C : ControllerLibs) (u : Updater.t)
    (fs : FileSystem) (content : list byte) :
  (Updater.state u = Updater.StateDownloadJson
   /\ Updater.write_file fs "/tmp/update.json" content = None)
  \/ (Updater.state u = Updater.StateDownloadSignature
      /\ Updater.write_file fs "/tmp/update.json.sig" content = None) ->
  Updater.downloadFinished C u fs content = (u, fs, []).
Proof.
  unfold Updater.downloadFinished.
  intros [[-> ->]|[-> ->]]; reflexivity.
Qed.

(** The record is filled from the manifest as soon as it parses, before
    the signature has been fetched. *)
Lemma manifest_fills_record (C : ControllerLibs) (u : Updater.t)
    (fs fs1 : FileSystem) (content : list byte) :
  Updater.state u = Updater.StateDownloadJson ->
  Updater.write_file fs "/tmp/update.json" content = Some fs1 ->
  jsonError (fromJson C content) = None ->
  let u' := fst (fst (Updater.downloadFinished C u fs content)) in
  Updater.state u' = Updater.StateDownloadSignature
  /\ version (Updater.availableUpdate u')
     = toULong C (object (fromJson C content) "build_id").
Proof.
  intros Hst Hw He. cbn zeta. unfold Updater.downloadFinished.
  rewrite Hst, Hw, He. split; reflexivity.
Qed.

(** C5, on the code.  A check of the signed manifest of version 42 whose
    signature reply is not a valid signature: gpg exits with 1,
    [verifySignature] is false, and the controller emits nothing at all, so
    no [checkFailed].  Nor does it emit anything when one of the two
    temporary files cannot be written.  The JSON parse error is the one
    failure it reports. *)
Theorem C5_invalid_signature_emits_nothing :
  let check fs manifest signature :=
    Updater.run_check Fixtures.controller_libs
      (Updater.new Fixtures.machine) fs "stable" manifest signature in
  let invalid :=
    check Fixtures.tmpfs Fixtures.manifest42 Fixtures.bad_signature in
  gpg Fixtures.controller_libs
      ["--quiet"; "--verify"; "/tmp/update.json.sig"; "/tmp/update.json"]%string
      (snd (fst invalid)) = Some 1
  /\ Updater.state (fst (fst invalid)) = Updater.StateVerifySignature
  /\ snd invalid = []
  /\ snd (check (Fixtures.tmpfs_locked "/tmp/update.json.sig")
            Fixtures.manifest42 Fixtures.good_signature) = []
  /\ snd (check (Fixtures.tmpfs_locked "/tmp/update.json")
            Fixtures.manifest42 Fixtures.good_signature) = []
  /\ snd (check Fixtures.tmpfs [] [])
     = [Updater.checkFailed
          "Unable to parse Json content from update server:illegal value"]
  /\ snd (check Fixtures.tmpfs Fixtures.manifest42 Fixtures.good_signature)
     = [Updater.updateAvailable "42"].
Proof.
  vm_compute. repeat split.
Qed.

(** C6, on the code.  The record is zeroed on an invalid signature and on
    no other failure.  When the signature file cannot be written, the check
    ends with the record filled from the manifest that was never verified
    (version 42).  After a successful check, a check that fails on a JSON
    parse error (an empty reply, as after a fetch error) or on the
    manifest's temporary file leaves the earlier record in place. *)
Theorem C6_record_survives_failed_check :
  let check u fs manifest signature :=
    Updater.run_check Fixtures.controller_libs u fs "stable"
      manifest signature in
  let fresh := Updater.new Fixtures.machine in
  let unverified :=
    check fresh (Fixtures.tmpfs_locked "/tmp/update.json.sig")
      Fixtures.manifest42 Fixtures.good_signature in
  let earlier :=
    check fresh Fixtures.tmpfs Fixtures.manifest42 Fixtures.good_signature in
  let parse_error :=
    check (fst (fst earlier)) (snd (fst earlier)) [] [] in
  let manifest_unwritable :=
    check (fst (fst earlier)) (Fixtures.tmpfs_locked "/tmp/update.json")
      Fixtures.manifest42 Fixtures.good_signature in
  let invalid :=
    check (fst (fst earlier)) (snd (fst earlier))
      Fixtures.manifest42 Fixtures.bad_signature in
  Updater.availableUpdate fresh = zeroed
  /\ snd unverified = []
  /\ Updater.state (fst (fst unverified)) = Updater.StateDownloadSignature
  /\ Updater.availableUpdate (fst (fst unverified)) = Fixtures.update42
  /\ version (Updater.availableUpdate (fst (fst unverified))) = 42
  /\ snd parse_error
     = [Updater.checkFailed
          "Unable to parse Json content from update server:illegal value"]
  /\ version (Updater.availableUpdate (fst (fst parse_error))) = 42
  /\ version (Updater.availableUpdate (fst (fst manifest_unwritable))) = 42
  /\ Updater.availableUpdate (fst (fst invalid)) = zeroed.
Proof.
  vm_compute. repeat split.
Qed.

(** ** Progress values *)

(** *** Powers of two *)

Lemma pow2_pos (z : Z) : (0 < pow2 z)%Q.
Proof. apply Qpower_0_lt. reflexivity. Qed.

Lemma pow2_add (a b : Z) : (pow2 (a + b) == pow2 a * pow2 b)%Q.
Proof. apply Qpower_plus. intros H. discriminate H. Qed.

Lemma pow2_le (a b : Z) : a <= b -> (pow2 a <= pow2 b)%Q.
Proof.
  intros H. apply Qpower_le_compat_l; [exact H|]. unfold Qle. cbn. lia.
Qed.

Lemma pow2_lt_inv (a b : Z) : (pow2 a < pow2 b)%Q -> a < b.
Proof.
  intros H. apply (Qpower_lt_compat_l_inv 2); [exact H|reflexivity].
Qed.

Lemma pow2_Z (n : Z) : 0 <= n -> (inject_Z (2 ^ n) == pow2 n)%Q.
Proof. intros H. apply (Zpower_Qpower 2 n H). Qed.

Lemma pow2_cancel (u : Z) : (pow2 (- u) * pow2 u == 1)%Q.
Proof. rewrite <- pow2_add. replace (- u + u) with 0 by lia. reflexivity. Qed.

(** *** The binary exponent *)

Lemma ilog2_spec (q : Q) :
  (0 < q)%Q -> (pow2 (ilog2 q) <= q)%Q /\ (q < pow2 (ilog2 q + 1))%Q.
Proof.
  intros Hq. unfold ilog2.
  destruct q as [n d]. cbn [Qnum Qden].
  assert (Hn : 0 < n) by (unfold Qlt in Hq; cbn in Hq; lia).
  set (a := Z.log2 n). set (b := Z.log2 (Zpos d)).
  destruct (Z.log2_spec n Hn) as [Ha1 Ha2]. fold a in Ha1, Ha2.
  destruct (Z.log2_spec (Zpos d) ltac:(lia)) as [Hb1 Hb2]. fold b in Hb1, Hb2.
  assert (Ha0 : 0 <= a) by apply Z.log2_nonneg.
  assert (Hb0 : 0 <= b) by apply Z.log2_nonneg.
  assert (Hqd : ((n # d) * inject_Z (Zpos d) == inject_Z n)%Q).
  { unfold Qeq, Qmult, inject_Z. cbn. lia. }
  assert (HA1 : (pow2 a <= inject_Z n)%Q)
    by (rewrite <- pow2_Z by lia; rewrite <- Zle_Qle; exact Ha1).
  assert (HA2 : (inject_Z n < pow2 (a + 1))%Q).
  { rewrite <- pow2_Z by lia. rewrite <- Zlt_Qlt.
    replace (a + 1) with (Z.succ a) by lia. exact Ha2. }
  assert (HB1 : (pow2 b <= inject_Z (Zpos d))%Q)
    by (rewrite <- pow2_Z by lia; rewrite <- Zle_Qle; exact Hb1).
  assert (HB2 : (inject_Z (Zpos d) < pow2 (b + 1))%Q).
  { rewrite <- pow2_Z by lia. rewrite <- Zlt_Qlt.
    replace (b + 1) with (Z.succ b) by lia. exact Hb2. }
  pose proof (pow2_pos b) as Hpb. pose proof (pow2_pos (b + 1)) as Hpb1.
  assert (Hup : ((n # d) < pow2 (a - b + 1))%Q).
  { apply (Qmult_lt_r _ _ (pow2 b) Hpb).
    rewrite <- pow2_add. replace (a - b + 1 + b) with (a + 1) by lia.
    apply Qle_lt_trans with (2 := HA2). rewrite <- Hqd.
    apply Qmult_le_l; [exact Hq|exact HB1]. }
  assert (Hlo : (pow2 (a - b - 1) < (n # d))%Q).
  { apply (Qmult_lt_r _ _ (pow2 (b + 1)) Hpb1).
    rewrite <- pow2_add. replace (a - b - 1 + (b + 1)) with a by lia.
    apply Qle_lt_trans with (1 := HA1). rewrite <- Hqd.
    apply Qmult_lt_l; [exact Hq|exact HB2]. }
  destruct (Qle_bool (pow2 (a - b)) (n # d)) eqn:Ht.
  - apply Qle_bool_iff in Ht. split; [exact Ht|exact Hup].
  - split; [apply Qlt_le_weak; exact Hlo|].
    replace (a - b - 1 + 1) with (a - b) by lia.
    apply Qnot_le_lt. intros H. apply Qle_bool_iff in H. congruence.
Qed.

Lemma ilog2_unique (q : Q) (e : Z) :
  (pow2 e <= q)%Q -> (q < pow2 (e + 1))%Q -> ilog2 q = e.
Proof.
  intros H1 H2.
  assert (Hq : (0 < q)%Q) by (pose proof (pow2_pos e); lra).
  destruct (ilog2_spec q Hq) as [H3 H4].
  assert (e < ilog2 q + 1) by (apply pow2_lt_inv; lra).
  assert (ilog2 q < e + 1) by (apply pow2_lt_inv; lra).
  lia.
Qed.

Lemma ilog2_monotone (q q' : Q) :
  (0 < q)%Q -> (q <= q')%Q -> ilog2 q <= ilog2 q'.
Proof.
  intros Hq Hle.
  destruct (ilog2_spec q Hq) as [H1 _].
  destruct (ilog2_spec q' ltac:(lra)) as [_ H2].
  assert (ilog2 q < ilog2 q' + 1) by (apply pow2_lt_inv; lra).
  lia.
Qed.

(** *** Rounding to the nearest integer, ties to even *)

Lemma rne_bounds (x : Q) : Qfloor x <= rne x <= Qfloor x + 1.
Proof.
  unfold rne. destruct (Qcompare _ _); [destruct (Z.even _)| |]; lia.
Qed.

Lemma rne_Z (z : Z) : rne (inject_Z z) = z.
Proof.
  unfold rne. rewrite Qfloor_Z.
  destruct (Qcompare_spec (inject_Z z - inject_Z z) (1 # 2));
    [exfalso; lra|reflexivity|exfalso; lra].
Qed.

Lemma rne_monotone (x y : Q) : (x <= y)%Q -> rne x <= rne y.
Proof.
  intros Hxy.
  pose proof (Qfloor_resp_le x y Hxy) as Hf.
  pose proof (rne_bounds x) as Hx. pose proof (rne_bounds y) as Hy.
  destruct (Z.eq_dec (Qfloor x) (Qfloor y)) as [Heq|Hne]; [|lia].
  unfold rne. rewrite <- Heq.
  destruct (Qcompare_spec (x - inject_Z (Qfloor x)) (1 # 2)) as [Hx1|Hx1|Hx1];
    destruct (Qcompare_spec (y - inject_Z (Qfloor x)) (1 # 2)) as [Hy1|Hy1|Hy1];
    try (destruct (Z.even (Qfloor x))); try lia; exfalso; lra.
Qed.

Lemma rne_le_Z (x : Q) (z : Z) : (x <= inject_Z z)%Q -> rne x <= z.
Proof. intros H. rewrite <- (rne_Z z). apply rne_monotone. exact H. Qed.

Lemma rne_ge_Z (x : Q) (z : Z) : (inject_Z z <= x)%Q -> z <= rne x.
Proof. intros H. rewrite <- (rne_Z z). apply rne_monotone. exact H. Qed.

(** *** Rounding to a binary format *)

Section Rounding.

Variables prec emin emax : Z.
Hypothesis prec_pos : 0 < prec.

Lemma round_pos_unfold (q : Q) :
  round_pos prec emin emax q
  = if Qle_bool (pow2 emax) (grid_value prec emin q) then FInf false
    else FNum (Qred (grid_value prec emin q)).
Proof. reflexivity. Qed.

Lemma grid_value_nonneg (q : Q) : (0 < q)%Q -> (0 <= grid_value prec emin q)%Q.
Proof.
  intros Hq. unfold grid_value.
  pose proof (pow2_pos (grid prec emin q)) as Hp.
  pose proof (pow2_pos (- grid prec emin q)) as Hp'.
  apply Qmult_le_0_compat; [|lra].
  change 0%Q with (inject_Z 0). rewrite <- Zle_Qle.
  apply rne_ge_Z. change (inject_Z 0) with 0%Q.
  apply Qmult_le_0_compat; lra.
Qed.

Lemma grid_value_monotone (q q' : Q) :
  (0 < q)%Q -> (q <= q')%Q -> (grid_value prec emin q <= grid_value prec emin q')%Q.
Proof.
  intros Hq Hle.
  assert (Hq' : (0 < q')%Q) by lra.
  pose proof (ilog2_monotone q q' Hq Hle) as He.
  destruct (ilog2_spec q Hq) as [_ Hup].
  destruct (ilog2_spec q' Hq') as [Hlo' _].
  unfold grid_value.
  assert (Hu : grid prec emin q <= grid prec emin q') by (unfold grid; lia).
  assert (Hcase : grid prec emin q = grid prec emin q'
                  \/ (grid prec emin q' = ilog2 q' + 1 - prec /\ grid prec emin q < grid prec emin q'
                      /\ ilog2 q + 1 <= ilog2 q')) by (unfold grid in *; lia).
  remember (ilog2 q) as e eqn:Ee. remember (ilog2 q') as e' eqn:Ee'.
  destruct Hcase as [Heq|(Hu' & Hne & Hee)].
  - rewrite Heq.
    pose proof (pow2_pos (grid prec emin q')) as Hp.
    pose proof (pow2_pos (- grid prec emin q')) as Hp'.
    apply Qmult_le_compat_r; [|lra].
    rewrite <- Zle_Qle. apply rne_monotone.
    apply Qmult_le_compat_r; lra.
  - remember (grid prec emin q) as u eqn:Eu. remember (grid prec emin q') as u' eqn:Eu'.
    pose proof (pow2_pos u) as Hpu. pose proof (pow2_pos (- u)) as Hpnu.
    pose proof (pow2_pos u') as Hpu'. pose proof (pow2_pos (- u')) as Hpnu'.
    apply Qle_trans with (pow2 e').
    + (* the lower value stays below 2^e' *)
      assert (Hq2 : (q <= pow2 e')%Q).
      { pose proof (pow2_le (e + 1) e' Hee). lra. }
      assert (Hk : 0 <= e' - u) by lia.
      assert (Hr : rne (q * pow2 (- u)) <= 2 ^ (e' - u)).
      { apply rne_le_Z. rewrite pow2_Z by exact Hk.
        replace (e' - u) with (e' + - u) by lia. rewrite pow2_add.
        apply Qmult_le_compat_r; lra. }
      apply Qle_trans with (inject_Z (2 ^ (e' - u)) * pow2 u)%Q.
      * apply Qmult_le_compat_r; [|lra]. rewrite <- Zle_Qle. exact Hr.
      * rewrite pow2_Z by exact Hk. rewrite <- pow2_add.
        replace (e' - u + u) with e' by lia. apply Qle_refl.
    + (* the upper value stays above 2^e' *)
      assert (Hk : 0 <= prec - 1) by lia.
      assert (Hr : 2 ^ (prec - 1) <= rne (q' * pow2 (- u'))).
      { apply rne_ge_Z. rewrite pow2_Z by exact Hk.
        replace (prec - 1) with (e' + - u') by lia. rewrite pow2_add.
        apply Qmult_le_compat_r; lra. }
      apply Qle_trans with (inject_Z (2 ^ (prec - 1)) * pow2 u')%Q.
      * rewrite pow2_Z by exact Hk. rewrite <- pow2_add.
        replace (prec - 1 + u') with e' by lia. apply Qle_refl.
      * apply Qmult_le_compat_r; [|lra]. rewrite <- Zle_Qle. exact Hr.
Qed.

Lemma round_pos_monotone (q q' : Q) :
  (0 < q)%Q -> (q <= q')%Q ->
  fle_ext (round_pos prec emin emax q) (round_pos prec emin emax q').
Proof.
  intros Hq Hle. rewrite !round_pos_unfold.
  pose proof (grid_value_monotone q q' Hq Hle) as Hv.
  destruct (Qle_bool (pow2 emax) (grid_value prec emin q)) eqn:H1;
    destruct (Qle_bool (pow2 emax) (grid_value prec emin q')) eqn:H2; cbn [fle_ext];
    try exact I.
  - apply Qle_bool_iff in H1.
    assert (H3 : (pow2 emax <= grid_value prec emin q')%Q) by lra.
    apply Qle_bool_iff in H3. congruence.
  - rewrite !Qred_correct. exact Hv.
Qed.

Lemma round_pos_nonneg (q : Q) :
  (0 < q)%Q -> fle_ext (FNum 0) (round_pos prec emin emax q).
Proof.
  intros Hq. rewrite round_pos_unfold.
  destruct (Qle_bool _ _); cbn [fle_ext]; [exact I|].
  rewrite Qred_correct. apply grid_value_nonneg. exact Hq.
Qed.

Lemma fneg_antitone (a b : cfloat) :
  fle_ext a b -> fle_ext (fneg b) (fneg a).
Proof.
  destruct a as [x|[|]|], b as [y|[|]|]; cbn [fle_ext fneg negb];
    try tauto.
  rewrite !Qred_correct. intros H. lra.
Qed.

Lemma fle_ext_trans (a b c : cfloat) :
  fle_ext a b -> fle_ext b c -> fle_ext a c.
Proof.
  destruct a as [x|[|]|], b as [y|[|]|], c as [z|[|]|]; cbn [fle_ext];
    try tauto.
  intros; lra.
Qed.

Lemma round_compat (q q' : Q) :
  (q == q')%Q -> round prec emin emax q = round prec emin emax q'.
Proof.
  intros H. unfold round. rewrite (Qred_complete q q' H). reflexivity.
Qed.

Lemma round_monotone (q q' : Q) :
  (q <= q')%Q ->
  fle_ext (round prec emin emax q) (round prec emin emax q').
Proof.
  intros Hle. unfold round.
  pose proof (Qred_correct q) as Hr. pose proof (Qred_correct q') as Hr'.
  set (r := Qred q) in *. set (r' := Qred q') in *.
  assert (Hrr : (r <= r')%Q) by lra.
  assert (Hneg : forall x, (x < 0)%Q ->
            fle_ext (fneg (round_pos prec emin emax (- x))) (FNum 0)).
  { intros x Hx.
    pose proof (fneg_antitone _ _ (round_pos_nonneg (- x) ltac:(lra))) as H.
    exact H. }
  destruct (Qcompare_spec r 0) as [H0|H0|H0];
    destruct (Qcompare_spec r' 0) as [H0'|H0'|H0'];
    try (exfalso; lra).
  - cbn. lra.
  - apply round_pos_nonneg. exact H0'.
  - apply Hneg. exact H0.
  - apply fneg_antitone. apply round_pos_monotone; lra.
  - eapply fle_ext_trans; [apply Hneg; exact H0|].
    apply round_pos_nonneg. exact H0'.
  - apply round_pos_monotone; lra.
Qed.

(** Between two numbers that round to numbers, a number rounds to a
    number between them. *)
Lemma round_between (lo hi lo' hi' q : Q) :
  round prec emin emax lo = FNum lo' ->
  round prec emin emax hi = FNum hi' ->
  (lo <= q)%Q -> (q <= hi)%Q ->
  exists y, round prec emin emax q = FNum y /\ (lo' <= y)%Q /\ (y <= hi')%Q.
Proof.
  intros Hlo Hhi H1 H2.
  pose proof (round_monotone lo q H1) as M1.
  pose proof (round_monotone q hi H2) as M2.
  rewrite Hlo in M1. rewrite Hhi in M2.
  destruct (round prec emin emax q) as [y|[|]|]; cbn [fle_ext] in *;
    try contradiction.
  exists y. split; [reflexivity|]. split; assumption.
Qed.

End Rounding.

Lemma round_not_nan (prec emin emax : Z) (q : Q) :
  round prec emin emax q <> FNaN.
Proof.
  unfold round, round_pos.
  destruct (Qcompare _ _); [discriminate| |];
    destruct (Qle_bool _ _); discriminate.
Qed.

(** *** Conversions and quotients of integers *)

Lemma float_of_int_4 : float_of_int 4 = FNum 4.
Proof. vm_compute. reflexivity. Qed.

Lemma fadd_double_bases :
  fadd_double (FNum 0) (1 # 2) = FNum (1 # 2)
  /\ fadd_double (FNum 0) (1 # 4) = FNum (1 # 4)
  /\ fadd_double (FNum (1 # 2)) (1 # 4) = FNum (3 # 4).
Proof. vm_compute. repeat split. Qed.

(** [(float) a] is a number for every 64-bit integer, signed or not, and
    it keeps the sign and the order. *)
Lemma float_of_int_finite (a : Z) :
  - 2 ^ 64 <= a <= 2 ^ 64 ->
  exists x, float_of_int a = FNum x
            /\ (0 <= a -> (0 <= x)%Q) /\ (1 <= a -> (1 <= x)%Q)
            /\ (a <= 0 -> (x <= 0)%Q) /\ (a <= -1 -> (x <= -1)%Q).
Proof.
  intros Ha. unfold float_of_int, round32.
  assert (H24 : 0 < 24) by lia.
  destruct (round_between 24 (-149) 128 H24
              (inject_Z (- 2 ^ 64)) (inject_Z (2 ^ 64))
              (inject_Z (- 2 ^ 64)) (inject_Z (2 ^ 64)) (inject_Z a)
              ltac:(vm_compute; reflexivity) ltac:(vm_compute; reflexivity)
              ltac:(rewrite <- Zle_Qle; lia) ltac:(rewrite <- Zle_Qle; lia))
    as (x & Hx & _ & _).
  exists x. split; [exact Hx|].
  assert (Hge : forall c : Z, - 1 <= c <= 1 -> c <= a ->
            round 24 (-149) 128 (inject_Z c) = FNum (inject_Z c) ->
            (inject_Z c <= x)%Q).
  { intros c _ Hc Hr.
    pose proof (round_monotone 24 (-149) 128 H24 (inject_Z c) (inject_Z a)
                  ltac:(rewrite <- Zle_Qle; exact Hc)) as M.
    rewrite Hr, Hx in M. exact M. }
  assert (Hle : forall c : Z, - 1 <= c <= 1 -> a <= c ->
            round 24 (-149) 128 (inject_Z c) = FNum (inject_Z c) ->
            (x <= inject_Z c)%Q).
  { intros c _ Hc Hr.
    pose proof (round_monotone 24 (-149) 128 H24 (inject_Z a) (inject_Z c)
                  ltac:(rewrite <- Zle_Qle; exact Hc)) as M.
    rewrite Hr, Hx in M. exact M. }
  split; [|split; [|split]]; intros H.
  - exact (Hge 0 ltac:(lia) H ltac:(vm_compute; reflexivity)).
  - exact (Hge 1 ltac:(lia) H ltac:(vm_compute; reflexivity)).
  - exact (Hle 0 ltac:(lia) H ltac:(vm_compute; reflexivity)).
  - exact (Hle (-1) ltac:(lia) H ltac:(vm_compute; reflexivity)).
Qed.

Lemma float_of_int_monotone (a b : Z) (x y : Q) :
  a <= b -> float_of_int a = FNum x -> float_of_int b = FNum y -> (x <= y)%Q.
Proof.
  intros Hab Hx Hy.
  pose proof (round_monotone 24 (-149) 128 ltac:(lia) (inject_Z a) (inject_Z b)
                ltac:(rewrite <- Zle_Qle; exact Hab)) as M.
  unfold float_of_int, round32 in Hx, Hy. rewrite Hx, Hy in M. exact M.
Qed.

Lemma Qdiv_between_0_1 (x y : Q) :
  (0 <= x)%Q -> (x <= y)%Q -> (0 < y)%Q -> (0 <= x / y)%Q /\ (x / y <= 1)%Q.
Proof.
  intros Hx Hxy Hy. unfold Qdiv.
  assert (Hinv : (0 <= / y)%Q) by (apply Qinv_le_0_compat; lra).
  split.
  - apply Qmult_le_0_compat; assumption.
  - assert (H1 : (y * / y == 1)%Q) by (apply Qmult_inv_r; lra).
    rewrite <- H1. apply Qmult_le_compat_r; assumption.
Qed.

Lemma emitProgress_scale (state : UpdateThread.State) (isDownload : bool)
    (v : cfloat) :
  UpdateThread.emitProgress state isDownload v
  = if flt0 v || fgt1 v then []
    else [UpdateThread.progress (scale state isDownload v)].
Proof. reflexivity. Qed.

(** The base [emitProgress] adds [v / 4] to. *)
Lemma scale_base (state : UpdateThread.State) (isDownload : bool)
    (v : cfloat) :
  scale state isDownload v
  = fadd (FNum (Qred (quarter state isDownload))) (fdiv4 v).
Proof.
  destruct fadd_double_bases as (H1 & H2 & H3).
  destruct state, isDownload; unfold scale; cbn [negb];
    rewrite ?H1, ?H2, ?H3; reflexivity.
Qed.

Lemma fdiv4_num (q : Q) : fdiv4 (FNum q) = round32 (q * (1 # 4)).
Proof.
  unfold fdiv4. rewrite float_of_int_4. cbn [fdiv].
  change (Qeq_bool 4 0) with false. cbv iota.
  apply round_compat. field.
Qed.

Lemma fdiv4_between (q : Q) :
  (0 <= q)%Q -> (q <= 1)%Q ->
  exists y, fdiv4 (FNum q) = FNum y /\ (0 <= y)%Q /\ (y <= 1 # 4)%Q.
Proof.
  intros H0 H1. rewrite fdiv4_num.
  exact (round_between 24 (-149) 128 ltac:(lia) 0 (1 # 4) 0 (1 # 4)
           (q * (1 # 4)) ltac:(vm_compute; reflexivity)
           ltac:(vm_compute; reflexivity) ltac:(lra) ltac:(lra)).
Qed.

(** A value in [[0, 1]] is scaled into the quarter of its sub-phase. *)
Lemma scale_between (state : UpdateThread.State) (isDownload : bool)
    (v : cfloat) :
  fbetween 0 1 v ->
  fbetween (quarter state isDownload) (quarter state isDownload + (1 # 4))
    (scale state isDownload v).
Proof.
  destruct v as [q| |]; cbn [fbetween]; try contradiction.
  intros [H0 H1]. rewrite scale_base.
  destruct (fdiv4_between q H0 H1) as (y & -> & Hy0 & Hy1).
  cbn [fadd].
  assert (Hcase : forall b hi : Q,
            round32 b = FNum b -> round32 hi = FNum hi ->
            (hi == b + (1 # 4))%Q ->
            exists z, round32 (b + y) = FNum z /\ (b <= z)%Q /\ (z <= hi)%Q).
  { intros b hi Hb Hhi Heq.
    exact (round_between 24 (-149) 128 ltac:(lia) b hi b hi (b + y)
             Hb Hhi ltac:(lra) ltac:(lra)). }
  destruct state, isDownload; unfold quarter.
  - destruct (Hcase 0%Q (1 # 4)%Q ltac:(vm_compute; reflexivity)
                ltac:(vm_compute; reflexivity) ltac:(reflexivity))
      as (z & Hz & Hz0 & Hz1).
    change (Qred (0 + 0)) with 0%Q. rewrite Hz. cbn [fbetween]. split; lra.
  - destruct (Hcase (1 # 4)%Q (1 # 2)%Q ltac:(vm_compute; reflexivity)
                ltac:(vm_compute; reflexivity) ltac:(reflexivity))
      as (z & Hz & Hz0 & Hz1).
    change (Qred (0 + (1 # 4))) with (1 # 4)%Q. rewrite Hz.
    cbn [fbetween]. split; lra.
  - destruct (Hcase (1 # 2)%Q (3 # 4)%Q ltac:(vm_compute; reflexivity)
                ltac:(vm_compute; reflexivity) ltac:(reflexivity))
      as (z & Hz & Hz0 & Hz1).
    change (Qred ((1 # 2) + 0)) with (1 # 2)%Q. rewrite Hz.
    cbn [fbetween]. split; lra.
  - destruct (Hcase (3 # 4)%Q 1%Q ltac:(vm_compute; reflexivity)
                ltac:(vm_compute; reflexivity) ltac:(reflexivity))
      as (z & Hz & Hz0 & Hz1).
    change (Qred ((1 # 2) + (1 # 4))) with (3 # 4)%Q. rewrite Hz.
    cbn [fbetween]. split; lra.
Qed.

(** Scaling keeps the order of values in [[0, 1]]. *)
Lemma scale_monotone (state : UpdateThread.State) (isDownload : bool)
    (a b : cfloat) :
  fbetween 0 1 a -> fbetween 0 1 b -> fle a b ->
  fle (scale state isDownload a) (scale state isDownload b).
Proof.
  intros Ha Hb.
  pose proof (scale_between state isDownload a Ha) as Sa.
  pose proof (scale_between state isDownload b Hb) as Sb.
  destruct a as [x| |], b as [y| |]; cbn [fle fbetween] in *;
    try contradiction.
  intros Hxy. destruct Ha as [Ha0 Ha1]. destruct Hb as [Hb0 Hb1].
  rewrite !scale_base in *.
  destruct (fdiv4_between x Ha0 Ha1) as (x' & Hx' & _).
  destruct (fdiv4_between y Hb0 Hb1) as (y' & Hy' & _).
  assert (Hq : (x' <= y')%Q).
  { pose proof (round_monotone 24 (-149) 128 ltac:(lia)
                  (x * (1 # 4)) (y * (1 # 4)) ltac:(lra)) as M.
    rewrite fdiv4_num in Hx', Hy'. unfold round32 in Hx', Hy'.
    rewrite Hx', Hy' in M. exact M. }
  rewrite Hx', Hy' in *. cbn [fadd] in *.
  pose proof (round_monotone 24 (-149) 128 ltac:(lia)
                (Qred (quarter state isDownload) + x')
                (Qred (quarter state isDownload) + y') ltac:(lra)) as M.
  fold round32 in M.
  destruct (round32 (Qred (quarter state isDownload) + x')) as [za| |];
    destruct (round32 (Qred (quarter state isDownload) + y')) as [zb| |];
    cbn [fbetween fle fle_ext] in *; try contradiction.
  exact M.
Qed.

Lemma nondecreasing_map_scale (state : UpdateThread.State) (isDownload : bool)
    (l : list cfloat) :
  Forall (fbetween 0 1) l ->
  nondecreasing l -> nondecreasing (List.map (scale state isDownload) l).
Proof.
  induction l as [|a [|b rest] IH]; cbn [List.map nondecreasing]; auto.
  intros HF [Hab Hrest].
  pose proof (Forall_inv HF) as Ha.
  pose proof (Forall_inv (Forall_inv_tail HF)) as Hb.
  split; [apply scale_monotone; assumption|].
  apply IH; [exact (Forall_inv_tail HF)|exact Hrest].
Qed.

Lemma fbetween_weaken (lo hi lo' hi' : Q) (v : cfloat) :
  (lo' <= lo)%Q -> (hi <= hi')%Q -> fbetween lo hi v -> fbetween lo' hi' v.
Proof.
  intros Hlo Hhi. destruct v as [q| |]; cbn [fbetween]; try contradiction.
  intros [H1 H2]. split; lra.
Qed.

(** Two non-decreasing runs, the first below a bound and the second above
    it, make a non-decreasing run. *)
Lemma nondecreasing_app (lo mid hi : Q) (l1 l2 : list cfloat) :
  nondecreasing l1 -> nondecreasing l2 ->
  Forall (fbetween lo mid) l1 -> Forall (fbetween mid hi) l2 ->
  nondecreasing (l1 ++ l2).
Proof.
  intros H1 H2 F1 F2. induction l1 as [|a [|b rest] IH].
  - exact H2.
  - cbn [app]. destruct l2 as [|c l2']; [exact I|].
    cbn [nondecreasing]. split; [|exact H2].
    apply Forall_inv in F1. apply Forall_inv in F2.
    destruct a as [x| |], c as [y| |]; cbn [fbetween fle] in *;
      try contradiction. lra.
  - cbn [app nondecreasing] in *. destruct H1 as [Hab Hrest].
    split; [exact Hab|]. apply IH; [exact Hrest|].
    inversion F1; assumption.
Qed.

Lemma nondecreasing_prefix (l1 l2 : list cfloat) :
  nondecreasing (l1 ++ l2) -> nondecreasing l1.
Proof.
  induction l1 as [|a [|b rest] IH]; cbn [app nondecreasing]; auto.
  intros [Hab Hrest]. split; [exact Hab|]. apply IH. exact Hrest.
Qed.

(** A loop whose slots emit by the signal alone emits what the signals it
    handled call for: those up to the one whose slot quits. *)
Lemma QEventLoop_exec_prefix {S E : Type}
    (slot : Signal -> S -> S * bool * list E) (f : Signal -> list E) :
  (forall sig s, snd (slot sig s) = f sig) ->
  forall signals s,
    exists handled rest,
      signals = (handled ++ rest)%list
      /\ snd (QEventLoop_exec slot signals s) = flat_map f handled.
Proof.
  intros Hslot. induction signals as [|sig signals IH]; intros s.
  - exists [], []. split; reflexivity.
  - cbn [QEventLoop_exec]. specialize (Hslot sig s).
    destruct (slot sig s) as [[s' quit] out]. cbn [snd] in Hslot. subst out.
    destruct quit.
    + exists [sig], signals. split; [reflexivity|].
      cbn [flat_map snd]. rewrite app_nil_r. reflexivity.
    + destruct (IH s') as (handled & rest & -> & Hout).
      destruct (QEventLoop_exec slot (handled ++ rest) s') as [s'' out'].
      cbn [snd] in *. subst out'.
      exists (sig :: handled), rest. split; reflexivity.
Qed.

Lemma delta_slot_emits (L : EngineLibs) (state : UpdateThread.State)
    (sig : Signal) (d : UpdateThread.DeltaLocals L) :
  snd (UpdateThread.delta_slot L state sig d) = download_signal state sig.
Proof.
  destruct sig as [replyError data| | |r t]; cbn [UpdateThread.delta_slot];
    try reflexivity.
  destruct replyError; [reflexivity|].
  destruct (DecodeChunkToInterface L _ _ _ _ _) as [[ok dec] out].
  destruct ok; reflexivity.
Qed.

Lemma full_slot_emits (state : UpdateThread.State)
    (sig : Signal) (f : UpdateThread.FullLocals) :
  snd (UpdateThread.full_slot state sig f) = download_signal state sig.
Proof.
  destruct sig as [replyError data| | |r t]; cbn [UpdateThread.full_slot];
    try reflexivity.
  destruct replyError; reflexivity.
Qed.

Lemma values_app (a b : list UpdateThread.Emitted) :
  values (a ++ b) = (values a ++ values b)%list.
Proof. apply flat_map_app. Qed.

Lemma values_download (state : UpdateThread.State) (signals : list Signal) :
  values (flat_map (download_signal state) signals)
  = List.map (scale state true) (reported signals).
Proof.
  induction signals as [|sig signals IH]; [reflexivity|].
  cbn [flat_map]. rewrite values_app, IH. unfold reported at 2.
  cbn [flat_map]. rewrite map_app. f_equal.
  destruct sig as [replyError data| | |r t]; try reflexivity.
  cbn [download_signal]. rewrite emitProgress_scale.
  destruct (flt0 _ || fgt1 _); reflexivity.
Qed.

Lemma reported_app (a b : list Signal) :
  reported (a ++ b) = (reported a ++ reported b)%list.
Proof. apply flat_map_app. Qed.

Lemma qint64_counts_tail (sig : Signal) (signals : list Signal) :
  qint64_counts (sig :: signals) -> qint64_counts signals.
Proof. intros H r t Hin. apply H. right. exact Hin. Qed.

Lemma qint64_counts_prefix (a b : list Signal) :
  qint64_counts (a ++ b) -> qint64_counts a.
Proof. intros H r t Hin. apply H. apply in_or_app. left. exact Hin. Qed.

(** Apart from the NaN of [downloadProgress(0, 0)], what passes the test
    of [emitProgress] is a number in [[0, 1]]. *)
Lemma reported_between (signals : list Signal) :
  qint64_counts signals ->
  ~ In (QNetworkReply.downloadProgress 0 0) signals ->
  Forall (fbetween 0 1) (reported signals).
Proof.
  induction signals as [|sig signals IH]; intros Hfit Hn; [constructor|].
  unfold reported. cbn [flat_map]. apply Forall_app. split.
  - destruct sig as [replyError data| | |r t]; try constructor.
    destruct (Hfit r t ltac:(left; reflexivity)) as [Hr Ht].
    destruct (float_of_int_finite r ltac:(lia))
      as (x & Hx & Hx0 & Hx1 & Hx0' & Hx1').
    destruct (float_of_int_finite t ltac:(lia))
      as (y & Hy & Hy0 & Hy1 & Hy0' & Hy1').
    unfold float_div. rewrite Hx, Hy. cbn [fdiv].
    destruct (Qeq_bool y 0) eqn:Ey.
    + apply Qeq_bool_iff in Ey.
      assert (t = 0).
      { destruct (Z.lt_trichotomy t 0) as [H|[H|H]]; [|exact H|].
        - specialize (Hy1' ltac:(lia)). lra.
        - specialize (Hy1 ltac:(lia)). lra. }
      subst t.
      destruct (Qeq_bool x 0) eqn:Ex.
      * apply Qeq_bool_iff in Ex.
        assert (r = 0).
        { destruct (Z.lt_trichotomy r 0) as [H|[H|H]]; [|exact H|].
          - specialize (Hx1' ltac:(lia)). lra.
          - specialize (Hx1 ltac:(lia)). lra. }
        subst r. exfalso. apply Hn. left. reflexivity.
      * cbn [flt0 fgt1]. destruct (negb (Qle_bool 0 x)); constructor.
    + pose proof (round_not_nan 24 (-149) 128 (x / y)) as Hnan.
      fold round32 in Hnan.
      destruct (round32 (x / y)) as [q|s|]; [| |contradiction].
      * cbn [flt0 fgt1].
        destruct (Qle_bool 0 q) eqn:H0; cbn [negb orb]; [|constructor].
        destruct (Qle_bool q 1) eqn:H1; cbn [negb]; [|constructor].
        constructor; [|constructor]. cbn [fbetween].
        split; apply Qle_bool_iff; assumption.
      * cbn [flt0 fgt1]. destruct s; constructor.
  - apply IH; [exact (qint64_counts_tail _ _ Hfit)|].
    intros H. apply Hn. right. exact H.
Qed.

(** *** The loop of verifyImage *)

Lemma hash_loop_emits (n : nat) (state : UpdateThread.State) (image_size : Z) :
  forall pos buf hash,
    snd (UpdateThread.hash_loop n state image_size pos buf hash)
    = flat_map (fun p => UpdateThread.emitProgress state false
                           (float_div p image_size))
        (chunk_ends n image_size pos).
Proof.
  induction n as [|n IH]; intros pos buf hash; [reflexivity|].
  cbn [UpdateThread.hash_loop chunk_ends].
  destruct (pos <? image_size); [|reflexivity].
  match goal with
  | |- context [UpdateThread.hash_loop n state image_size ?p ?b ?h] =>
      specialize (IH p b h);
      destruct (UpdateThread.hash_loop n state image_size p b h) as [h' o']
  end.
  cbn [snd flat_map] in *. rewrite IH. reflexivity.
Qed.

(** The positions grow and stay within the image. *)
Lemma chunk_ends_bounds (n : nat) (image_size : Z) :
  forall pos, 0 <= pos <= image_size ->
    Forall (fun p => pos < p <= image_size) (chunk_ends n image_size pos).
Proof.
  induction n as [|n IH]; intros pos Hpos; [constructor|].
  cbn [chunk_ends]. destruct (Z.ltb_spec pos image_size); [|constructor].
  set (pos' := pos + Z.min (1024 * 1024) (image_size - pos)).
  assert (Hp : pos < pos' <= image_size) by (unfold pos'; lia).
  constructor; [exact Hp|].
  specialize (IH pos' ltac:(lia)).
  eapply Forall_impl; [|exact IH]. cbn beta. intros p Hq. lia.
Qed.

Lemma inject_Z_nonneg (z : Z) : 0 <= z -> (0 <= inject_Z z)%Q.
Proof.
  intros H. change 0%Q with (inject_Z 0). rewrite <- Zle_Qle. exact H.
Qed.

Lemma float_div_between (p s : Z) :
  0 <= p <= s -> 0 < s -> s <= 2 ^ 64 ->
  exists q, float_div p s = FNum q /\ (0 <= q)%Q /\ (q <= 1)%Q.
Proof.
  intros Hp Hs Hmax.
  destruct (float_of_int_finite p ltac:(lia)) as (x & Hx & Hx0 & _).
  destruct (float_of_int_finite s ltac:(lia)) as (y & Hy & _ & Hy1 & _).
  specialize (Hx0 ltac:(lia)). specialize (Hy1 ltac:(lia)).
  pose proof (float_of_int_monotone p s x y ltac:(lia) Hx Hy) as Hxy.
  unfold float_div. rewrite Hx, Hy. cbn [fdiv].
  destruct (Qeq_bool y 0) eqn:Ey; [apply Qeq_bool_iff in Ey; lra|].
  destruct (Qdiv_between_0_1 x y Hx0 Hxy ltac:(lra)) as [Hq0 Hq1].
  exact (round_between 24 (-149) 128 ltac:(lia) 0 1 0 1 (x / y)
           ltac:(vm_compute; reflexivity) ltac:(vm_compute; reflexivity)
           Hq0 Hq1).
Qed.

Lemma float_div_monotone (p p' s : Z) :
  0 <= p <= p' -> p' <= s -> 0 < s -> s <= 2 ^ 64 ->
  fle (float_div p s) (float_div p' s).
Proof.
  intros Hp Hp' Hs Hmax.
  destruct (float_div_between p s ltac:(lia) Hs Hmax) as (q & Hq & _).
  destruct (float_div_between p' s ltac:(lia) Hs Hmax) as (q' & Hq' & _).
  rewrite Hq, Hq'. cbn [fle].
  destruct (float_of_int_finite p ltac:(lia)) as (x & Hx & Hx0 & _).
  destruct (float_of_int_finite p' ltac:(lia)) as (x' & Hx' & _).
  destruct (float_of_int_finite s ltac:(lia)) as (y & Hy & _ & Hy1 & _).
  specialize (Hy1 ltac:(lia)).
  pose proof (float_of_int_monotone p p' x x' ltac:(lia) Hx Hx') as Hxx.
  unfold float_div in Hq, Hq'. rewrite Hx, Hy in Hq. rewrite Hx', Hy in Hq'.
  cbn [fdiv] in Hq, Hq'.
  destruct (Qeq_bool y 0) eqn:Ey; [apply Qeq_bool_iff in Ey; lra|].
  assert (Hdiv : (x / y <= x' / y)%Q).
  { unfold Qdiv. apply Qmult_le_compat_r; [exact Hxx|].
    apply Qinv_le_0_compat. lra. }
  pose proof (round_monotone 24 (-149) 128 ltac:(lia) _ _ Hdiv) as M.
  unfold round32 in Hq, Hq'. rewrite Hq, Hq' in M. exact M.
Qed.

Lemma float_div_passes (p s : Z) :
  0 <= p <= s -> 0 < s -> s <= 2 ^ 64 ->
  flt0 (float_div p s) || fgt1 (float_div p s) = false.
Proof.
  intros Hp Hs Hmax.
  destruct (float_div_between p s Hp Hs Hmax) as (q & -> & H0 & H1).
  cbn [flt0 fgt1].
  apply Qle_bool_iff in H0. apply Qle_bool_iff in H1.
  rewrite H0, H1. reflexivity.
Qed.

(** The verification of an image emits non-decreasing values in the
    verification quarter of its kind. *)
Lemma verify_values (state : UpdateThread.State) (n : nat) (image_size : Z) :
  image_size <= 2 ^ 64 ->
  forall pos, 0 <= pos <= image_size ->
    let vs := values (flat_map
                        (fun p => UpdateThread.emitProgress state false
                                    (float_div p image_size))
                        (chunk_ends n image_size pos)) in
    Forall (fbetween (quarter state false) (quarter state false + (1 # 4))) vs
    /\ nondecreasing vs
    /\ Forall (fle (scale state false (float_div pos image_size))) vs.
Proof.
  intros Hmax.
  induction n as [|n IH]; intros pos Hpos; cbn zeta.
  - cbn [chunk_ends flat_map values]. repeat split; constructor.
  - cbn [chunk_ends]. destruct (Z.ltb_spec pos image_size) as [Hlt|];
      [|cbn [flat_map values]; repeat split; constructor].
    set (pos' := pos + Z.min (1024 * 1024) (image_size - pos)).
    assert (Hp : pos < pos' <= image_size) by (unfold pos'; lia).
    destruct (IH pos' ltac:(lia)) as (Hb & Hn & Hf). cbn zeta in *.
    cbn [flat_map]. rewrite values_app, emitProgress_scale.
    rewrite float_div_passes by lia.
    cbn [values flat_map app].
    set (rest := values _) in *.
    assert (Hin : forall p, 0 <= p <= image_size ->
              fbetween 0 1 (float_div p image_size)).
    { intros p Hpp.
      destruct (float_div_between p image_size Hpp ltac:(lia) Hmax)
        as (q & -> & H0 & H1). split; assumption. }
    assert (Hstep : fle (scale state false (float_div pos image_size))
                        (scale state false (float_div pos' image_size))).
    { apply scale_monotone; [apply Hin; lia|apply Hin; lia|].
      apply float_div_monotone; lia. }
    assert (Htrans : forall a b c, fle a b -> fle b c -> fle a c).
    { intros [a| |] [b| |] [c| |]; cbn [fle]; try contradiction.
      intros; lra. }
    split; [|split].
    + constructor; [apply scale_between; apply Hin; lia|exact Hb].
    + destruct rest as [|b rest']; [exact I|].
      cbn [nondecreasing]. split; [|exact Hn].
      apply Forall_inv in Hf. exact Hf.
    + constructor; [exact Hstep|].
      eapply Forall_impl; [|exact Hf]. intros c Hc.
      exact (Htrans _ _ _ Hstep Hc).
Qed.

Lemma ALIGN_TO_lt (l ali : Z) : ImageReader.ALIGN_TO l ali < 2 ^ 64.
Proof.
  unfold ImageReader.ALIGN_TO.
  set (a := wrap64 (l + ali - 1)). set (b := wrap64 (Z.lnot (wrap64 (ali - 1)))).
  assert (Ha : 0 <= a < 2 ^ 64) by (apply Z.mod_pos_bound; lia).
  assert (Hb : 0 <= b < 2 ^ 64) by (apply Z.mod_pos_bound; lia).
  assert (H0 : 0 <= Z.land a b) by (apply Z.land_nonneg; left; lia).
  destruct (Z.eq_dec (Z.land a b) 0) as [->|Hne]; [lia|].
  destruct (Z.eq_dec a 0) as [Ha0|Ha0];
    [rewrite Ha0, Z.land_0_l in Hne; contradiction|].
  apply Z.log2_lt_pow2; [lia|].
  pose proof (Z.log2_land a b ltac:(lia) ltac:(lia)) as Hl.
  assert (Z.log2 a < 64) by (apply Z.log2_lt_pow2; lia).
  lia.
Qed.

(** The [imageSize] a successful [open()] leaves fits 64 bits. *)
Lemma open_imageSize_lt (fs : FileSystem) (ty : ImageReader.ImageType)
    (path : string) (r : ImageReader.t) :
  ImageReader.open fs (ImageReader.new ty path) = (true, r) ->
  ImageReader.imageSize r < 2 ^ 64.
Proof.
  unfold ImageReader.open.
  cbn [ImageReader.new ImageReader.isOpen ImageReader.fileName].
  destruct (fs path) as [ino|]; [|discriminate].
  destruct (i_readable ino); [|discriminate]. cbn [negb].
  destruct (i_fstat_fails ino); [discriminate|].
  intros H.
  destruct ty;
    cbn [ImageReader.type ImageReader.with_open ImageReader.new] in H;
    [| |discriminate].
  - destruct (Nat.eqb _ _); [|discriminate]. cbn [negb] in H.
    destruct (_ =? _); [|discriminate]. cbn [negb] in H.
    apply check_fileSize_true in H. destruct H as [-> _].
    cbn [ImageReader.with_imageSize ImageReader.imageSize].
    apply ALIGN_TO_lt.
  - destruct (Nat.eqb _ _); [|discriminate]. cbn [negb] in H.
    destruct (_ || _); [discriminate|].
    apply check_fileSize_true in H. destruct H as [-> _].
    cbn [ImageReader.with_imageSize ImageReader.imageSize].
    unfold wrap64. apply Z.mod_pos_bound. lia.
Qed.

Lemma verifyImage_values (L : EngineLibs) (state : UpdateThread.State)
    (fs : FileSystem) (ty : ImageReader.ImageType) (path expected : string) :
  let vs := values (snd (UpdateThread.verifyImage L state fs ty path expected)) in
  Forall (fbetween (quarter state false) (quarter state false + (1 # 4))) vs
  /\ nondecreasing vs.
Proof.
  cbn zeta. rewrite verifyImage_spec.
  destruct (ImageReader.open _ _) as [[|] r] eqn:Ho;
    [|destruct (fs path); cbn [snd values flat_map]; split; constructor].
  destruct (open_true fs ty path r Ho) as (ino & Hfs & _ & _ & _ & Hsz).
  pose proof (open_imageSize_lt fs ty path r Ho) as Hmax.
  rewrite Hfs. cbn [snd]. unfold verify_progress.
  rewrite hash_loop_emits.
  destruct (verify_values state
              (UpdateThread.hash_loop_bound (ImageReader.imageSize r))
              (ImageReader.imageSize r) ltac:(lia) 0 ltac:(lia))
    as (Hb & Hn & _).
  split; assumption.
Qed.

(** *** The two download loops *)

Lemma downloadDeltaImage_world (L : EngineLibs) (state : UpdateThread.State)
    (w : World) (deltaUrl : string) (dict : ImageReader.t)
    (outputPath : string) :
  let w' :=
    snd (fst (fst (UpdateThread.downloadDeltaImage L state w deltaUrl dict
                     outputPath))) in
  replies w' = tl (replies w)
  /\ requests w' = (requests w ++ [(DeltaRequest, deltaUrl)])%list.
Proof.
  cbn zeta. unfold UpdateThread.downloadDeltaImage. cbn [net_get].
  destruct (UpdateWriter.open _ _ _) as [[opened fs1] output].
  destruct opened; cbn [negb]; [|split; reflexivity].
  destruct (ImageReader.map fs1 dict) as [[buf|] dict'];
    [|split; reflexivity].
  destruct (QEventLoop_exec _ _ _) as [d out]. split; reflexivity.
Qed.

Lemma downloadFullImage_world (state : UpdateThread.State)
    (w : World) (url outputPath : string) :
  let w' := snd (fst (UpdateThread.downloadFullImage state w url outputPath)) in
  replies w' = tl (replies w)
  /\ requests w' = (requests w ++ [(FullRequest, url)])%list.
Proof.
  cbn zeta. unfold UpdateThread.downloadFullImage. cbn [net_get].
  destruct (UpdateWriter.open _ _ _) as [[opened fs1] output].
  destruct opened; cbn [negb]; [|split; reflexivity].
  destruct (QEventLoop_exec _ _ _) as [d out]. split; reflexivity.
Qed.

Lemma downloadDeltaImage_handled (L : EngineLibs) (state : UpdateThread.State)
    (w : World) (deltaUrl : string) (dict : ImageReader.t)
    (outputPath : string) :
  exists handled rest,
    hd [] (replies w) = (handled ++ rest)%list
    /\ snd (UpdateThread.downloadDeltaImage L state w deltaUrl dict outputPath)
       = flat_map (download_signal state) handled.
Proof.
  unfold UpdateThread.downloadDeltaImage. cbn [net_get].
  destruct (UpdateWriter.open _ _ _) as [[opened fs1] output].
  destruct opened; cbn [negb];
    [|exists [], (hd [] (replies w)); split; reflexivity].
  destruct (ImageReader.map fs1 dict) as [[buf|] dict'];
    [|exists [], (hd [] (replies w)); split; reflexivity].
  match goal with
  | |- context [QEventLoop_exec ?slot ?sigs ?s] =>
      destruct (QEventLoop_exec_prefix slot (download_signal state)
                  (delta_slot_emits L state) sigs s)
        as (handled & rest & Hsplit & Hout);
      destruct (QEventLoop_exec slot sigs s) as [d out]
  end.
  exists handled, rest. split; [exact Hsplit|exact Hout].
Qed.

Lemma downloadFullImage_handled (state : UpdateThread.State)
    (w : World) (url outputPath : string) :
  exists handled rest,
    hd [] (replies w) = (handled ++ rest)%list
    /\ snd (UpdateThread.downloadFullImage state w url outputPath)
       = flat_map (download_signal state) handled.
Proof.
  unfold UpdateThread.downloadFullImage. cbn [net_get].
  destruct (UpdateWriter.open _ _ _) as [[opened fs1] output].
  destruct opened; cbn [negb];
    [|exists [], (hd [] (replies w)); split; reflexivity].
  match goal with
  | |- context [QEventLoop_exec ?slot ?sigs ?s] =>
      destruct (QEventLoop_exec_prefix slot (download_signal state)
                  (full_slot_emits state) sigs s)
        as (handled & rest & Hsplit & Hout);
      destruct (QEventLoop_exec slot sigs s) as [d out]
  end.
  exists handled, rest. split; [exact Hsplit|exact Hout].
Qed.

(** What a download loop emits lies in the download quarter of its kind,
    and is non-decreasing when the reported fractions are. *)
Lemma handled_values (state : UpdateThread.State)
    (reply handled rest : list Signal) (out : list UpdateThread.Emitted) :
  reply = (handled ++ rest)%list ->
  out = flat_map (download_signal state) handled ->
  qint64_counts reply ->
  ~ In (QNetworkReply.downloadProgress 0 0) reply ->
  Forall (fbetween (quarter state true) (quarter state true + (1 # 4)))
    (values out)
  /\ (nondecreasing (reported reply) -> nondecreasing (values out)).
Proof.
  intros -> -> Hfit Hn. rewrite values_download.
  assert (Hh : ~ In (QNetworkReply.downloadProgress 0 0) handled)
    by (intros H; apply Hn; apply in_or_app; left; exact H).
  pose proof (reported_between handled (qint64_counts_prefix _ _ Hfit) Hh)
    as Hb.
  split.
  - apply Forall_map.
    eapply Forall_impl; [|exact Hb].
    intros v Hv. apply scale_between. exact Hv.
  - intros Hs. apply nondecreasing_map_scale; [exact Hb|].
    rewrite reported_app in Hs. exact (nondecreasing_prefix _ _ Hs).
Qed.

Lemma hd_replies (P : list Signal -> Prop) (l : list (list Signal)) :
  P [] -> (forall reply, In reply l -> P reply) -> P (hd [] l).
Proof.
  intros Hnil Hall. destruct l as [|x l]; [exact Hnil|].
  apply Hall. left. reflexivity.
Qed.

Lemma incl_tl_replies (l : list (list Signal)) : incl (tl l) l.
Proof. destruct l as [|x l]; [apply incl_refl|apply incl_tl, incl_refl]. Qed.

(** *** One kind *)

Lemma full_requests_app (a b : list (RequestKind * string)) :
  full_requests (a ++ b) = (full_requests a ++ full_requests b)%list.
Proof. apply filter_app. Qed.

Lemma quarter_verify (state : UpdateThread.State) :
  (quarter state false == quarter state true + (1 # 4))%Q.
Proof. unfold quarter. destruct state; ring. Qed.

Lemma Forall_between_weaken (lo hi lo' hi' : Q) (l : list cfloat) :
  (lo' <= lo)%Q -> (hi <= hi')%Q ->
  Forall (fbetween lo hi) l -> Forall (fbetween lo' hi') l.
Proof.
  intros Hlo Hhi H. eapply Forall_impl; [|exact H].
  intros v. apply fbetween_weaken; assumption.
Qed.

Lemma full_request_is_new (l : list (RequestKind * string))
    (r : RequestKind * string) :
  (l ++ [r])%list <> l.
Proof.
  intros H. apply (f_equal (@List.length _)) in H.
  rewrite length_app in H. cbn [List.length] in H. lia.
Qed.

(** The progress of one kind: every value lies in the half of the kind;
    and the values are non-decreasing as long as the fractions each reply
    reports are and no full-image request follows progress of the kind. *)
Lemma kind_progress (L : EngineLibs) (state : UpdateThread.State) (w : World)
    (ty : ImageReader.ImageType)
    (dictionaryPath outputPath fullImageUrl deltaImageUrl sha : string) :
  (forall reply, In reply (replies w) -> qint64_counts reply) ->
  (forall reply, In reply (replies w) ->
     ~ In (QNetworkReply.downloadProgress 0 0) reply) ->
  let result :=
    UpdateThread.downloadAndVerify L state w ty dictionaryPath outputPath
      fullImageUrl deltaImageUrl sha in
  let vs := values (snd result) in
  Forall (fbetween (quarter state true) (quarter state true + (1 # 2))) vs
  /\ incl (replies (snd (fst result))) (replies w)
  /\ ((fell_back w (snd (fst result)) ->
       values (before_fallback L state w ty dictionaryPath outputPath
                 deltaImageUrl sha) = []) ->
      (forall reply, In reply (replies w) -> nondecreasing (reported reply)) ->
      nondecreasing vs).
Proof.
  intros Hfit Hnan result vs. subst vs result.
  unfold before_fallback, fell_back. cbn zeta.
  rewrite downloadAndVerify_paths.
  set (dict := ImageReader.open (fs w) (ImageReader.new ty dictionaryPath)).
  set (delta := UpdateThread.downloadDeltaImage L state w deltaImageUrl
                  (snd dict) outputPath).
  set (w1 := if fst dict then snd (fst (fst delta)) else w).
  set (out1 := if fst dict then snd delta else []).
  set (verify1 := UpdateThread.verifyImage L state (fs w1) ty outputPath sha).
  set (full := UpdateThread.downloadFullImage state w1 fullImageUrl outputPath).
  set (w3 := snd (fst full)).
  set (verify2 := UpdateThread.verifyImage L state (fs w3) ty outputPath sha).
  set (lo := quarter state true).
  pose proof (quarter_verify state) as Hq. fold lo in Hq.
  (* the delta download *)
  destruct (downloadDeltaImage_world L state w deltaImageUrl (snd dict)
              outputPath) as [Hrep1 Hreq1].
  fold delta in Hrep1, Hreq1.
  assert (Hincl1 : incl (replies w1) (replies w)).
  { subst w1. destruct (fst dict); [|apply incl_refl].
    rewrite Hrep1. apply incl_tl_replies. }
  assert (Hfull1 : full_requests (requests w1) = full_requests (requests w)).
  { subst w1. destruct (fst dict); [|reflexivity].
    rewrite Hreq1, full_requests_app. cbn. apply app_nil_r. }
  assert (Hout1 :
    Forall (fbetween lo (lo + (1 # 4))) (values out1)
    /\ ((forall reply, In reply (replies w) -> nondecreasing (reported reply))
        -> nondecreasing (values out1))).
  { subst out1. destruct (fst dict); [|split; [constructor|intros _; exact I]].
    destruct (downloadDeltaImage_handled L state w deltaImageUrl (snd dict)
                outputPath) as (handled & rest & Hhd & Hout).
    fold delta in Hout.
    destruct (handled_values state _ handled rest (snd delta) Hhd Hout)
      as [Hb Hs].
    - apply (hd_replies qint64_counts); [intros r t []|exact Hfit].
    - apply hd_replies; [intros []|exact Hnan].
    - split; [exact Hb|].
      intros Hmono. apply Hs.
      apply (hd_replies (fun r => nondecreasing (reported r)));
        [exact I|exact Hmono]. }
  destruct Hout1 as [Hb1 Hs1].
  (* the first verification *)
  destruct (verifyImage_values L state (fs w1) ty outputPath sha)
    as [Hbv1 Hsv1].
  fold verify1 in Hbv1, Hsv1. cbn zeta in Hbv1, Hsv1.
  assert (Hq1 : (lo + (1 # 4) <= quarter state false)%Q) by lra.
  assert (Hq2 : (quarter state false + (1 # 4) <= lo + (1 # 2))%Q) by lra.
  assert (Hq3 : (lo <= quarter state false)%Q) by lra.
  pose proof (Forall_between_weaken _ _ (lo + (1 # 4)) (lo + (1 # 2)) _
                Hq1 Hq2 Hbv1) as Hbv1q.
  clear Hbv1. rename Hbv1q into Hbv1.
  (* the full download *)
  destruct (downloadFullImage_world state w1 fullImageUrl outputPath)
    as [Hrep3 Hreq3].
  fold full in Hrep3, Hreq3. fold w3 in Hrep3, Hreq3.
  assert (Hincl3 : incl (replies w3) (replies w)).
  { rewrite Hrep3. eapply incl_tran; [apply incl_tl_replies|exact Hincl1]. }
  assert (Hfull3 : full_requests (requests w3)
                   <> full_requests (requests w)).
  { rewrite Hreq3, full_requests_app, Hfull1. apply full_request_is_new. }
  assert (Hout3 :
    Forall (fbetween lo (lo + (1 # 4))) (values (snd full))
    /\ ((forall reply, In reply (replies w) -> nondecreasing (reported reply))
        -> nondecreasing (values (snd full)))).
  { destruct (downloadFullImage_handled state w1 fullImageUrl outputPath)
      as (handled & rest & Hhd & Hout).
    fold full in Hout.
    destruct (handled_values state _ handled rest (snd full) Hhd Hout)
      as [Hb Hs].
    - apply (hd_replies qint64_counts); [intros r t []|].
      intros reply Hin. apply Hfit. apply Hincl1. exact Hin.
    - apply hd_replies; [intros []|].
      intros reply Hin. apply Hnan. apply Hincl1. exact Hin.
    - split; [exact Hb|].
      intros Hmono. apply Hs.
      apply (hd_replies (fun r => nondecreasing (reported r))); [exact I|].
      intros reply Hin. apply Hmono. apply Hincl1. exact Hin. }
  destruct Hout3 as [Hb3 Hs3].
  (* the second verification *)
  destruct (verifyImage_values L state (fs w3) ty outputPath sha)
    as [Hbv2 Hsv2].
  fold verify2 in Hbv2, Hsv2. cbn zeta in Hbv2, Hsv2.
  pose proof (Forall_between_weaken _ _ (lo + (1 # 4)) (lo + (1 # 2)) _
                Hq1 Hq2 Hbv2) as Hbv2q.
  clear Hbv2. rename Hbv2q into Hbv2.
  assert (Hlo : (lo <= lo)%Q) by lra.
  assert (Hhi : (lo + (1 # 4) <= lo + (1 # 2))%Q) by lra.
  assert (Hmid : (lo <= lo + (1 # 4))%Q) by lra.
  assert (Hhi' : (lo + (1 # 2) <= lo + (1 # 2))%Q) by lra.
  pose proof (Forall_between_weaken _ _ lo (lo + (1 # 2)) _
                Hlo Hhi Hb1) as Hb1'.
  pose proof (Forall_between_weaken _ _ lo (lo + (1 # 2)) _
                Hmid Hhi' Hbv1) as Hbv1'.
  pose proof (Forall_between_weaken _ _ lo (lo + (1 # 2)) _
                Hlo Hhi Hb3) as Hb3'.
  pose proof (Forall_between_weaken _ _ lo (lo + (1 # 2)) _
                Hmid Hhi' Hbv2) as Hbv2'.
  (* a fallback that follows no progress *)
  assert (Hquiet : (values out1 ++ values (snd verify1))%list = [] ->
                   values out1 = [] /\ values (snd verify1) = []).
  { intros H. apply app_eq_nil in H. exact H. }
  destruct (fst dict && negb (fst (fst (fst delta)))); cbn [fst snd].
  { (* the delta attempt failed *)
    split; [exact Hb1'|]. split; [exact Hincl1|].
    intros _ Hmono. apply Hs1. exact Hmono. }
  destruct (fst verify1); cbn [fst snd].
  { (* accepted after the first verification *)
    rewrite values_app.
    split; [apply Forall_app; split; assumption|].
    split; [exact Hincl1|].
    intros _ Hmono.
    apply (nondecreasing_app lo (lo + (1 # 4)) (lo + (1 # 2)));
      [apply Hs1; exact Hmono|exact Hsv1|exact Hb1|exact Hbv1]. }
  destruct (negb (fst (fst full))); cbn [fst snd].
  { (* the full download failed *)
    rewrite !values_app.
    split; [repeat (apply Forall_app; split); assumption|].
    split; [exact Hincl3|].
    intros Hbefore Hmono.
    destruct (Hquiet (Hbefore Hfull3)) as [-> ->]. cbn [app].
    apply Hs3. exact Hmono. }
  (* the full download ended; second verification *)
  rewrite !values_app.
  split; [repeat (apply Forall_app; split); assumption|].
  split; [exact Hincl3|].
  intros Hbefore Hmono.
  destruct (Hquiet (Hbefore Hfull3)) as [-> ->]. cbn [app].
  apply (nondecreasing_app lo (lo + (1 # 4)) (lo + (1 # 2)));
    [apply Hs3; exact Hmono|exact Hsv2|exact Hb3|exact Hbv2].
Qed.

(** *** The whole run *)

Lemma progress_values_connected (out : list UpdateThread.Emitted) :
  progress_values (flat_map Updater.connected out) = values out.
Proof.
  induction out as [|e out IH]; [reflexivity|].
  cbn [flat_map]. unfold progress_values in *. rewrite flat_map_app, IH.
  destruct e; reflexivity.
Qed.

(** C3 (as amended).  Within a single install, as long as the byte counts
    reported are [qint64] values and no [downloadProgress] signal reports 0
    of 0 bytes (whose quotient is NaN), every emitted [updateProgress]
    value lies in [[0, 1]].  The sequence of values is non-decreasing
    provided the fractions each reply reports are, and provided no kind
    turns to its full-image download after progress of that kind has been
    emitted: a full-image download that follows the progress of a delta
    download or of a verification restarts from the download quarter of
    its kind.  A run of full-image downloads alone is covered. *)
Theorem C3_progress_bounds_and_order
    (L : EngineLibs) (u : Updater.t) (w : World) :
  (forall reply, In reply (replies w) -> qint64_counts reply) ->
  (forall reply, In reply (replies w) ->
     ~ In (QNetworkReply.downloadProgress 0 0) reply) ->
  let machine := Updater.machine u in
  let update := Updater.availableUpdate u in
  let boot := boot_phase L machine update w in
  let rootfs := rootfs_phase L machine update w in
  let vs := progress_values (snd (Updater.install L u w)) in
  Forall (fbetween 0 1) vs
  /\ ((forall reply, In reply (replies w) -> nondecreasing (reported reply)) ->
      (fell_back w (snd (fst boot)) ->
       values (boot_before_fallback L machine update w) = []) ->
      (fst (fst boot) = true ->
       fell_back (snd (fst boot)) (snd (fst rootfs)) ->
       values (rootfs_before_fallback L machine update w) = []) ->
      nondecreasing vs).
Proof.
  intros Hfit Hnan machine update boot rootfs vs. subst vs.
  unfold Updater.install. fold update machine.
  destruct (version update =? 0).
  { cbn. split; [constructor|intros _ _ _; exact I]. }
  rewrite run_paths. fold boot rootfs.
  assert (H1 :
    Forall (fbetween (quarter UpdateThread.DownloadBootimgState true)
              (quarter UpdateThread.DownloadBootimgState true + (1 # 2)))
      (values (snd boot))
    /\ incl (replies (snd (fst boot))) (replies w)
    /\ ((fell_back w (snd (fst boot)) ->
         values (boot_before_fallback L machine update w) = []) ->
        (forall reply, In reply (replies w) ->
           nondecreasing (reported reply)) ->
        nondecreasing (values (snd boot))))
    by exact (kind_progress L UpdateThread.DownloadBootimgState w
                ImageReader.AndroidBootType
                (getUpdateSeed machine BootImageType)
                (getUpdateTarget machine BootImageType)
                (bootimgUrl update) (bootimgDeltaUrl update)
                (bootimgSha512 update) Hfit Hnan).
  destruct H1 as (Hb1 & Hincl1 & Hord1).
  assert (Hfit1 : forall reply, In reply (replies (snd (fst boot))) ->
                    qint64_counts reply)
    by (intros reply Hin; apply Hfit, Hincl1, Hin).
  assert (Hnan1 : forall reply, In reply (replies (snd (fst boot))) ->
                    ~ In (QNetworkReply.downloadProgress 0 0) reply)
    by (intros reply Hin; apply Hnan, Hincl1, Hin).
  assert (H2 :
    Forall (fbetween (quarter UpdateThread.DownloadRootfsState true)
              (quarter UpdateThread.DownloadRootfsState true + (1 # 2)))
      (values (snd rootfs))
    /\ incl (replies (snd (fst rootfs))) (replies (snd (fst boot)))
    /\ ((fell_back (snd (fst boot)) (snd (fst rootfs)) ->
         values (rootfs_before_fallback L machine update w) = []) ->
        (forall reply, In reply (replies (snd (fst boot))) ->
           nondecreasing (reported reply)) ->
        nondecreasing (values (snd rootfs))))
    by exact (kind_progress L UpdateThread.DownloadRootfsState
                (snd (fst boot)) ImageReader.SquashFsType
                (getUpdateSeed machine RootfsImageType)
                (getUpdateTarget machine RootfsImageType)
                (rootfsUrl update) (rootfsDeltaUrl update)
                (rootfsSha512 update) Hfit1 Hnan1).
  destruct H2 as (Hb2 & Hincl2 & Hord2).
  unfold quarter in Hb1, Hb2.
  assert (Hboot : Forall (fbetween 0 (1 # 2)) (values (snd boot)))
    by (eapply Forall_between_weaken; [| |exact Hb1]; lra).
  assert (Hroot : Forall (fbetween (1 # 2) 1) (values (snd rootfs)))
    by (eapply Forall_between_weaken; [| |exact Hb2]; lra).
  assert (Hboot01 : Forall (fbetween 0 1) (values (snd boot)))
    by (eapply Forall_between_weaken; [| |exact Hboot]; lra).
  assert (Hroot01 : Forall (fbetween 0 1) (values (snd rootfs)))
    by (eapply Forall_between_weaken; [| |exact Hroot]; lra).
  destruct (fst (fst boot)) eqn:Hbok; cbn [negb fst snd].
  2:{ rewrite progress_values_connected, values_app. cbn [values flat_map].
      rewrite app_nil_r. split; [exact Hboot01|].
      intros Hmono Hbefore _. apply Hord1; [exact Hbefore|exact Hmono]. }
  assert (Hmono1 : (forall reply, In reply (replies w) ->
                      nondecreasing (reported reply)) ->
                   forall reply, In reply (replies (snd (fst boot))) ->
                     nondecreasing (reported reply))
    by (intros Hmono reply Hin; apply Hmono, Hincl1, Hin).
  assert (Hboth : forall tail,
            values tail = [] ->
            Forall (fbetween 0 1)
              (values (snd boot ++ snd rootfs ++ tail))
            /\ ((forall reply, In reply (replies w) ->
                   nondecreasing (reported reply)) ->
                (fell_back w (snd (fst boot)) ->
                 values (boot_before_fallback L machine update w) = []) ->
                (true = true ->
                 fell_back (snd (fst boot)) (snd (fst rootfs)) ->
                 values (rootfs_before_fallback L machine update w) = []) ->
                nondecreasing (values (snd boot ++ snd rootfs ++ tail)))).
  { intros tail Htail. rewrite !values_app, Htail, app_nil_r. split.
    - apply Forall_app. split; assumption.
    - intros Hmono Hbefore1 Hbefore2.
      apply (nondecreasing_app 0 (1 # 2) 1);
        [apply Hord1; [exact Hbefore1|exact Hmono]
        |apply Hord2; [exact (Hbefore2 eq_refl)|exact (Hmono1 Hmono)]
        |exact Hboot|exact Hroot]. }
  destruct (negb (fst (fst rootfs))); cbn [fst snd];
    rewrite progress_values_connected; apply Hboth; reflexivity.
Qed.

Lemma nondecreasingb_sound (l : list cfloat) :
  nondecreasingb l = true -> nondecreasing l.
Proof.
  induction l as [|a [|b rest] IH]; cbn [nondecreasingb nondecreasing]; auto.
  intros H. apply andb_true_iff in H. destruct H as [Hab Hrest].
  split; [|apply IH; exact Hrest].
  destruct a as [x| |], b as [y| |]; cbn [fleb fle] in *; try discriminate.
  apply Qle_bool_iff. exact Hab.
Qed.

Lemma nondecreasingb_complete (l : list cfloat) :
  nondecreasing l -> nondecreasingb l = true.
Proof.
  induction l as [|a [|b rest] IH]; cbn [nondecreasingb nondecreasing]; auto.
  intros [Hab Hrest]. apply andb_true_iff. split; [|apply IH; exact Hrest].
  destruct a as [x| |], b as [y| |]; cbn [fleb fle] in *; try contradiction.
  apply Qle_bool_iff. exact Hab.
Qed.

(** The byte counts of a reply that [Fixtures.delivers] builds are the
    length of the payload and its half. *)
Lemma delivers_counts (payload : list byte) :
  Z.of_nat (List.length payload) < 2 ^ 63 ->
  qint64_counts (Fixtures.delivers payload).
Proof.
  intros Hlen r t Hin. unfold Fixtures.delivers in Hin. cbn zeta in Hin.
  assert (Hhalf : 0 <= Z.of_nat (List.length payload) / 2
                  <= Z.of_nat (List.length payload))
    by (split; [apply Z.div_pos; lia|apply Z.div_le_upper_bound; lia]).
  destruct Hin as [H|[H|[H|[H|[]]]]]; try discriminate H;
    injection H as <- <-; lia.
Qed.

(** C3 on the run in which both deltas are served and verify, and on the
    run in which nothing can be read and both full images are
    downloaded. *)
Lemma C3_progress_bounds_and_order_witness :
  let values_of w :=
    progress_values
      (snd (Updater.install Fixtures.libs Fixtures.pending42 w)) in
  (Forall (fbetween 0 1) (values_of Fixtures.deltas_served)
   /\ nondecreasing (values_of Fixtures.deltas_served))
  /\ (Forall (fbetween 0 1) (values_of Fixtures.full_images_served)
      /\ nondecreasing (values_of Fixtures.full_images_served)
      /\ full_requests
           (requests (fst (Updater.install Fixtures.libs Fixtures.pending42
                             Fixtures.full_images_served)))
         = [(FullRequest, "https://os.nepos.io/images/boot-42.img"%string);
            (FullRequest, "https://os.nepos.io/images/rootfs-42.img"%string)]).
Proof.
  intros values_of.
  assert (Hreplies : forall (P : list Signal -> Prop),
            P (Fixtures.delivers (Fixtures.boot_image "B")) ->
            P (Fixtures.delivers (Fixtures.rootfs_image "B")) ->
            forall reply,
              In reply [Fixtures.delivers (Fixtures.boot_image "B");
                        Fixtures.delivers (Fixtures.rootfs_image "B")] ->
              P reply).
  { intros P Hb Hr reply [<-|[<-|[]]]; assumption. }
  assert (Hfit : forall reply,
            In reply [Fixtures.delivers (Fixtures.boot_image "B");
                      Fixtures.delivers (Fixtures.rootfs_image "B")] ->
            qint64_counts reply)
    by (apply Hreplies; apply delivers_counts; vm_compute; reflexivity).
  assert (Hnan : forall reply,
            In reply [Fixtures.delivers (Fixtures.boot_image "B");
                      Fixtures.delivers (Fixtures.rootfs_image "B")] ->
            ~ In (QNetworkReply.downloadProgress 0 0) reply)
    by (apply Hreplies; vm_compute; intros [H|[H|[H|[H|[]]]]];
        discriminate H).
  assert (Hmono : forall reply,
            In reply [Fixtures.delivers (Fixtures.boot_image "B");
                      Fixtures.delivers (Fixtures.rootfs_image "B")] ->
            nondecreasing (reported reply))
    by (apply Hreplies; apply nondecreasingb_sound; vm_compute; reflexivity).
  split.
  - destruct (C3_progress_bounds_and_order Fixtures.libs Fixtures.pending42
                Fixtures.deltas_served Hfit Hnan) as [Hbounds Horder].
    split; [exact Hbounds|].
    apply Horder; [exact Hmono| |].
    + intros Hfell. exfalso. apply Hfell. vm_compute. reflexivity.
    + intros _ Hfell. exfalso. apply Hfell. vm_compute. reflexivity.
  - destruct (C3_progress_bounds_and_order Fixtures.libs Fixtures.pending42
                Fixtures.full_images_served Hfit Hnan) as [Hbounds Horder].
    split; [exact Hbounds|]. split; [|vm_compute; reflexivity].
    apply Horder; [exact Hmono| |].
    + intros _. vm_compute. reflexivity.
    + intros _ _. vm_compute. reflexivity.
Defined.

(** C3 as stated fails when a kind falls back to the full image after it
    has emitted progress.  The replies report fractions that are
    non-decreasing and within [[0, 1]]; the boot delta transfer ends
    without error, the target fails verification (which emits 0.5), and
    the full-image download then emits 0.125. *)
Lemma C3_counterexample :
  let w := Fixtures.empty_delta_then_full in
  let result := Updater.install Fixtures.libs Fixtures.pending42 w in
  let vs := progress_values (snd result) in
  forallb (fun reply => nondecreasingb (reported reply)) (replies w) = true
  /\ full_requests (requests (fst result))
     = [(FullRequest, "https://os.nepos.io/images/boot-42.img"%string)]
  /\ vs = [FNum (1 # 4); FNum (1 # 2); FNum (1 # 8); FNum (1 # 4);
           FNum (1 # 2)]
  /\ ~ nondecreasing vs.
Proof.
  cbv zeta.
  assert (Hvs : progress_values
                  (snd (Updater.install Fixtures.libs Fixtures.pending42
                          Fixtures.empty_delta_then_full))
                = [FNum (1 # 4); FNum (1 # 2); FNum (1 # 8); FNum (1 # 4);
                   FNum (1 # 2)])
    by (vm_compute; reflexivity).
  split; [vm_compute; reflexivity|].
  split; [vm_compute; reflexivity|].
  split; [exact Hvs|].
  rewrite Hvs. intros H. apply nondecreasingb_complete in H.
  vm_compute in H. discriminate H.
Qed.

(** A byte count past 2^24 is rounded when it is converted: 16777217 of
    16777216 bytes is the [float] 1, passes the test of [emitProgress] and
    is emitted as a full download quarter. *)
Lemma rounded_count_passes :
  float_div 16777217 16777216 = FNum 1
  /\ UpdateThread.emitProgress UpdateThread.DownloadBootimgState true
       (float_div 16777217 16777216)
     = [UpdateThread.progress (FNum (1 # 4))].
Proof. vm_compute. split; reflexivity. Qed.

(** On the sample counts, the arithmetic of this file gives what the
    Standard Library's IEEE 754 binary32 gives: for the quotient
    [(float) a / (float) b], and for what [emitProgress] makes of a
    quotient in [[0, 1]] in each of the four quarters. *)
Lemma agrees_with_SpecFloat :
  forallb (fun '(a, b) => cfloat_eqb (float_div a b) (spec_float_div a b))
    Fixtures.count_samples = true
  /\ forallb
       (fun '(a, b) =>
          let v := float_div a b in
          if flt0 v || fgt1 v then true
          else
            cfloat_eqb (scale UpdateThread.DownloadBootimgState true v)
              (spec_float_scale 0 a b)
            && cfloat_eqb (scale UpdateThread.DownloadBootimgState false v)
                 (spec_float_scale 1 a b)
            && cfloat_eqb (scale UpdateThread.DownloadRootfsState true v)
                 (spec_float_scale 2 a b)
            && cfloat_eqb (scale UpdateThread.DownloadRootfsState false v)
                 (spec_float_scale 3 a b))
       Fixtures.count_samples = true.
Proof. vm_compute. split; reflexivity. Qed.

(** A [downloadProgress(0, 0)] signal passes the test of [emitProgress],
    as every comparison with NaN is false, and NaN is emitted. *)
Lemma zero_of_zero_emits_nan :
  snd (Updater.install Fixtures.libs Fixtures.pending42
         (mkWorld Fixtures.disk
            [[QNetworkReply.downloadProgress 0 0; QNetworkReply.error]] []))
  = [Updater.updateProgress FNaN; Updater.updateFailed].
Proof. vm_compute. reflexivity. Qed.

(** ** The fixtures are what they are said to be *)

Lemma sha512_test_vectors :
  toHex (SHA512.digest [])
  = "cf83e1357eefb8bdf1542850d66d8007d620e4050b5715dc83f4a921d36ce9ce47d0d13c5d85f2b0ff8318d2877eec2f63b931bd47417a81a538327af927da3e"%string
  /\ toHex (SHA512.digest (Fixtures.bytes_of_string "abc"))
     = "ddaf35a193617abacc417349ae20413112e6fa4e89a97ea20a9eeee64b55d39a2192992a274fc1a836ba3c23a3feebbd454d4423643ce80e2a9ac94fa54ca49f"%string.
Proof. vm_compute. split; reflexivity. Qed.

Lemma fixture_digests :
  toHex (SHA512.digest (Fixtures.boot_image "B")) = Fixtures.boot_B_sha512
  /\ toHex (SHA512.digest (Fixtures.rootfs_image "B"))
     = Fixtures.rootfs_B_sha512.
Proof. vm_compute. split; reflexivity. Qed.

(* ================================================================== *)
(** * Further properties of the code *)

(** ** ImageReader *)



Lemma ALIGN_TO_zero_alignment (l : Z) : ImageReader.ALIGN_TO l 0 = 0.
Proof.
  unfold ImageReader.ALIGN_TO.
  replace (wrap64 (Z.lnot (wrap64 (0 - 1)))) with 0 by (vm_compute; reflexivity).
  apply Z.land_0_r.
Qed.

(** X2. An Android boot header whose [page_size] is 0 makes every term of
    the sum 0: [open()] succeeds on any regular file or block device with
    [imageSize] 0, and the verification of such a target reads no byte: it
    compares the expected string with the digest of the empty input and
    emits no progress. *)
Theorem zero_page_size_empties_image
    (L : EngineLibs) (state : UpdateThread.State) (fs : FileSystem)
    (path : string) (ino : Inode) (expected : string) :
  fs path = Some ino -> i_readable ino = true -> i_fstat_fails ino = false ->
  (ImageReader.sizeof_androidBootHeader <= List.length (i_data ino))%nat ->
  magic_ok ImageReader.AndroidBootType (i_data ino) ->
  i_mode ino <> S_IFOTHER ->
  ImageReader.page_size
    (ImageReader.read_header ImageReader.sizeof_androidBootHeader ino) = 0 ->
  ImageReader.open fs (ImageReader.new ImageReader.AndroidBootType path)
    = (true, ImageReader.mk ImageReader.AndroidBootType path true None 0)
  /\ UpdateThread.verifyImage L state fs ImageReader.AndroidBootType path
       expected
     = (String.eqb (toHex (sha512 L [])) expected, []).
Proof.
  intros Hfs Hr Hst Hlen [Hm1 Hm2] Hmode Hps.
  assert (Ho : ImageReader.open fs
                 (ImageReader.new ImageReader.AndroidBootType path)
               = (true,
                  ImageReader.mk ImageReader.AndroidBootType path true None 0)).
  { pose proof (open_android_imageSize fs path ino Hfs Hr Hst Hlen Hm1 Hm2)
      as Hsz.
    cbn zeta in Hsz. rewrite Hps, !ALIGN_TO_zero_alignment in Hsz.
    change (wrap64 (0 + 0 + 0 + 0 + 0)) with 0 in Hsz.
    revert Hsz. unfold ImageReader.open.
    cbn [ImageReader.new ImageReader.isOpen ImageReader.fileName].
    rewrite Hfs, Hr. cbn [negb]. rewrite Hst.
    change (ImageReader.type
              (ImageReader.with_open
                 (ImageReader.new ImageReader.AndroidBootType path)))
      with ImageReader.AndroidBootType. cbv iota.
    rewrite read_header_length by assumption.
    rewrite Nat.eqb_refl. cbn [negb].
    unfold ImageReader.read_header in *.
    rewrite Hm1, Hm2, !Z.eqb_refl. cbn [negb orb].
    rewrite Hps, !ALIGN_TO_zero_alignment.
    change (wrap64 (0 + 0 + 0 + 0 + 0)) with 0.
    intros _. unfold ImageReader.check_fileSize.
    cbn [ImageReader.with_imageSize ImageReader.with_open ImageReader.new
         ImageReader.imageSize ImageReader.type ImageReader.fileName
         ImageReader.isOpen ImageReader.mappedBuffer].
    destruct (i_mode ino); [| |contradiction Hmode; reflexivity].
    - destruct (Z.ltb_spec (Z.of_nat (List.length (i_data ino))) 0);
        [lia|reflexivity].
    - destruct (i_blkgetsize_fails ino); [reflexivity|].
      destruct (Z.ltb_spec (Z.of_nat (List.length (i_data ino))) 0);
        [lia|reflexivity]. }
  split; [exact Ho|].
  rewrite verifyImage_spec, Ho, Hfs. reflexivity.
Qed.

(** X2 on an instance. A boot device whose header announces page size 0: it
    opens as an empty image and verifies against the digest of the empty
    input. *)
Lemma zero_page_size_empties_image_witness :
  let fs := Fixtures.single "/dev/mmcblk0p5"
              (Fixtures.boot_device 3000 100 0 0 1) in
  fst (ImageReader.open fs
         (ImageReader.new ImageReader.AndroidBootType "/dev/mmcblk0p5"))
    = true
  /\ UpdateThread.verifyImage Fixtures.libs UpdateThread.DownloadBootimgState
       fs ImageReader.AndroidBootType "/dev/mmcblk0p5"
       "cf83e1357eefb8bdf1542850d66d8007d620e4050b5715dc83f4a921d36ce9ce47d0d13c5d85f2b0ff8318d2877eec2f63b931bd47417a81a538327af927da3e"
     = (true, []).
Proof.
  intros fs.
  destruct (zero_page_size_empties_image Fixtures.libs
              UpdateThread.DownloadBootimgState fs "/dev/mmcblk0p5"
              (Fixtures.boot_device 3000 100 0 0 1)
              "cf83e1357eefb8bdf1542850d66d8007d620e4050b5715dc83f4a921d36ce9ce47d0d13c5d85f2b0ff8318d2877eec2f63b931bd47417a81a538327af927da3e"
              eq_refl eq_refl eq_refl
              ltac:(apply Nat.leb_le; vm_compute; reflexivity)
              ltac:(split; vm_compute; reflexivity)
              ltac:(discriminate)
              ltac:(vm_compute; reflexivity)) as [Ho Hv].
  split.
  - rewrite Ho. reflexivity.
  - rewrite Hv. vm_compute. reflexivity.
Defined.

(** X3. After a successful [open()], [map()] returns a mapping of exactly
    [imageSize] bytes, the first [imageSize] bytes of the node; mapping
    again returns the same mapping; after [close()], [map()] returns null;
    and opening again after [close()] gives the reader the first [open()]
    gave, with the same [imageSize]. *)
Theorem map_close_reopen
    (fs : FileSystem) (ty : ImageReader.ImageType) (path : string)
    (r : ImageReader.t) :
  ImageReader.open fs (ImageReader.new ty path) = (true, r) ->
  exists ino buf,
    fs path = Some ino
    /\ buf = firstn (Z.to_nat (ImageReader.imageSize r)) (i_data ino)
    /\ Z.of_nat (List.length buf) = ImageReader.imageSize r
    /\ fst (ImageReader.map fs r) = Some buf
    /\ ImageReader.map fs (snd (ImageReader.map fs r))
       = (Some buf, snd (ImageReader.map fs r))
    /\ fst (ImageReader.map fs
              (ImageReader.close (snd (ImageReader.map fs r)))) = None
    /\ ImageReader.open fs (ImageReader.close (snd (ImageReader.map fs r)))
       = (true, r).
Proof.
  intros Ho.
  destruct (open_true fs ty path r Ho) as (ino & Hfs & Hop & Hmap & Hname & Hsz).
  set (buf := firstn (Z.to_nat (ImageReader.imageSize r)) (i_data ino)).
  exists ino, buf.
  assert (Hm : ImageReader.map fs r
               = (Some buf,
                  ImageReader.mk (ImageReader.type r) (ImageReader.fileName r)
                    (ImageReader.isOpen r) (Some buf)
                    (ImageReader.imageSize r))).
  { unfold ImageReader.map. rewrite Hop, Hmap, Hname, Hfs. reflexivity. }
  rewrite Hm. cbn [fst snd].
  split; [exact Hfs|]. split; [reflexivity|].
  split; [unfold buf; rewrite length_firstn; lia|].
  split; [reflexivity|]. split.
  { unfold ImageReader.map.
    cbn [ImageReader.isOpen ImageReader.mappedBuffer]. rewrite Hop.
    reflexivity. }
  unfold ImageReader.close.
  cbn [ImageReader.isOpen ImageReader.type ImageReader.fileName
       ImageReader.imageSize]. rewrite Hop. cbn [negb].
  split; [reflexivity|].
  (* the second open goes through the same tests *)
  rewrite Hname.
  revert Ho. unfold ImageReader.open.
  cbn [ImageReader.new ImageReader.isOpen ImageReader.fileName].
  rewrite Hfs.
  destruct (i_readable ino); [|discriminate]. cbn [negb].
  destruct (i_fstat_fails ino); [discriminate|].
  intros Ho.
  assert (Hty : ImageReader.type r = ty).
  { destruct ty;
      cbn [ImageReader.type ImageReader.with_open ImageReader.new] in Ho;
      [| |discriminate].
    - destruct (Nat.eqb _ _); [|discriminate]. cbn [negb] in Ho.
      destruct (_ =? _); [|discriminate]. cbn [negb] in Ho.
      apply check_fileSize_true in Ho. destruct Ho as [-> _]. reflexivity.
    - destruct (Nat.eqb _ _); [|discriminate]. cbn [negb] in Ho.
      destruct (_ || _); [discriminate|].
      apply check_fileSize_true in Ho. destruct Ho as [-> _]. reflexivity. }
  rewrite Hty.
  destruct ty;
    cbn [ImageReader.type ImageReader.with_open ImageReader.new] in *;
    [| |discriminate].
  - destruct (Nat.eqb _ _); [|discriminate]. cbn [negb] in *.
    destruct (_ =? _); [|discriminate]. cbn [negb] in *.
    exact Ho.
  - destruct (Nat.eqb _ _); [|discriminate]. cbn [negb] in *.
    destruct (_ || _); [discriminate|].
    exact Ho.
Qed.

(** X3 on an instance. The 8192-byte rootfs device with [bytes_used] 5000: a
    mapping of 8192 bytes, and the same reader after close and open. *)
Lemma map_close_reopen_witness :
  let fs := Fixtures.single "/dev/mmcblk0p6"
              (Fixtures.rootfs_device ImageReader.SQUASHFS_MAGIC 5000) in
  let r := snd (ImageReader.open fs
                  (ImageReader.new ImageReader.SquashFsType "/dev/mmcblk0p6")) in
  ImageReader.imageSize r = 8192
  /\ ImageReader.open fs (ImageReader.close (snd (ImageReader.map fs r)))
     = (true, r).
Proof.
  intros fs r.
  destruct (map_close_reopen fs ImageReader.SquashFsType "/dev/mmcblk0p6" r
              ltac:(vm_compute; reflexivity))
    as (ino & buf & _ & _ & _ & _ & _ & _ & Hre).
  split; [vm_compute; reflexivity|exact Hre].
Defined.

(** ** UpdateWriter *)

Ltac list_length :=
  repeat (rewrite length_app || rewrite length_firstn
          || rewrite length_skipn || rewrite length_zeros).

Lemma pwrite_length (ino : Inode) (at_ : nat) (data : list byte) :
  (at_ <= List.length (i_data ino))%nat ->
  let '(bytes, n) := UpdateWriter.pwrite ino at_ data in
  (at_ + n <= List.length bytes)%nat
  /\ (i_mode ino <> S_IFREG ->
      List.length bytes = List.length (i_data ino)).
Proof.
  intros Hat. unfold UpdateWriter.pwrite.
  destruct (i_mode ino).
  - split; [|intros H; contradiction H; reflexivity].
    list_length. lia.
  - split; [|intros _]; list_length; lia.
  - split; [|intros _]; list_length; lia.
Qed.

Lemma file_write_within (fs : FileSystem) (w : UpdateWriter.t)
    (data : list byte) :
  within_file (fs, w) -> within_file (UpdateWriter.file_write fs w data).
Proof.
  intros (ino & Hfs & Hpos). cbn [fst snd] in *.
  unfold UpdateWriter.file_write.
  destruct (UpdateWriter.isOpen w); cbn [negb]; [|exists ino; auto].
  rewrite Hfs.
  pose proof (pwrite_length ino (Z.to_nat (UpdateWriter.pos w)) data
                ltac:(lia)) as Hl.
  destruct (UpdateWriter.pwrite ino (Z.to_nat (UpdateWriter.pos w)) data)
    as [bytes n].
  destruct Hl as [Hl _].
  exists (set_data ino bytes). cbn [fst snd UpdateWriter.fileName
                                     UpdateWriter.pos].
  rewrite fs_put_same. split; [reflexivity|]. cbn [i_data set_data]. lia.
Qed.

Lemma file_resize_within (fs : FileSystem) (w : UpdateWriter.t) (sz : Z) :
  within_file (fs, w) -> within_file (UpdateWriter.file_resize fs w sz).
Proof.
  intros (ino & Hfs & Hpos). cbn [fst snd] in *.
  unfold UpdateWriter.file_resize.
  destruct (UpdateWriter.isOpen w); cbn [negb]; [|exists ino; auto].
  destruct (Z.ltb_spec sz 0); [exists ino; auto|].
  rewrite Hfs. unfold UpdateWriter.ftruncate.
  destruct (i_mode ino).
  - exists (set_data ino
              (firstn (Z.to_nat sz) (i_data ino)
                 ++ UpdateWriter.zeros
                      (Z.to_nat sz - List.length (i_data ino)))).
    destruct (Z.ltb_spec sz (UpdateWriter.pos w));
      cbn [fst snd UpdateWriter.fileName UpdateWriter.pos];
      rewrite fs_put_same; (split; [reflexivity|]);
      cbn [i_data set_data]; list_length; lia.
  - exists ino.
    destruct (Z.ltb_spec sz (UpdateWriter.pos w));
      cbn [fst snd UpdateWriter.fileName UpdateWriter.pos];
      (split; [exact Hfs|lia]).
  - exists ino.
    destruct (Z.ltb_spec sz (UpdateWriter.pos w));
      cbn [fst snd UpdateWriter.fileName UpdateWriter.pos];
      (split; [exact Hfs|lia]).
Qed.

(** X4. The position of a writer never leaves its file: it lies within the
    file after a successful [open()], and [append], [push_back], [clear] and
    [ReserveAdditionalBytes], with any argument, keep it there. So [size()]
    never exceeds the length of the file. *)
Theorem writer_stays_within_file :
  (forall fs path,
      let '(opened, fs', w') := UpdateWriter.open fs UpdateWriter.new path in
      opened = true -> within_file (fs', w'))
  /\ (forall fw : FileSystem * UpdateWriter.t,
         within_file fw ->
         (forall s, within_file (append fw s))
         /\ (forall c, within_file (push_back fw c))
         /\ within_file (clear fw)
         /\ (forall res_arg, within_file (ReserveAdditionalBytes fw res_arg))).
Proof.
  split.
  - intros fs path. unfold UpdateWriter.open.
    cbn [UpdateWriter.new UpdateWriter.isOpen].
    destruct (fs path) as [ino|] eqn:Hfs.
    + destruct (i_writable ino); cbn [negb]; [|discriminate].
      destruct (i_mode ino); intros _.
      * exists (set_data ino []).
        cbn [fst snd UpdateWriter.fileName UpdateWriter.pos].
        rewrite fs_put_same. split; [reflexivity|]. cbn. lia.
      * exists ino. cbn [fst snd UpdateWriter.fileName UpdateWriter.pos].
        split; [exact Hfs|lia].
      * exists ino. cbn [fst snd UpdateWriter.fileName UpdateWriter.pos].
        split; [exact Hfs|lia].
    + intros _. exists (regular []).
      cbn [fst snd UpdateWriter.fileName UpdateWriter.pos].
      rewrite fs_put_same. split; [reflexivity|]. cbn. lia.
  - intros [fs w] Hin. split; [|split; [|split]].
    + intros s. apply file_write_within. exact Hin.
    + intros c. apply file_write_within. exact Hin.
    + destruct Hin as (ino & Hfs & Hpos). cbn [fst snd] in *.
      cbn [clear UpdateWriter_OutputString]. unfold UpdateWriter.clear.
      cbn [fst snd]. exists ino.
      destruct (UpdateWriter.isOpen w);
        cbn [fst snd UpdateWriter.fileName UpdateWriter.pos];
        (split; [exact Hfs|lia]).
    + intros res_arg. apply file_resize_within. exact Hin.
Qed.

(** X5. A node that is not a regular file, a block device in particular,
    keeps its length through everything a writer does to it: [open()] does
    not truncate it, and no [append], [push_back], [clear] or
    [ReserveAdditionalBytes] changes how long it is. *)
Theorem device_keeps_length
    (fs : FileSystem) (w : UpdateWriter.t) (ino : Inode) :
  fs (UpdateWriter.fileName w) = Some ino -> i_mode ino <> S_IFREG ->
  let same (fw : FileSystem * UpdateWriter.t) :=
    exists ino', fst fw (UpdateWriter.fileName w) = Some ino'
                 /\ i_mode ino' = i_mode ino
                 /\ List.length (i_data ino') = List.length (i_data ino) in
  contents (snd (fst (UpdateWriter.open fs UpdateWriter.new
                        (UpdateWriter.fileName w))))
    (UpdateWriter.fileName w) = i_data ino
  /\ (forall s, same (append (fs, w) s))
  /\ (forall c, same (push_back (fs, w) c))
  /\ same (clear (fs, w))
  /\ (forall res_arg, same (ReserveAdditionalBytes (fs, w) res_arg)).
Proof.
  intros Hfs Hmode same.
  assert (Hid : same (fs, w)) by (exists ino; auto).
  assert (Hwrite : forall data, same (UpdateWriter.file_write fs w data)).
  { intros data. unfold UpdateWriter.file_write.
    destruct (UpdateWriter.isOpen w); cbn [negb]; [|exact Hid].
    rewrite Hfs. unfold UpdateWriter.pwrite.
    destruct (i_mode ino) eqn:Hm; [contradiction Hmode; reflexivity| |];
      (eexists; cbn [fst]; rewrite fs_put_same;
       split; [reflexivity|]; cbn [i_mode i_data set_data];
       split; [exact Hm|]; list_length; lia). }
  split; [|split; [|split; [|split]]].
  - unfold UpdateWriter.open. cbn [UpdateWriter.new UpdateWriter.isOpen].
    rewrite Hfs. unfold contents.
    destruct (i_writable ino); cbn [negb fst snd]; [|rewrite Hfs; reflexivity].
    destruct (i_mode ino); [contradiction Hmode; reflexivity| |];
      cbn [fst snd]; rewrite Hfs; reflexivity.
  - exact Hwrite.
  - intros c. apply Hwrite.
  - exact Hid.
  - intros res_arg.
    cbn [ReserveAdditionalBytes UpdateWriter_OutputString].
    unfold UpdateWriter.ReserveAdditionalBytes, UpdateWriter.file_resize.
    cbn [fst snd].
    destruct (UpdateWriter.isOpen w); cbn [negb]; [|exact Hid].
    destruct (_ <? 0); [exact Hid|].
    rewrite Hfs. unfold UpdateWriter.ftruncate.
    destruct (i_mode ino); [contradiction Hmode; reflexivity| |];
      exact Hid.
Qed.

(** X5 on an instance. The 8192-byte boot device keeps its 8192 bytes when a
    writer appends to it. *)
Lemma device_keeps_length_witness :
  let fw := Fixtures.opened_writer
              (Fixtures.single "/dev/mmcblk0p4"%string
                 (Fixtures.boot_device 0 0 0 2048 0))
              "/dev/mmcblk0p4"%string in
  exists ino',
    fst (append fw ["a"; "b"]%byte) "/dev/mmcblk0p4"%string = Some ino'
    /\ List.length (i_data ino') = (2 * 4096)%nat.
Proof.
  intros fw.
  destruct (device_keeps_length (fst fw) (snd fw)
              (Fixtures.boot_device 0 0 0 2048 0) eq_refl
              ltac:(discriminate)) as (_ & Happend & _).
  destruct (Happend ["a"; "b"]%byte) as (ino' & Hfs & _ & Hlen).
  exists ino'. split; [exact Hfs|]. rewrite Hlen. vm_compute. reflexivity.
Defined.

(** An append at the end of a regular file adds the bytes at the end. *)
Lemma append_at_end (fs : FileSystem) (w : UpdateWriter.t) (ino : Inode)
    (s : list byte) :
  UpdateWriter.isOpen w = true ->
  fs (UpdateWriter.fileName w) = Some ino -> i_mode ino = S_IFREG ->
  UpdateWriter.pos w = Z.of_nat (List.length (i_data ino)) ->
  UpdateWriter.append (fs, w) s
  = (fs_put fs (UpdateWriter.fileName w) (set_data ino (i_data ino ++ s)),
     UpdateWriter.mk (UpdateWriter.fileName w) true
       (Z.of_nat (List.length (i_data ino ++ s)))).
Proof.
  intros Hop Hfs Hmode Hpos.
  unfold UpdateWriter.append, UpdateWriter.file_write. cbn [fst snd].
  rewrite Hop, Hfs. cbn [negb]. unfold UpdateWriter.pwrite.
  rewrite Hmode, Hpos, Nat2Z.id.
  rewrite firstn_all, Nat.sub_diag, skipn_all2 by lia.
  cbn [UpdateWriter.zeros repeat app]. rewrite app_nil_r.
  rewrite length_app, Nat2Z.inj_add. reflexivity.
Qed.

Lemma fs_put_other (fs : FileSystem) (path p : string) (ino : Inode) :
  p <> path -> fs_put fs path ino p = fs p.
Proof.
  intros Hp. unfold fs_put.
  destruct (String.eqb_spec p path) as [->|_]; [contradiction|reflexivity].
Qed.

(** Appends that start at the end of a regular file: the file grows by the
    chunks in order, the position stays at its end, no other path
    changes. *)
Lemma fold_append_at_end (path : string) (chunks : list (list byte)) :
  forall (fs0 : FileSystem) (w0 : UpdateWriter.t) (ino0 : Inode),
    UpdateWriter.isOpen w0 = true ->
    UpdateWriter.fileName w0 = path ->
    fs0 path = Some ino0 -> i_mode ino0 = S_IFREG ->
    UpdateWriter.pos w0 = Z.of_nat (List.length (i_data ino0)) ->
    let fw := fold_left UpdateWriter.append chunks (fs0, w0) in
    contents (fst fw) path = (i_data ino0 ++ List.concat chunks)%list
    /\ UpdateWriter.size fw
       = Z.of_nat (List.length (i_data ino0 ++ List.concat chunks))
    /\ (forall p, p <> path -> fst fw p = fs0 p).
Proof.
  induction chunks as [|s chunks IH];
    intros fs0 w0 ino0 Hop Hname Hfs Hmode Hpos; cbn zeta.
  - cbn [fold_left List.concat fst]. rewrite app_nil_r. unfold contents.
    rewrite Hfs. split; [reflexivity|]. split; [exact Hpos|reflexivity].
  - cbn [fold_left List.concat].
    rewrite (append_at_end fs0 w0 ino0 s Hop
               ltac:(rewrite Hname; exact Hfs) Hmode Hpos).
    rewrite Hname.
    specialize (IH (fs_put fs0 path (set_data ino0 (i_data ino0 ++ s)))
                  (UpdateWriter.mk path true
                     (Z.of_nat (List.length (i_data ino0 ++ s))))
                  (set_data ino0 (i_data ino0 ++ s))
                  eq_refl eq_refl (fs_put_same _ _ _) Hmode eq_refl).
    cbn zeta in IH. cbn [i_data set_data] in IH.
    rewrite <- app_assoc in IH.
    destruct IH as (Hc & Hs & Hframe).
    split; [exact Hc|]. split; [exact Hs|].
    intros p Hp. rewrite (Hframe p Hp). apply fs_put_other. exact Hp.
Qed.

(** What [open()] of a fresh writer does to a target that is absent or a
    writable regular file: the file is there, empty, every other path as
    before. *)
Lemma open_fresh_regular (fs : FileSystem) (path : string) :
  (fs path = None
   \/ exists ino, fs path = Some ino /\ i_mode ino = S_IFREG
                  /\ i_writable ino = true) ->
  exists ino0,
    UpdateWriter.open fs UpdateWriter.new path
    = (true, fs_put fs path ino0, UpdateWriter.mk path true 0)
    /\ i_mode ino0 = S_IFREG /\ i_data ino0 = [].
Proof.
  intros Hnode. unfold UpdateWriter.open.
  cbn [UpdateWriter.new UpdateWriter.isOpen].
  destruct Hnode as [Hnone|(ino & Hsome & Hmode & Hw)].
  - rewrite Hnone. exists (regular []). repeat split; reflexivity.
  - rewrite Hsome, Hw, Hmode. cbn [negb]. exists (set_data ino []).
    split; [reflexivity|]. split; [exact Hmode|reflexivity].
Qed.

(** X6. [open()] starts a regular file afresh, and the appends that follow
    accumulate: after any sequence of chunks the file holds their
    concatenation and [size()] is its length. A missing file is created. *)
Theorem appends_concatenate
    (fs : FileSystem) (path : string) (chunks : list (list byte)) :
  (fs path = None
   \/ exists ino, fs path = Some ino /\ i_mode ino = S_IFREG
                  /\ i_writable ino = true) ->
  let '(opened, fs1, w) := UpdateWriter.open fs UpdateWriter.new path in
  let fw := fold_left append chunks (fs1, w) in
  opened = true
  /\ contents (fst fw) path = List.concat chunks
  /\ size fw = Z.of_nat (List.length (List.concat chunks)).
Proof.
  intros Hnode.
  destruct (open_fresh_regular fs path Hnode) as (ino0 & -> & Hmode & Hdata).
  split; [reflexivity|].
  destruct (fold_append_at_end path chunks (fs_put fs path ino0)
              (UpdateWriter.mk path true 0) ino0 eq_refl eq_refl
              (fs_put_same _ _ _) Hmode
              ltac:(rewrite Hdata; reflexivity)) as (Hc & Hs & _).
  rewrite Hdata in Hc, Hs. split; [exact Hc|exact Hs].
Qed.

(** X6 on an instance. Three chunks appended to a file that held other
    bytes. *)
Lemma appends_concatenate_witness :
  let fs := Fixtures.single "/tmp/rootfs.img"%string (regular ["x"; "y"; "z"]%byte) in
  let chunks := [["a"; "b"]; []; ["c"]]%byte in
  let fw := fold_left append chunks
              (Fixtures.opened_writer fs "/tmp/rootfs.img"%string) in
  contents (fst fw) "/tmp/rootfs.img"%string = ["a"; "b"; "c"]%byte
  /\ size fw = 3.
Proof.
  intros fs chunks fw.
  pose proof (appends_concatenate fs "/tmp/rootfs.img"%string chunks
                (or_intror (ex_intro _ (regular ["x"; "y"; "z"]%byte)
                              (conj eq_refl (conj eq_refl eq_refl)))))
    as (_ & Hc & Hs).
  split; [exact Hc|exact Hs].
Defined.

(** X7. [clear()] rewinds and does not truncate: an append after it
    overwrites the file from its first byte, and what the file held past the
    new bytes stays. *)
Theorem clear_rewinds_without_truncating
    (fs : FileSystem) (w : UpdateWriter.t) (ino : Inode) (s : list byte) :
  UpdateWriter.isOpen w = true ->
  fs (UpdateWriter.fileName w) = Some ino -> i_mode ino = S_IFREG ->
  let fw := append (clear (fs, w)) s in
  size (clear (fs, w)) = 0
  /\ contents (fst (clear (fs, w))) (UpdateWriter.fileName w) = i_data ino
  /\ contents (fst fw) (UpdateWriter.fileName w)
     = (s ++ skipn (List.length s) (i_data ino))%list
  /\ size fw = Z.of_nat (List.length s).
Proof.
  intros Hop Hfs Hmode. cbn zeta.
  cbn [clear append size UpdateWriter_OutputString].
  unfold UpdateWriter.clear, UpdateWriter.append, UpdateWriter.size,
    UpdateWriter.file_write, contents.
  cbn [fst snd]. rewrite Hop. cbn [UpdateWriter.pos UpdateWriter.isOpen
                                     UpdateWriter.fileName negb].
  rewrite Hfs. unfold UpdateWriter.pwrite. rewrite Hmode.
  cbn [Z.to_nat firstn Nat.sub UpdateWriter.zeros repeat app Nat.add
       fst snd UpdateWriter.pos].
  rewrite fs_put_same. cbn [i_data set_data].
  repeat split; reflexivity.
Qed.

(** X7 on an instance. A file of five bytes, rewound and overwritten with
    two. *)
Lemma clear_rewinds_without_truncating_witness :
  let fw := append (Fixtures.opened_writer
                      (Fixtures.single "/tmp/boot.img"%string (regular []))
                      "/tmp/boot.img"%string)
                   ["a"; "b"; "c"; "d"; "e"]%byte in
  contents (fst (append (clear fw) ["X"; "Y"]%byte)) "/tmp/boot.img"%string
    = ["X"; "Y"; "c"; "d"; "e"]%byte
  /\ size (append (clear fw) ["X"; "Y"]%byte) = 2.
Proof.
  intros fw.
  pose proof (clear_rewinds_without_truncating (fst fw) (snd fw)
                (regular ["a"; "b"; "c"; "d"; "e"]%byte) ["X"; "Y"]%byte
                eq_refl eq_refl eq_refl) as (_ & _ & Hc & Hs).
  split; [exact Hc|exact Hs].
Defined.

(** ** UpdateThread::downloadFullImage *)

(** The loop of [downloadFullImage] in closed form: it handles the signals
    up to the first [error] or [finished], appends the data of those
    [readyRead] that come without a reply error, and sets [ret] when a
    [finished] is among them. *)
Lemma full_loop (state : UpdateThread.State) (reply : list Signal) :
  forall (ret : bool) (output : FileSystem * UpdateWriter.t),
    QEventLoop_exec (UpdateThread.full_slot state) reply
      (UpdateThread.mkFullLocals ret output)
    = (UpdateThread.mkFullLocals
         (ret || existsb is_finished (until_quit reply))
         (fold_left UpdateWriter.append (payload (until_quit reply)) output),
       flat_map (download_signal state) (until_quit reply)).
Proof.
  induction reply as [|sig reply IH]; intros ret output.
  - cbn. rewrite orb_false_r. reflexivity.
  - destruct sig as [replyError data| | |r t].
    + cbn [QEventLoop_exec UpdateThread.full_slot until_quit].
      destruct replyError.
      * rewrite IH. cbn [UpdateThread.f_ret UpdateThread.f_output].
        reflexivity.
      * rewrite IH. cbn [UpdateThread.f_ret UpdateThread.f_output].
        reflexivity.
    + cbn. rewrite orb_false_r. reflexivity.
    + cbn. rewrite orb_true_r. reflexivity.
    + cbn [QEventLoop_exec UpdateThread.full_slot until_quit].
      rewrite IH. reflexivity.
Qed.

Lemma finished_until_quit (reply : list Signal) :
  existsb is_finished (until_quit reply) = true <-> finishes_cleanly reply.
Proof.
  unfold finishes_cleanly. induction reply as [|sig reply IH].
  - cbn. split; [discriminate|].
    intros (before & after & H & _). destruct before; discriminate.
  - assert (Hcons : forall sig0, sig0 <> QNetworkReply.error ->
              sig0 <> QNetworkReply.finished ->
              ((exists before after,
                   (sig0 :: reply = before ++ QNetworkReply.finished :: after)%list
                   /\ ~ In QNetworkReply.error before)
               <-> (exists before after,
                       (reply = before ++ QNetworkReply.finished :: after)%list
                       /\ ~ In QNetworkReply.error before))).
    { intros sig0 He Hf. split.
      - intros (before & after & H & Hn). destruct before as [|x before].
        + cbn in H. injection H as H _. contradiction.
        + cbn in H. injection H as -> H. exists before, after.
          split; [exact H|]. intros Hin. apply Hn. right. exact Hin.
      - intros (before & after & H & Hn). exists (sig0 :: before), after.
        split; [cbn; rewrite H; reflexivity|].
        intros [Heq|Hin]; [apply He; exact Heq|exact (Hn Hin)]. }
    destruct sig as [replyError data| | |r t].
    + cbn [until_quit existsb is_finished orb]. rewrite IH.
      symmetry. apply Hcons; discriminate.
    + cbn. split; [discriminate|].
      intros (before & after & H & Hn). destruct before as [|x before].
      * discriminate.
      * cbn in H. injection H as Hx _. subst x. exfalso. apply Hn. left. reflexivity.
    + cbn. split; [|reflexivity]. intros _.
      exists [], reply. split; [reflexivity|intros []].
    + cbn [until_quit existsb is_finished orb]. rewrite IH.
      symmetry. apply Hcons; discriminate.
Qed.

Lemma open_fresh_succeeds_iff (fs : FileSystem) (path : string) :
  fst (fst (UpdateWriter.open fs UpdateWriter.new path)) = true
  <-> (forall ino, fs path = Some ino -> i_writable ino = true).
Proof.
  unfold UpdateWriter.open. cbn [UpdateWriter.new UpdateWriter.isOpen].
  destruct (fs path) as [ino|].
  - destruct (i_writable ino) eqn:Hw; cbn [negb].
    + split.
      * intros _ ino' [= <-]. exact Hw.
      * intros _. destruct (i_mode ino); reflexivity.
    + split; [discriminate|]. intros H.
      specialize (H ino eq_refl). rewrite Hw in H. discriminate.
  - split; [intros _ ino; discriminate|reflexivity].
Qed.

(** X8. [downloadFullImage] returns true exactly when the output can be
    opened for writing and the reply delivers [finished] before any [error]
    and before the 60 s timer. Nothing else is asked: neither that any data
    arrived nor that no [readyRead] came with a reply error. *)
Theorem full_download_succeeds_iff
    (state : UpdateThread.State) (w : World) (url outputPath : string) :
  fst (fst (UpdateThread.downloadFullImage state w url outputPath)) = true
  <-> (forall ino, fs w outputPath = Some ino -> i_writable ino = true)
      /\ finishes_cleanly (hd [] (replies w)).
Proof.
  rewrite <- open_fresh_succeeds_iff, <- finished_until_quit.
  unfold UpdateThread.downloadFullImage. cbn [net_get fs].
  destruct (UpdateWriter.open (fs w) UpdateWriter.new outputPath)
    as [[opened fs1] output].
  cbn [fst]. destruct opened; cbn [negb fst].
  - rewrite full_loop. cbn [UpdateThread.f_ret fst orb].
    split; [intros H; split; [reflexivity|exact H]|intros [_ H]; exact H].
  - split; [discriminate|intros [H _]; discriminate].
Qed.

(** X9. On a target that is absent or a writable regular file,
    [downloadFullImage] leaves in it the data of the [readyRead] signals it
    handled without a reply error, in order, and nothing else; every other
    path is as before. What was in the file before is gone, and so is the
    data of a [readyRead] that came with a reply error, whatever the result. *)
Theorem full_download_stores_payload
    (state : UpdateThread.State) (w : World) (url outputPath : string) :
  (fs w outputPath = None
   \/ exists ino, fs w outputPath = Some ino /\ i_mode ino = S_IFREG
                  /\ i_writable ino = true) ->
  let w' := snd (fst (UpdateThread.downloadFullImage state w url outputPath)) in
  contents (fs w') outputPath
  = List.concat (payload (until_quit (hd [] (replies w))))
  /\ (forall p, p <> outputPath -> fs w' p = fs w p).
Proof.
  intros Hnode. cbn zeta.
  destruct (open_fresh_regular (fs w) outputPath Hnode)
    as (ino0 & Hopen & Hmode & Hdata).
  unfold UpdateThread.downloadFullImage. cbn [net_get fs].
  rewrite Hopen. cbn [negb]. rewrite full_loop.
  cbn [fst snd UpdateThread.f_output with_fs fs].
  destruct (fold_append_at_end outputPath
              (payload (until_quit (hd [] (replies w))))
              (fs_put (fs w) outputPath ino0)
              (UpdateWriter.mk outputPath true 0) ino0 eq_refl eq_refl
              (fs_put_same _ _ _) Hmode
              ltac:(rewrite Hdata; reflexivity)) as (Hc & _ & Hframe).
  rewrite Hdata in Hc. split; [exact Hc|].
  intros p Hp. rewrite (Hframe p Hp). apply fs_put_other. exact Hp.
Qed.

(** X9 on an instance. A reply whose second [readyRead] comes with a reply
    error and which goes on after [finished]: the file ends up with the
    first and third chunk. *)
Lemma full_download_stores_payload_witness :
  let reply :=
    [QNetworkReply.readyRead false ["a"; "b"]%byte;
     QNetworkReply.readyRead true ["z"]%byte;
     QNetworkReply.downloadProgress 2 3;
     QNetworkReply.readyRead false ["c"]%byte;
     QNetworkReply.finished;
     QNetworkReply.readyRead false ["d"]%byte] in
  let w := mkWorld (Fixtures.single "/tmp/rootfs.img"%string
                      (regular ["x"; "y"; "z"; "w"; "v"]%byte))
             [reply] [] in
  contents
    (fs (snd (fst (UpdateThread.downloadFullImage
                     UpdateThread.DownloadRootfsState w
                     "http://host/rootfs.img"%string
                     "/tmp/rootfs.img"%string))))
    "/tmp/rootfs.img"%string
  = ["a"; "b"; "c"]%byte.
Proof.
  intros reply w.
  pose proof (full_download_stores_payload UpdateThread.DownloadRootfsState w
                "http://host/rootfs.img"%string "/tmp/rootfs.img"%string
                (or_intror (ex_intro _ (regular ["x"; "y"; "z"; "w"; "v"]%byte)
                              (conj eq_refl (conj eq_refl eq_refl)))))
    as (Hc & _).
  exact Hc.
Defined.

(** ** UpdateThread::downloadDeltaImage *)

Lemma delta_loop_clean_finish (L : EngineLibs) (state : UpdateThread.State)
    (signals : list Signal) :
  forall d : UpdateThread.DeltaLocals L,
    UpdateThread.d_ret L d = false ->
    (let d' := fst (QEventLoop_exec (UpdateThread.delta_slot L state)
                      signals d) in
     UpdateThread.d_ret L d' && negb (UpdateThread.d_error L d')) = true ->
    exists before after,
      signals = (before ++ QNetworkReply.finished :: after)%list
      /\ ~ In QNetworkReply.error before
      /\ (forall data, ~ In (QNetworkReply.readyRead true data) before).
Proof.
  induction signals as [|sig rest IH]; intros d Hret; cbn zeta.
  - cbn [QEventLoop_exec fst]. rewrite Hret. discriminate.
  - assert (Hcons : forall (sig0 : Signal) (d0 : UpdateThread.DeltaLocals L),
              sig0 <> QNetworkReply.error ->
              (forall data, sig0 <> QNetworkReply.readyRead true data) ->
              UpdateThread.d_ret L d0 = false ->
              (let d' := fst (QEventLoop_exec (UpdateThread.delta_slot L state)
                                rest d0) in
               UpdateThread.d_ret L d' && negb (UpdateThread.d_error L d'))
              = true ->
              exists before after,
                (sig0 :: rest = before ++ QNetworkReply.finished :: after)%list
                /\ ~ In QNetworkReply.error before
                /\ (forall data,
                       ~ In (QNetworkReply.readyRead true data) before)).
    { intros sig0 d0 He Hr Hret0 Hok.
      destruct (IH d0 Hret0 Hok) as (before & after & -> & Hne & Hnr).
      exists (sig0 :: before), after. split; [reflexivity|]. split.
      - intros [Heq|Hin]; [exact (He Heq)|exact (Hne Hin)].
      - intros data [Heq|Hin]; [exact (Hr data Heq)|
                                exact (Hnr data Hin)]. }
    cbn [QEventLoop_exec].
    destruct sig as [replyError data| | |r t].
    + cbn [UpdateThread.delta_slot]. destruct replyError.
      * match goal with
        | |- context [QEventLoop_exec ?slot rest ?d0] =>
            pose proof (delta_loop_error_sticky L state rest d0 eq_refl)
              as Hsticky;
            destruct (QEventLoop_exec slot rest d0) as [d'' out']
        end.
        cbn [fst] in *. rewrite Hsticky, andb_false_r. discriminate.
      * destruct (DecodeChunkToInterface L _ _ _ _ _) as [[ok dec] out].
        destruct ok; cbn [negb].
        -- intros Hok.
           apply (Hcons _ (UpdateThread.mkDeltaLocals L
                             (UpdateThread.d_ret L d)
                             (UpdateThread.d_error L d) dec out));
             [discriminate|discriminate|exact Hret|].
           cbn zeta.
           destruct (QEventLoop_exec _ _ _) as [d'' out']. exact Hok.
        -- cbn [fst UpdateThread.d_ret UpdateThread.d_error negb].
           rewrite andb_false_r. discriminate.
    + cbn [UpdateThread.delta_slot fst UpdateThread.d_ret
           UpdateThread.d_error negb].
      rewrite andb_false_r. discriminate.
    + intros _. exists [], rest. split; [reflexivity|].
      split; [intros []|intros data []].
    + cbn [UpdateThread.delta_slot]. intros Hok.
      apply (Hcons _ d); [discriminate|discriminate|exact Hret|].
      cbn zeta. destruct (QEventLoop_exec _ _ _) as [d'' out']. exact Hok.
Qed.

(** X10. [downloadDeltaImage] returns true only if the output could be
    opened for writing and the reply delivered [finished] before the timer,
    with no [error] and no [readyRead] under a reply error before it: unlike
    in [downloadFullImage], one [readyRead] that comes with a reply error
    makes the attempt fail. *)
Theorem delta_download_needs_clean_finish
    (L : EngineLibs) (state : UpdateThread.State) (w : World)
    (deltaUrl : string) (dict : ImageReader.t) (outputPath : string) :
  fst (fst (fst (UpdateThread.downloadDeltaImage L state w deltaUrl dict
                   outputPath))) = true ->
  (forall ino, fs w outputPath = Some ino -> i_writable ino = true)
  /\ exists before after,
       hd [] (replies w) = (before ++ QNetworkReply.finished :: after)%list
       /\ ~ In QNetworkReply.error before
       /\ (forall data, ~ In (QNetworkReply.readyRead true data) before).
Proof.
  rewrite <- open_fresh_succeeds_iff.
  unfold UpdateThread.downloadDeltaImage. cbn [net_get fs].
  destruct (UpdateWriter.open (fs w) UpdateWriter.new outputPath)
    as [[opened fs1] output].
  cbn [fst]. destruct opened; cbn [negb fst]; [|discriminate].
  destruct (ImageReader.map fs1 dict) as [[buf|] dict'];
    cbn [fst]; [|discriminate].
  match goal with
  | |- context [QEventLoop_exec ?slot ?sigs ?s] =>
      pose proof (delta_loop_clean_finish L state sigs s eq_refl) as Hloop;
      destruct (QEventLoop_exec slot sigs s) as [d out]
  end.
  cbn [fst] in *. intros Hok. split; [reflexivity|exact (Hloop Hok)].
Qed.

(** X10 on an instance. The boot delta of the fixtures succeeds: its reply
    is two progress reports around one chunk, then [finished]. *)
Lemma delta_download_needs_clean_finish_witness :
  exists before after,
    hd [] (replies Fixtures.deltas_served)
    = (before ++ QNetworkReply.finished :: after)%list
    /\ ~ In QNetworkReply.error before
    /\ (forall data, ~ In (QNetworkReply.readyRead true data) before).
Proof.
  exact (proj2
    (delta_download_needs_clean_finish Fixtures.libs
       UpdateThread.DownloadBootimgState Fixtures.deltas_served
       (bootimgDeltaUrl Fixtures.update42)
       (snd (ImageReader.open Fixtures.disk
               (ImageReader.new ImageReader.AndroidBootType
                  "/dev/mmcblk0p4"%string)))
       "/dev/mmcblk0p5"%string
       ltac:(vm_compute; reflexivity))).
Defined.

(** The loops of [downloadDeltaImage] under two [FinishDecoding] agree on
    everything but the decoder: [finished] is the one signal that calls it,
    and the loop ends there. *)
Lemma delta_loop_FinishDecoding (L : EngineLibs)
    (finish : Decoder L -> bool * Decoder L)
    (state : UpdateThread.State) (signals : list Signal) :
  forall (ret err : bool) (dec : Decoder L)
         (output : FileSystem * UpdateWriter.t),
    let r := QEventLoop_exec (UpdateThread.delta_slot L state) signals
               (UpdateThread.mkDeltaLocals L ret err dec output) in
    let r' := QEventLoop_exec
                (UpdateThread.delta_slot (with_FinishDecoding L finish) state)
                signals
                (UpdateThread.mkDeltaLocals (with_FinishDecoding L finish)
                   ret err dec output) in
    UpdateThread.d_ret _ (fst r') = UpdateThread.d_ret _ (fst r)
    /\ UpdateThread.d_error _ (fst r') = UpdateThread.d_error _ (fst r)
    /\ UpdateThread.d_output _ (fst r') = UpdateThread.d_output _ (fst r)
    /\ snd r' = snd r.
Proof.
  induction signals as [|sig rest IH]; intros ret err dec output; cbn zeta.
  - cbn. repeat split; reflexivity.
  - cbn [QEventLoop_exec].
    destruct sig as [replyError data| | |r t].
    + cbn [UpdateThread.delta_slot UpdateThread.d_ret UpdateThread.d_error
           UpdateThread.d_decoder UpdateThread.d_output
           with_FinishDecoding DecodeChunkToInterface Decoder].
      destruct replyError.
      * specialize (IH ret true dec output). cbn zeta in IH.
        destruct (QEventLoop_exec (UpdateThread.delta_slot L state) _ _)
          as [d1 o1].
        destruct (QEventLoop_exec
                    (UpdateThread.delta_slot (with_FinishDecoding L finish)
                       state) _ _) as [d2 o2].
        cbn [fst snd app] in *. exact IH.
      * destruct (DecodeChunkToInterface L _ _ dec data output)
          as [[ok dec'] out'].
        destruct ok; cbn [negb]; [|repeat split; reflexivity].
        specialize (IH ret err dec' out'). cbn zeta in IH.
        destruct (QEventLoop_exec (UpdateThread.delta_slot L state) _ _)
          as [d1 o1].
        destruct (QEventLoop_exec
                    (UpdateThread.delta_slot (with_FinishDecoding L finish)
                       state) _ _) as [d2 o2].
        cbn [fst snd app] in *. exact IH.
    + cbn. repeat split; reflexivity.
    + cbn. repeat split; reflexivity.
    + cbn [UpdateThread.delta_slot].
      specialize (IH ret err dec output). cbn zeta in IH.
      destruct (QEventLoop_exec (UpdateThread.delta_slot L state) _ _)
        as [d1 o1].
      destruct (QEventLoop_exec
                  (UpdateThread.delta_slot (with_FinishDecoding L finish)
                     state) _ _) as [d2 o2].
      cbn [fst snd] in *.
      destruct IH as (H1 & H2 & H3 & H4).
      repeat split; try assumption. rewrite H4. reflexivity.
Qed.

(** X11. What [FinishDecoding] returns is never looked at: with any other
    [FinishDecoding] in its place, [downloadDeltaImage] returns the same
    result, leaves the same files and emits the same progress. A delta
    stream that ends too early is not found out here. *)
Theorem FinishDecoding_result_is_ignored
    (L : EngineLibs) (finish : Decoder L -> bool * Decoder L)
    (state : UpdateThread.State) (w : World)
    (deltaUrl : string) (dict : ImageReader.t) (outputPath : string) :
  UpdateThread.downloadDeltaImage (with_FinishDecoding L finish) state w
    deltaUrl dict outputPath
  = UpdateThread.downloadDeltaImage L state w deltaUrl dict outputPath.
Proof.
  unfold UpdateThread.downloadDeltaImage. cbn [net_get fs].
  destruct (UpdateWriter.open (fs w) UpdateWriter.new outputPath)
    as [[opened fs1] output].
  destruct opened; cbn [negb]; [|reflexivity].
  destruct (ImageReader.map fs1 dict) as [[buf|] dict']; [|reflexivity].
  cbn [with_FinishDecoding StartDecoding].
  pose proof (delta_loop_FinishDecoding L finish state (hd [] (replies w))
                false false
                (StartDecoding L (512 * 1024 * 1024)
                   (firstn (Z.to_nat (ImageReader.size dict')) buf))
                (fs1, output)) as H.
  cbn zeta in H.
  destruct (QEventLoop_exec (UpdateThread.delta_slot L state) _ _) as [d1 o1].
  destruct (QEventLoop_exec
              (UpdateThread.delta_slot (with_FinishDecoding L finish) state)
              _ _) as [d2 o2].
  cbn [fst snd] in H. destruct H as (H1 & H2 & H3 & H4).
  rewrite H1, H2, H3, H4. reflexivity.
Qed.

(** ** UpdateThread::downloadAndVerify and UpdateThread::run *)

(** X12. The requests of one [downloadAndVerify]: a delta request exactly
    when the dictionary opens, whatever the target already holds, then at
    most one full-image request; each request takes the next reply. *)
Theorem downloadAndVerify_requests
    (L : EngineLibs) (state : UpdateThread.State) (w : World)
    (ty : ImageReader.ImageType)
    (dictionaryPath outputPath fullImageUrl deltaImageUrl sha : string) :
  let w' :=
    snd (fst (UpdateThread.downloadAndVerify L state w ty dictionaryPath
                outputPath fullImageUrl deltaImageUrl sha)) in
  let delta :=
    if fst (ImageReader.open (fs w) (ImageReader.new ty dictionaryPath))
    then [(DeltaRequest, deltaImageUrl)] else [] in
  exists full,
    (full = [] \/ full = [(FullRequest, fullImageUrl)])
    /\ requests w' = (requests w ++ delta ++ full)%list
    /\ replies w' = skipn (List.length (delta ++ full)) (replies w).
Proof.
  cbn zeta. rewrite downloadAndVerify_paths.
  set (dict := ImageReader.open (fs w) (ImageReader.new ty dictionaryPath)).
  pose proof (downloadDeltaImage_world L state w deltaImageUrl (snd dict)
                outputPath) as Hd.
  cbn zeta in Hd.
  set (delta := UpdateThread.downloadDeltaImage L state w deltaImageUrl
                  (snd dict) outputPath) in *.
  set (w1 := if fst dict then snd (fst (fst delta)) else w).
  assert (H1 : requests w1
               = (requests w ++ (if fst dict then [(DeltaRequest, deltaImageUrl)]
                                 else []))%list
               /\ replies w1
                  = skipn (List.length (if fst dict
                                        then [(DeltaRequest, deltaImageUrl)]
                                        else [])) (replies w)).
  { subst w1. destruct (fst dict).
    - destruct Hd as [Hr Hq]. split; [exact Hq|].
      rewrite Hr. destruct (replies w); reflexivity.
    - rewrite app_nil_r. split; reflexivity. }
  pose proof (downloadFullImage_world state w1 fullImageUrl outputPath) as Hf.
  cbn zeta in Hf.
  set (full := UpdateThread.downloadFullImage state w1 fullImageUrl outputPath)
    in *.
  destruct H1 as [Hq1 Hr1]. destruct Hf as [Hr3 Hq3].
  assert (Hnone : exists full0,
             (full0 = [] \/ full0 = [(FullRequest, fullImageUrl)])
             /\ requests w1
                = (requests w ++ (if fst dict
                                  then [(DeltaRequest, deltaImageUrl)]
                                  else []) ++ full0)%list
             /\ replies w1
                = skipn (List.length
                           ((if fst dict then [(DeltaRequest, deltaImageUrl)]
                             else []) ++ full0)%list) (replies w)).
  { exists []. rewrite !app_nil_r. split; [left; reflexivity|].
    split; [exact Hq1|exact Hr1]. }
  assert (Hone : exists full0,
             (full0 = [] \/ full0 = [(FullRequest, fullImageUrl)])
             /\ requests (snd (fst full))
                = (requests w ++ (if fst dict
                                  then [(DeltaRequest, deltaImageUrl)]
                                  else []) ++ full0)%list
             /\ replies (snd (fst full))
                = skipn (List.length
                           ((if fst dict then [(DeltaRequest, deltaImageUrl)]
                             else []) ++ full0)%list) (replies w)).
  { exists [(FullRequest, fullImageUrl)]. split; [right; reflexivity|].
    split; [rewrite Hq3, Hq1, app_assoc; reflexivity|].
    rewrite Hr3, Hr1. destruct (fst dict); cbn [List.length app skipn].
    - destruct (replies w) as [|a [|b l]]; reflexivity.
    - destruct (replies w); reflexivity. }
  destruct (fst dict && negb (fst (fst (fst delta)))); [exact Hnone|].
  destruct (fst (UpdateThread.verifyImage L state (fs w1) ty outputPath sha));
    [exact Hnone|].
  destruct (negb (fst (fst full))); exact Hone.
Qed.

(** X13. When the dictionary cannot be opened and the target already holds
    the image, [downloadAndVerify] accepts it as it is: no request, no
    write, only the progress of the verification. *)
Theorem verified_target_needs_no_download
    (L : EngineLibs) (state : UpdateThread.State) (w : World)
    (ty : ImageReader.ImageType)
    (dictionaryPath outputPath fullImageUrl deltaImageUrl sha : string) :
  fst (ImageReader.open (fs w) (ImageReader.new ty dictionaryPath)) = false ->
  fst (UpdateThread.verifyImage L state (fs w) ty outputPath sha) = true ->
  UpdateThread.downloadAndVerify L state w ty dictionaryPath outputPath
    fullImageUrl deltaImageUrl sha
  = (true, w, snd (UpdateThread.verifyImage L state (fs w) ty outputPath sha)).
Proof.
  intros Hd Hv. rewrite downloadAndVerify_paths. rewrite Hd.
  cbn [andb]. rewrite Hv. reflexivity.
Qed.

(** X13 on an instance. The boot slot in use is missing and the other slot
    holds the boot image of version 42. *)
Lemma verified_target_needs_no_download_witness :
  let w := mkWorld (Fixtures.single "/dev/mmcblk0p5"%string
                      (blockdev (Fixtures.boot_image "B")))
             [Fixtures.delivers (Fixtures.boot_image "A")] [] in
  let result :=
    UpdateThread.downloadAndVerify Fixtures.libs
      UpdateThread.DownloadBootimgState w ImageReader.AndroidBootType
      "/dev/mmcblk0p4"%string "/dev/mmcblk0p5"%string
      (bootimgUrl Fixtures.update42) (bootimgDeltaUrl Fixtures.update42)
      Fixtures.boot_B_sha512 in
  fst (fst result) = true /\ snd (fst result) = w.
Proof.
  intros w result. subst result.
  rewrite (verified_target_needs_no_download Fixtures.libs
             UpdateThread.DownloadBootimgState w ImageReader.AndroidBootType
             "/dev/mmcblk0p4"%string "/dev/mmcblk0p5"%string
             (bootimgUrl Fixtures.update42)
             (bootimgDeltaUrl Fixtures.update42) Fixtures.boot_B_sha512
             ltac:(vm_compute; reflexivity) ltac:(vm_compute; reflexivity)).
  split; reflexivity.
Defined.

(** ** The progress of UpdateThread::verifyImage *)

(** The loop of [verifyImage] runs once per started MiB and ends at the
    size of the image. *)
Lemma chunk_ends_count (image_size : Z) (n : nat) :
  forall pos, 0 <= pos <= image_size ->
    (Z.to_nat ((image_size - pos + (1024 * 1024 - 1)) / (1024 * 1024)) <= n)%nat ->
    List.length (chunk_ends n image_size pos)
    = Z.to_nat ((image_size - pos + (1024 * 1024 - 1)) / (1024 * 1024))
    /\ (pos < image_size -> last (chunk_ends n image_size pos) 0 = image_size).
Proof.
  induction n as [|n IH]; intros pos Hpos Hn.
  - cbn [chunk_ends List.length]. split; [lia|].
    intros Hlt. exfalso.
    assert (1 <= (image_size - pos + (1024 * 1024 - 1)) / (1024 * 1024))
      by (apply Z.div_le_lower_bound; lia).
    lia.
  - cbn [chunk_ends]. destruct (Z.ltb_spec pos image_size) as [Hlt|Hge].
    + set (pos' := pos + Z.min (1024 * 1024) (image_size - pos)).
      assert (Hstep : (image_size - pos + (1024 * 1024 - 1)) / (1024 * 1024)
                      = 1 + (image_size - pos' + (1024 * 1024 - 1))
                            / (1024 * 1024)).
      { unfold pos'. destruct (Z.le_ge_cases (1024 * 1024) (image_size - pos)).
        - rewrite Z.min_l by lia.
          replace (image_size - pos + (1024 * 1024 - 1))
            with (image_size - (pos + 1024 * 1024) + (1024 * 1024 - 1)
                  + 1 * (1024 * 1024)) by lia.
          rewrite Z.div_add by lia. lia.
        - rewrite Z.min_r by lia.
          replace (image_size - (pos + (image_size - pos))
                   + (1024 * 1024 - 1)) with (1024 * 1024 - 1) by lia.
          rewrite (Z.div_small (1024 * 1024 - 1)) by lia.
          replace (image_size - pos + (1024 * 1024 - 1))
            with ((image_size - pos - 1) + 1 * (1024 * 1024)) by lia.
          rewrite Z.div_add by lia.
          rewrite Z.div_small by lia. lia. }
      assert (Hk : 0 <= (image_size - pos' + (1024 * 1024 - 1))
                        / (1024 * 1024))
        by (apply Z.div_pos; unfold pos'; lia).
      destruct (IH pos' ltac:(unfold pos'; lia) ltac:(lia)) as (Hlen & Hlast).
      cbn [List.length]. split; [lia|]. intros _.
      destruct (Z.eq_dec pos' image_size) as [Heq|Hne].
      * destruct (chunk_ends n image_size pos') as [|x l] eqn:Hc;
          [exact Heq|].
        exfalso. rewrite Heq, Z.sub_diag in Hlen.
        cbn [List.length] in Hlen. rewrite Z.div_small in Hlen by lia.
        discriminate.
      * specialize (Hlast ltac:(unfold pos' in *; lia)).
        destruct (chunk_ends n image_size pos') as [|x l] eqn:Hc.
        -- exfalso. cbn [List.length] in Hlen.
           assert (1 <= (image_size - pos' + (1024 * 1024 - 1))
                        / (1024 * 1024))
             by (apply Z.div_le_lower_bound; unfold pos' in *; lia).
           lia.
        -- exact Hlast.
    + cbn [List.length]. split; [|lia].
      replace (image_size - pos) with 0 by lia.
      rewrite Z.div_small by lia. reflexivity.
Qed.

Lemma float_div_self (s : Z) :
  0 < s -> s <= 2 ^ 64 -> float_div s s = FNum 1.
Proof.
  intros Hs Hmax.
  destruct (float_of_int_finite s ltac:(lia)) as (y & Hy & _ & Hy1 & _).
  specialize (Hy1 ltac:(lia)).
  unfold float_div. rewrite Hy. cbn [fdiv].
  destruct (Qeq_bool y 0) eqn:Ey; [apply Qeq_bool_iff in Ey; lra|].
  replace (FNum 1) with (round32 1) by (vm_compute; reflexivity).
  apply round_compat. unfold Qdiv. apply Qmult_inv_r. lra.
Qed.

Lemma verify_values_map (state : UpdateThread.State) (image_size : Z)
    (ps : list Z) :
  image_size <= 2 ^ 64 ->
  Forall (fun p => 0 < p <= image_size) ps ->
  values (flat_map (fun p => UpdateThread.emitProgress state false
                               (float_div p image_size)) ps)
  = List.map (fun p => scale state false (float_div p image_size)) ps.
Proof.
  intros Hmax.
  induction 1 as [|p ps Hp _ IH]; [reflexivity|].
  cbn [flat_map List.map]. rewrite values_app, IH, emitProgress_scale.
  rewrite float_div_passes by lia. reflexivity.
Qed.

Lemma last_map_nonempty {A B : Type} (f : A -> B) (l : list A) (a : A) (b : B) :
  l <> [] -> last (List.map f l) b = f (last l a).
Proof.
  induction l as [|x l IH]; [contradiction|]. intros _.
  destruct l as [|y l]; [reflexivity|].
  change (last (List.map f (y :: l)) b = f (last (y :: l) a)).
  apply IH. discriminate.
Qed.

(** X14. [verifyImage] reports once per started MiB of the image, and its
    last report is the end of the verification quarter: one half for the
    boot image, one for the rootfs. An image of size zero is hashed without
    any report. *)
Theorem verifyImage_progress_count_and_end
    (L : EngineLibs) (state : UpdateThread.State) (fs : FileSystem)
    (ty : ImageReader.ImageType) (path expected : string)
    (r : ImageReader.t) :
  ImageReader.open fs (ImageReader.new ty path) = (true, r) ->
  let vs := values (snd (UpdateThread.verifyImage L state fs ty path expected)) in
  Z.of_nat (List.length vs)
  = (ImageReader.size r + (1024 * 1024 - 1)) / (1024 * 1024)
  /\ (0 < ImageReader.size r ->
      last vs FNaN = match state with
                     | UpdateThread.DownloadBootimgState => FNum (1 # 2)
                     | UpdateThread.DownloadRootfsState => FNum 1
                     end).
Proof.
  intros Ho. cbn zeta. rewrite verifyImage_spec, Ho.
  destruct (open_true fs ty path r Ho) as (ino & Hfs & _ & _ & _ & Hsz).
  rewrite Hfs. cbn [snd]. unfold verify_progress, ImageReader.size.
  rewrite hash_loop_emits.
  pose proof (open_imageSize_lt fs ty path r Ho) as Hmax.
  set (s := ImageReader.imageSize r) in *.
  assert (Hdiv : 0 <= (s + (1024 * 1024 - 1)) / (1024 * 1024))
    by (apply Z.div_pos; lia).
  assert (Hle : (s + (1024 * 1024 - 1)) / (1024 * 1024) <= s / (1024 * 1024) + 1).
  { replace (s / (1024 * 1024) + 1) with ((s + 1 * (1024 * 1024)) / (1024 * 1024))
      by (rewrite Z.div_add by lia; reflexivity).
    apply Z.div_le_mono; lia. }
  assert (Hs0 : 0 <= s / (1024 * 1024)) by (apply Z.div_pos; lia).
  destruct (chunk_ends_count s (UpdateThread.hash_loop_bound s) 0
              ltac:(lia)
              ltac:(unfold UpdateThread.hash_loop_bound;
                    rewrite Z.sub_0_r; lia)) as (Hlen & Hlast).
  rewrite Z.sub_0_r in Hlen.
  pose proof (chunk_ends_bounds (UpdateThread.hash_loop_bound s) s 0
                ltac:(lia)) as Hb.
  rewrite verify_values_map
    by first [lia
             |eapply Forall_impl; [|exact Hb]; cbn beta; intros p Hp; lia].
  rewrite length_map, Hlen. split; [lia|].
  intros Hpos. specialize (Hlast Hpos).
  rewrite (last_map_nonempty _ _ 0).
  - rewrite Hlast, float_div_self by lia.
    destruct state; vm_compute; reflexivity.
  - intros Hnil. rewrite Hnil in Hlen. cbn [List.length] in Hlen.
    assert (1 <= (s + (1024 * 1024 - 1)) / (1024 * 1024))
      by (apply Z.div_le_lower_bound; lia).
    lia.
Qed.

(** X14 on an instance. The rootfs image of the fixtures announces 100
    bytes, 4096 after alignment: one report, which is 1. *)
Lemma verifyImage_progress_count_and_end_witness :
  values (snd (UpdateThread.verifyImage Fixtures.libs
                 UpdateThread.DownloadRootfsState
                 (Fixtures.single "/dev/mmcblk0p7"%string
                    (blockdev (Fixtures.rootfs_image "B")))
                 ImageReader.SquashFsType "/dev/mmcblk0p7"%string
                 Fixtures.rootfs_B_sha512))
  = [FNum 1].
Proof.
  destruct (verifyImage_progress_count_and_end Fixtures.libs
              UpdateThread.DownloadRootfsState
              (Fixtures.single "/dev/mmcblk0p7"%string
                 (blockdev (Fixtures.rootfs_image "B")))
              ImageReader.SquashFsType "/dev/mmcblk0p7"%string
              Fixtures.rootfs_B_sha512
              (ImageReader.mk ImageReader.SquashFsType
                 "/dev/mmcblk0p7"%string true None 4096)
              ltac:(vm_compute; reflexivity)) as (Hlen & Hlast).
  specialize (Hlast ltac:(vm_compute; reflexivity)).
  destruct (values _) as [|v [|v' vs]].
  - discriminate.
  - cbn [last] in Hlast. rewrite Hlast. reflexivity.
  - exfalso. revert Hlen. cbn [List.length].
    change ((ImageReader.size
               (ImageReader.mk ImageReader.SquashFsType
                  "/dev/mmcblk0p7"%string true None 4096)
             + (1024 * 1024 - 1)) / (1024 * 1024)) with 1.
    lia.
Defined.

(** ** Updater::downloadFinished and Updater::install *)

(** X15. [updateAvailable] is announced only at the end of a check in
    which the manifest parsed, both temporary files could be opened for
    writing and gpg accepted the signature file for the manifest file; the
    version announced is the manifest's [build_id], and it is above the
    running version.  What [file.write] stored is not looked at, so the
    files gpg accepted need not hold the replies. *)
Theorem updateAvailable_only_after_verification
    (C : ControllerLibs) (u : Updater.t) (fs : FileSystem)
    (updateChannel : string) (manifest signature : list byte) (v : string) :
  let result := Updater.run_check C u fs updateChannel manifest signature in
  In (Updater.updateAvailable v) (snd result) ->
  snd result = [Updater.updateAvailable v]
  /\ jsonError (fromJson C manifest) = None
  /\ (exists fs1,
         Updater.write_file fs "/tmp/update.json" manifest = Some fs1
         /\ Updater.write_file fs1 "/tmp/update.json.sig" signature
            = Some (snd (fst result)))
  /\ Updater.verifySignature C (snd (fst result))
       "/tmp/update.json" "/tmp/update.json.sig" = true
  /\ version (Updater.availableUpdate (fst (fst result)))
     = toULong C (object (fromJson C manifest) "build_id")
  /\ getOsVersion (Updater.machine u)
     < version (Updater.availableUpdate (fst (fst result)))
  /\ v = number C (version (Updater.availableUpdate (fst (fst result)))).
Proof.
  cbn zeta. unfold Updater.run_check, Updater.check.
  cbn [Updater.downloadFinished Updater.state Updater.machine
       Updater.availableUpdate].
  destruct (Updater.write_file fs "/tmp/update.json" manifest) as [fs1|];
    [|cbn; intros []].
  destruct (jsonError (fromJson C manifest)) as [e|];
    [cbn; intros [H|[]]; discriminate|].
  cbn [Updater.state Updater.downloadFinished].
  destruct (Updater.write_file fs1 "/tmp/update.json.sig" signature)
    as [fs2|] eqn:Hw2;
    [|cbn; intros []].
  cbn [Updater.with_state Updater.machine Updater.availableUpdate
       Updater.state Updater.pendingReply version].
  destruct (Updater.verifySignature C fs2 "/tmp/update.json"
              "/tmp/update.json.sig") eqn:Hv;
    cbn [negb]; [|cbn; intros []].
  destruct (Z.gtb_spec (toULong C (object (fromJson C manifest) "build_id"))
              (getOsVersion (Updater.machine u))) as [Hgt|Hle].
  - cbn [fst snd app Updater.availableUpdate version In].
    intros [H|[]]. injection H as <-.
    split; [reflexivity|]. split; [reflexivity|].
    split; [exists fs1; split; [reflexivity|exact Hw2]|].
    split; [exact Hv|]. split; [reflexivity|].
    split; [exact Hgt|reflexivity].
  - cbn [snd app In]. intros [H|[]]. discriminate H.
Qed.

(** X15 on an instance. The check of the fixtures: version 42 for a device
    on version 41. *)
Lemma updateAvailable_only_after_verification_witness :
  let result :=
    Updater.run_check Fixtures.controller_libs
      (Updater.new Fixtures.machine) Fixtures.tmpfs "stable"
      Fixtures.manifest42 Fixtures.good_signature in
  snd result = [Updater.updateAvailable "42"]
  /\ Updater.verifySignature Fixtures.controller_libs (snd (fst result))
       "/tmp/update.json" "/tmp/update.json.sig" = true.
Proof.
  intros result.
  destruct (updateAvailable_only_after_verification
              Fixtures.controller_libs (Updater.new Fixtures.machine)
              Fixtures.tmpfs "stable" Fixtures.manifest42
              Fixtures.good_signature "42"
              ltac:(vm_compute; left; reflexivity))
    as (Hout & _ & _ & Hv & _).
  split; [exact Hout|exact Hv].
Defined.

(** What [file.write] stored is not looked at: with [/tmp/update.json] a
    device of no bytes, and a signature that gpg accepts for the empty
    file, version 42 is announced although the manifest file is empty. *)
Lemma announced_over_an_empty_file :
  let result :=
    Updater.run_check Fixtures.controller_libs
      (Updater.new Fixtures.machine)
      (fs_put Fixtures.tmpfs "/tmp/update.json" (blockdev []))
      "stable" Fixtures.manifest42 (SHA512.digest []) in
  snd result = [Updater.updateAvailable "42"]
  /\ contents (snd (fst result)) "/tmp/update.json" = [].
Proof. vm_compute. split; reflexivity. Qed.

(** X16. When a check gets as far as running gpg and gpg rejects the
    signature, the check emits nothing, and an [install()] that follows is
    refused: it emits [updateFailed] and touches nothing. *)
Theorem rejected_signature_blocks_install
    (C : ControllerLibs) (L : EngineLibs) (u : Updater.t) (fs : FileSystem)
    (updateChannel : string) (manifest signature : list byte) (w : World) :
  let result := Updater.run_check C u fs updateChannel manifest signature in
  Updater.state (fst (fst result)) = Updater.StateVerifySignature ->
  Updater.verifySignature C (snd (fst result))
    "/tmp/update.json" "/tmp/update.json.sig" = false ->
  snd result = []
  /\ Updater.availableUpdate (fst (fst result)) = zeroed
  /\ Updater.install L (fst (fst result)) w = (w, [Updater.updateFailed]).
Proof.
  cbn zeta. unfold Updater.run_check, Updater.check.
  cbn [Updater.downloadFinished Updater.state Updater.machine
       Updater.availableUpdate].
  destruct (Updater.write_file fs "/tmp/update.json" manifest) as [fs1|];
    [|cbn; discriminate].
  destruct (jsonError (fromJson C manifest)) as [e|]; [cbn; discriminate|].
  cbn [Updater.state Updater.downloadFinished].
  destruct (Updater.write_file fs1 "/tmp/update.json.sig" signature) as [fs2|];
    [|cbn; discriminate].
  cbn [Updater.with_state Updater.machine Updater.availableUpdate
       Updater.state Updater.pendingReply version].
  destruct (Updater.verifySignature C fs2 "/tmp/update.json"
              "/tmp/update.json.sig") eqn:Hv; cbn [negb].
  - destruct (_ >? _); cbn [fst snd]; intros _ Hf;
      rewrite Hv in Hf; discriminate.
  - cbn [fst snd app]. intros _ _. repeat split.
Qed.

(** X16 on an instance. The check of the fixtures with a signature gpg
    rejects, then [install()]. *)
Lemma rejected_signature_blocks_install_witness :
  let result :=
    Updater.run_check Fixtures.controller_libs
      (Updater.new Fixtures.machine) Fixtures.tmpfs "stable"
      Fixtures.manifest42 Fixtures.bad_signature in
  Updater.install Fixtures.libs (fst (fst result)) Fixtures.deltas_served
  = (Fixtures.deltas_served, [Updater.updateFailed]).
Proof.
  intros result.
  destruct (rejected_signature_blocks_install Fixtures.controller_libs
              Fixtures.libs (Updater.new Fixtures.machine) Fixtures.tmpfs
              "stable" Fixtures.manifest42 Fixtures.bad_signature
              Fixtures.deltas_served
              ltac:(vm_compute; reflexivity) ltac:(vm_compute; reflexivity))
    as (_ & _ & Hinstall).
  exact Hinstall.
Defined.

(** [write_file] on a path that is absent or a writable regular file: the
    file holds the content and nothing else changes. *)
Lemma write_file_regular (fs : FileSystem) (path : string)
    (content : list byte) :
  (fs path = None
   \/ exists ino, fs path = Some ino /\ i_mode ino = S_IFREG
                  /\ i_writable ino = true) ->
  exists fs1,
    Updater.write_file fs path content = Some fs1
    /\ (exists ino, fs1 path = Some ino /\ i_mode ino = S_IFREG
                    /\ i_writable ino = true /\ i_data ino = content)
    /\ (forall p, p <> path -> fs1 p = fs p).
Proof.
  intros Hnode. unfold Updater.write_file, UpdateWriter.open.
  cbn [UpdateWriter.new UpdateWriter.isOpen].
  assert (Hwrite : forall ino0, i_mode ino0 = S_IFREG -> i_data ino0 = [] ->
            i_writable ino0 = true ->
            exists fs1,
              Some (fst (UpdateWriter.file_write (fs_put fs path ino0)
                           (UpdateWriter.mk path true 0) content)) = Some fs1
              /\ (exists ino, fs1 path = Some ino /\ i_mode ino = S_IFREG
                              /\ i_writable ino = true /\ i_data ino = content)
              /\ (forall p, p <> path -> fs1 p = fs p)).
  { intros ino0 Hmode Hdata Hw. eexists. split; [reflexivity|].
    unfold UpdateWriter.file_write.
    cbn [UpdateWriter.isOpen UpdateWriter.fileName UpdateWriter.pos negb].
    rewrite fs_put_same. unfold UpdateWriter.pwrite. rewrite Hmode, Hdata.
    cbn [Z.to_nat firstn List.length Nat.sub UpdateWriter.zeros repeat app
         Nat.add fst].
    rewrite skipn_nil, app_nil_r. split.
    - exists (set_data ino0 content). rewrite fs_put_same.
      repeat split; [exact Hmode|exact Hw].
    - intros p Hp. rewrite !fs_put_other by exact Hp. reflexivity. }
  destruct Hnode as [Hnone|(ino & Hsome & Hmode & Hw)].
  - rewrite Hnone. cbn [negb]. apply (Hwrite (regular [])); reflexivity.
  - rewrite Hsome, Hw, Hmode. cbn [negb].
    apply (Hwrite (set_data ino [])); [exact Hmode|reflexivity|exact Hw].
Qed.

(** X17. With [/tmp/update.json] and [/tmp/update.json.sig] absent or
    writable regular files, a check leaves the manifest reply in the first,
    whether it parses or not, and, when it parses, the signature reply in
    the second: gpg is run on what was received. No other path changes. *)
Theorem check_stores_the_replies
    (C : ControllerLibs) (u : Updater.t) (fs : FileSystem)
    (updateChannel : string) (manifest signature : list byte) :
  (forall path, path = "/tmp/update.json"%string
                \/ path = "/tmp/update.json.sig"%string ->
     fs path = None
     \/ exists ino, fs path = Some ino /\ i_mode ino = S_IFREG
                    /\ i_writable ino = true) ->
  let fs' :=
    snd (fst (Updater.run_check C u fs updateChannel manifest signature)) in
  contents fs' "/tmp/update.json" = manifest
  /\ (jsonError (fromJson C manifest) = None ->
      contents fs' "/tmp/update.json.sig" = signature)
  /\ (forall p, p <> "/tmp/update.json"%string ->
                p <> "/tmp/update.json.sig"%string -> fs' p = fs p).
Proof.
  intros Hnodes. cbn zeta.
  destruct (write_file_regular fs "/tmp/update.json" manifest
              (Hnodes _ (or_introl eq_refl)))
    as (fs1 & Hw1 & (ino1 & Hfs1 & _ & _ & Hdata1) & Hframe1).
  assert (Hsig : fs1 "/tmp/update.json.sig"%string = None
                 \/ exists ino, fs1 "/tmp/update.json.sig"%string = Some ino
                                /\ i_mode ino = S_IFREG
                                /\ i_writable ino = true).
  { rewrite Hframe1 by discriminate. apply Hnodes. right. reflexivity. }
  destruct (write_file_regular fs1 "/tmp/update.json.sig" signature Hsig)
    as (fs2 & Hw2 & (ino2 & Hfs2 & _ & _ & Hdata2) & Hframe2).
  unfold Updater.run_check, Updater.check.
  cbn [Updater.downloadFinished Updater.state Updater.machine
       Updater.availableUpdate].
  rewrite Hw1.
  destruct (jsonError (fromJson C manifest)) as [e|].
  - cbn [Updater.state fst snd]. unfold contents. rewrite Hfs1.
    split; [exact Hdata1|]. split; [discriminate|].
    intros p Hp _. apply Hframe1. exact Hp.
  - cbn [Updater.state Updater.downloadFinished]. rewrite Hw2.
    assert (Hfinal :
      contents fs2 "/tmp/update.json" = manifest
      /\ (None = None :> option string ->
          contents fs2 "/tmp/update.json.sig" = signature)
      /\ (forall p, p <> "/tmp/update.json"%string ->
                    p <> "/tmp/update.json.sig"%string -> fs2 p = fs p)).
    { unfold contents. rewrite Hfs2, (Hframe2 "/tmp/update.json"%string)
        by discriminate.
      rewrite Hfs1. split; [exact Hdata1|]. split; [intros _; exact Hdata2|].
      intros p Hp1 Hp2. rewrite (Hframe2 p Hp2). apply Hframe1. exact Hp1. }
    destruct (negb _); [exact Hfinal|].
    destruct (_ >? _); exact Hfinal.
Qed.

(** X17 on an instance. A [/tmp] that still holds the files of an earlier
    check, and a reply that is no JSON: the manifest file holds the reply. *)
Lemma check_stores_the_replies_witness :
  let result :=
    Updater.run_check Fixtures.controller_libs
      (Updater.new Fixtures.machine)
      (fs_put (fs_put Fixtures.tmpfs "/tmp/update.json"
                 (regular Fixtures.manifest42))
         "/tmp/update.json.sig" (regular Fixtures.good_signature))
      "stable" Fixtures.bad_signature [] in
  contents (snd (fst result)) "/tmp/update.json" = Fixtures.bad_signature.
Proof.
  intros result.
  refine (proj1 (check_stores_the_replies Fixtures.controller_libs
                   (Updater.new Fixtures.machine) _ "stable"
                   Fixtures.bad_signature [] _)).
  intros path [->| ->].
  - right. eexists. split; [reflexivity|]. split; reflexivity.
  - right. eexists. split; [reflexivity|]. split; reflexivity.
Defined.

(** ** Downloads to a block device *)

(** Appends to a node that is no regular file, from position [length A] of
    contents [A ++ B]: the chunks overwrite the start of [B], and what does
    not fit is dropped. *)
Lemma fold_append_device (path : string) (chunks : list (list byte)) :
  forall (fs0 : FileSystem) (w0 : UpdateWriter.t) (ino0 : Inode)
         (A B : list byte),
    UpdateWriter.isOpen w0 = true ->
    UpdateWriter.fileName w0 = path ->
    fs0 path = Some ino0 -> i_mode ino0 <> S_IFREG ->
    i_data ino0 = (A ++ B)%list ->
    UpdateWriter.pos w0 = Z.of_nat (List.length A) ->
    let fw := fold_left UpdateWriter.append chunks (fs0, w0) in
    contents (fst fw) path
    = (A ++ firstn (List.length B)
              (List.concat chunks
                 ++ skipn (List.length (List.concat chunks)) B))%list
    /\ (forall p, p <> path -> fst fw p = fs0 p).
Proof.
  induction chunks as [|s chunks IH];
    intros fs0 w0 ino0 A B Hop Hname Hfs Hmode Hdata Hpos; cbn zeta.
  - cbn [fold_left List.concat fst app List.length skipn].
    rewrite firstn_all. unfold contents. rewrite Hfs.
    split; [exact Hdata|reflexivity].
  - cbn [fold_left List.concat].
    set (fit := firstn (List.length B) s).
    assert (Hstep : UpdateWriter.append (fs0, w0) s
                    = (fs_put fs0 path
                         (set_data ino0 ((A ++ fit) ++ skipn (List.length fit) B)),
                       UpdateWriter.mk path true
                         (Z.of_nat (List.length (A ++ fit))))).
    { unfold UpdateWriter.append, UpdateWriter.file_write. cbn [fst snd].
      rewrite Hop, Hname, Hfs. cbn [negb]. unfold UpdateWriter.pwrite.
      assert (Hbytes :
        (firstn (Z.to_nat (UpdateWriter.pos w0)) (i_data ino0)
           ++ firstn (List.length (i_data ino0)
                      - Z.to_nat (UpdateWriter.pos w0)) s
           ++ skipn (Z.to_nat (UpdateWriter.pos w0)
                     + List.length
                         (firstn (List.length (i_data ino0)
                                  - Z.to_nat (UpdateWriter.pos w0)) s))
                (i_data ino0),
         List.length (firstn (List.length (i_data ino0)
                              - Z.to_nat (UpdateWriter.pos w0)) s))
        = ((A ++ fit) ++ skipn (List.length fit) B, List.length fit)).
      { rewrite Hdata, Hpos, Nat2Z.id.
        replace (List.length (A ++ B) - List.length A)%nat
          with (List.length B) by (rewrite length_app; lia).
        fold fit.
        rewrite firstn_app, firstn_all, Nat.sub_diag. cbn [firstn].
        rewrite app_nil_r.
        rewrite skipn_app, skipn_all2 by lia. cbn [app].
        replace (List.length A + List.length fit - List.length A)%nat
          with (List.length fit) by lia.
        rewrite <- app_assoc. reflexivity. }
      injection Hbytes as Hb1 Hb2.
      rewrite (length_app A fit), Nat2Z.inj_add, <- Hpos.
      destruct (i_mode ino0); [contradiction| |];
        cbv beta iota; rewrite Hb1, Hb2; reflexivity. }
    rewrite Hstep.
    destruct (IH (fs_put fs0 path
                    (set_data ino0 ((A ++ fit) ++ skipn (List.length fit) B)))
                (UpdateWriter.mk path true (Z.of_nat (List.length (A ++ fit))))
                (set_data ino0 ((A ++ fit) ++ skipn (List.length fit) B))
                (A ++ fit)%list (skipn (List.length fit) B)
                eq_refl eq_refl (fs_put_same _ _ _) Hmode eq_refl eq_refl)
      as (Hc & Hframe).
    cbn zeta in Hc, Hframe. split.
    + rewrite Hc, <- app_assoc. f_equal.
      rewrite length_skipn, skipn_skipn.
      rewrite <- (app_assoc s), (firstn_app (List.length B) s).
      fold fit. f_equal.
      rewrite length_app.
      assert (Hfit : List.length fit = Nat.min (List.length B) (List.length s))
        by (unfold fit; apply length_firstn).
      destruct (Nat.le_gt_cases (List.length s) (List.length B)) as [Hle|Hgt].
      * rewrite Hfit, Nat.min_r by exact Hle.
        rewrite (Nat.add_comm (List.length s)). reflexivity.
      * rewrite Hfit, Nat.min_l by lia.
        rewrite Nat.sub_diag.
        replace (List.length B - List.length s)%nat with 0%nat by lia.
        reflexivity.
    + intros p Hp. rewrite (Hframe p Hp). apply fs_put_other. exact Hp.
Qed.

(** X18. On a writable target that is no regular file (the partitions the
    thread writes to are block devices), [downloadFullImage] overwrites the
    device from its first byte with the data it handled and leaves the rest
    of the device as it was; the device keeps its size, and data that does
    not fit is dropped, whatever the result. *)
Theorem full_download_overwrites_device
    (state : UpdateThread.State) (w : World) (url outputPath : string)
    (ino : Inode) :
  fs w outputPath = Some ino -> i_mode ino <> S_IFREG ->
  i_writable ino = true ->
  let w' := snd (fst (UpdateThread.downloadFullImage state w url outputPath)) in
  let data := List.concat (payload (until_quit (hd [] (replies w)))) in
  contents (fs w') outputPath
  = firstn (List.length (i_data ino))
      (data ++ skipn (List.length data) (i_data ino))
  /\ (forall p, p <> outputPath -> fs w' p = fs w p).
Proof.
  intros Hfs Hmode Hw. cbn zeta.
  unfold UpdateThread.downloadFullImage. cbn [net_get fs].
  unfold UpdateWriter.open. cbn [UpdateWriter.new UpdateWriter.isOpen].
  rewrite Hfs, Hw. cbn [negb].
  assert (Hopen : (match i_mode ino with
                   | S_IFREG =>
                       (true, fs_put (fs w) outputPath (set_data ino []),
                        UpdateWriter.mk outputPath true 0)
                   | _ => (true, fs w, UpdateWriter.mk outputPath true 0)
                   end) = (true, fs w, UpdateWriter.mk outputPath true 0))
    by (destruct (i_mode ino); [contradiction| |]; reflexivity).
  rewrite Hopen. cbn [negb]. rewrite full_loop.
  cbn [fst snd UpdateThread.f_output with_fs fs].
  exact (fold_append_device outputPath
           (payload (until_quit (hd [] (replies w)))) (fs w)
           (UpdateWriter.mk outputPath true 0) ino [] (i_data ino)
           eq_refl eq_refl Hfs Hmode eq_refl eq_refl).
Qed.

(** X18 on an instance. A device of four bytes and a reply of six: the first
    four are stored, and the download returns true. *)
Lemma full_download_overwrites_device_witness :
  let w := mkWorld (Fixtures.single "/dev/mmcblk0p5"%string
                      (blockdev ["w"; "x"; "y"; "z"]%byte))
             [[QNetworkReply.readyRead false ["a"; "b"; "c"]%byte;
               QNetworkReply.readyRead false ["d"; "e"; "f"]%byte;
               QNetworkReply.finished]] [] in
  contents
    (fs (snd (fst (UpdateThread.downloadFullImage
                     UpdateThread.DownloadBootimgState w
                     "http://host/boot.img"%string "/dev/mmcblk0p5"%string))))
    "/dev/mmcblk0p5"%string
  = ["a"; "b"; "c"; "d"]%byte.
Proof.
  intros w.
  exact (proj1 (full_download_overwrites_device
                  UpdateThread.DownloadBootimgState w
                  "http://host/boot.img"%string "/dev/mmcblk0p5"%string
                  (blockdev ["w"; "x"; "y"; "z"]%byte)
                  eq_refl ltac:(discriminate) eq_refl)).
Defined.

(** ** A reader whose open() failed *)

(** Whether [open()] succeeds does not depend on the [imageSize] and the
    mapping the reader had before. *)
Lemma open_result_of_closed (fs : FileSystem) (ty : ImageReader.ImageType)
    (path : string) (mapped : option (list byte)) (sz : Z) :
  fst (ImageReader.open fs (ImageReader.mk ty path false mapped sz))
  = fst (ImageReader.open fs (ImageReader.new ty path)).
Proof.
  unfold ImageReader.open, ImageReader.new.
  cbn [ImageReader.isOpen ImageReader.fileName].
  destruct (fs path) as [ino|]; [|reflexivity].
  destruct (negb (i_readable ino)); [reflexivity|].
  destruct (i_fstat_fails ino); [reflexivity|].
  unfold ImageReader.with_open. cbn [ImageReader.type].
  destruct ty; [| |reflexivity].
  - destruct (negb (Nat.eqb _ _)); [reflexivity|].
    destruct (negb (_ =? _)); [reflexivity|].
    unfold ImageReader.check_fileSize, ImageReader.with_imageSize.
    cbn [ImageReader.imageSize].
    destruct (i_mode ino); [| |reflexivity];
      match goal with |- context [if ?c then _ else _] => destruct c end;
      reflexivity.
  - destruct (negb (Nat.eqb _ _)); [reflexivity|].
    destruct (negb (_ =? _) || negb (_ =? _)); [reflexivity|].
    unfold ImageReader.check_fileSize, ImageReader.with_imageSize.
    cbn [ImageReader.imageSize].
    destruct (i_mode ino); [| |reflexivity];
      match goal with |- context [if ?c then _ else _] => destruct c end;
      reflexivity.
Qed.

(** X19. [open()] returns false without closing the file it has opened. A
    reader whose [open()] failed on a readable file therefore stays open:
    [open()] again returns false whatever the file holds by then; after
    [close()] it succeeds or fails as on a new reader. *)
Theorem failed_open_needs_close
    (fs fs' : FileSystem) (ty : ImageReader.ImageType) (path : string)
    (ino : Inode) :
  fs path = Some ino -> i_readable ino = true ->
  fst (ImageReader.open fs (ImageReader.new ty path)) = false ->
  let r := snd (ImageReader.open fs (ImageReader.new ty path)) in
  ImageReader.isOpen r = true
  /\ ImageReader.open fs' r = (false, r)
  /\ fst (ImageReader.open fs' (ImageReader.close r))
     = fst (ImageReader.open fs' (ImageReader.new ty path)).
Proof.
  intros Hfs Hr Hfail. cbn zeta.
  assert (Hshape : exists sz,
            snd (ImageReader.open fs (ImageReader.new ty path))
            = ImageReader.mk ty path true None sz).
  { unfold ImageReader.open, ImageReader.new.
    cbn [ImageReader.isOpen ImageReader.fileName].
    rewrite Hfs, Hr. cbn [negb].
    unfold ImageReader.with_open.
    cbn [ImageReader.type ImageReader.fileName ImageReader.mappedBuffer
         ImageReader.imageSize].
    destruct (i_fstat_fails ino); [eexists; reflexivity|].
    destruct ty; [| |eexists; reflexivity].
    - destruct (negb (Nat.eqb _ _)); [eexists; reflexivity|].
      destruct (negb (_ =? _)); [eexists; reflexivity|].
      rewrite check_fileSize_snd. eexists. reflexivity.
    - destruct (negb (Nat.eqb _ _)); [eexists; reflexivity|].
      destruct (negb (_ =? _) || negb (_ =? _)); [eexists; reflexivity|].
      rewrite check_fileSize_snd. eexists. reflexivity. }
  destruct Hshape as (sz & ->).
  split; [reflexivity|]. split; [reflexivity|].
  unfold ImageReader.close.
  cbn [ImageReader.isOpen negb ImageReader.type ImageReader.fileName
       ImageReader.imageSize].
  apply open_result_of_closed.
Qed.

(** X19 on an instance. A file that is too short for a SquashFS superblock
    when the reader is opened, and holds a whole image afterwards. *)
Lemma failed_open_needs_close_witness :
  let before := Fixtures.single "/tmp/rootfs.img"%string (regular []) in
  let after :=
    Fixtures.single "/tmp/rootfs.img"%string
      (regular (Fixtures.rootfs_image "B")) in
  let r := snd (ImageReader.open before
                  (ImageReader.new ImageReader.SquashFsType
                     "/tmp/rootfs.img"%string)) in
  fst (ImageReader.open after r) = false
  /\ fst (ImageReader.open after (ImageReader.close r)) = true.
Proof.
  intros before after r.
  destruct (failed_open_needs_close before after ImageReader.SquashFsType
              "/tmp/rootfs.img"%string (regular []) eq_refl eq_refl eq_refl)
    as (_ & Hagain & Hclosed).
  fold r in Hagain, Hclosed.
  split; [rewrite Hagain; reflexivity|].
  rewrite Hclosed. vm_compute. reflexivity.
Defined.
